(** * VisualRWKV: a shallow embedding of the sequence-layout code

    The development follows [VisualRWKV-v5/v5.1/src/model.py] (module [V51]),
    [VisualRWKV-v5/v5.1_old/src/model.py] (module [V51_old]) and the constants
    of [VisualRWKV-v5/v5.1_old/src/dataset.py] (module [Dataset]).

    Python integers are [Z]; a tensor is the list of its slices along the
    first axis; Python slicing, [range], indexing and the exceptions the code
    can raise are written out in module [Py]. *)

From Stdlib Require Import ZArith List Lia Reals Lra String.
From Equations Require Import Equations.
From stdpp Require Import base list numbers.
Import ListNotations.
Local Open Scope Z_scope.

(** ** Python and torch primitives *)

Module Py.

(** The exceptions raised on the paths that are modelled. *)
Inductive error : Type :=
| ValueError_too_many_images (num_images : Z)
| ValueError_unknown_reduction (reduction : string)
| RuntimeError_shape
| IndexError
| ZeroDivisionError
| ValueError_max_empty
| UnboundLocalError
| NotImplementedError.

Inductive result (A : Type) : Type :=
| Ok (a : A)
| Raise (e : error).
Arguments Ok {A} a.
Arguments Raise {A} e.

Definition bind {A B} (m : result A) (f : A -> result B) : result B :=
  match m with
  | Ok a => f a
  | Raise e => Raise e
  end.

Notation "x <- m ; k" := (bind m (fun x => k))
  (at level 20, m at level 100, k at level 200).
Notation "' p <- m ; k" := (bind m (fun x => match x with p => k end))
  (at level 20, p pattern, m at level 100, k at level 200).

#[global] Instance result_ret : MRet result := fun A a => Ok a.
#[global] Instance result_bind : MBind result := fun A B f m => bind m f.

Definition is_ok {A} (m : result A) : bool :=
  match m with Ok _ => true | Raise _ => false end.

(** [len(l)] as a Python integer. *)
Definition len {A} (l : list A) : Z := Z.of_nat (length l).

(** A slice bound [i] of a sequence of length [n], as CPython clamps it
    for a step of one: a negative bound counts from the end. *)
Definition norm_index (n i : Z) : Z :=
  if i <? 0 then Z.max 0 (i + n) else Z.min i n.

(** [l[start:stop]]; [None] is an omitted bound. *)
Definition slice {A} (l : list A) (start stop : option Z) : list A :=
  let lo := match start with None => 0 | Some s => norm_index (len l) s end in
  let hi := match stop with None => len l | Some s => norm_index (len l) s end in
  take (Z.to_nat (hi - lo)) (drop (Z.to_nat lo) l).

(** [t[start:stop] = v] on the first axis of a tensor: the value must have
    as many rows as the slice, or one row, which is broadcast. *)
Definition slice_assign {A} (t : list A) (start stop : option Z) (v : list A)
  : result (list A) :=
  let lo := match start with None => 0 | Some s => norm_index (len t) s end in
  let hi := match stop with None => len t | Some s => norm_index (len t) s end in
  let n := Z.to_nat (hi - lo) in
  if bool_decide (length v = n) then
    Ok (take (Z.to_nat lo) t ++ v ++ drop (Z.to_nat lo + n) t)
  else
    match v with
    | [a] => Ok (take (Z.to_nat lo) t ++ replicate n a ++ drop (Z.to_nat lo + n) t)
    | _ => Raise RuntimeError_shape
    end.

(** [l[i]] for a Python list or the first axis of a tensor. *)
Definition index {A} (l : list A) (i : Z) : result A :=
  let j := if i <? 0 then i + len l else i in
  if (0 <=? j) && (j <? len l) then
    match l !! Z.to_nat j with
    | Some a => Ok a
    | None => Raise IndexError
    end
  else Raise IndexError.

(** [list(range(start, stop, step))] for a non-zero step. *)
Definition range3 (start stop step : Z) : list Z :=
  let count :=
    if 0 <? step then (stop - start + step - 1) / step
    else (start - stop - step - 1) / (- step) in
  (fun k => start + step * k) <$> seqZ 0 count.

Definition range2 (start stop : Z) : list Z := range3 start stop 1.
Definition range1 (stop : Z) : list Z := range3 0 stop 1.

(** A [for] loop whose body may raise, threading the loop state. *)
Fixpoint foldM {A B} (f : A -> B -> result A) (a : A) (l : list B) : result A :=
  match l with
  | [] => Ok a
  | b :: l' =>
      match f a b with
      | Ok a' => foldM f a' l'
      | Raise e => Raise e
      end
  end.

(** [max(l)] of a Python list of integers. *)
Definition max_of (l : list Z) : result Z :=
  match l with
  | [] => Raise ValueError_max_empty
  | x :: l' => Ok (fold_left Z.max l' x)
  end.

(** [t.item()]: the tensor must hold exactly one element. *)
Definition item {A} (t : list A) : result A :=
  match t with
  | [a] => Ok a
  | _ => Raise RuntimeError_shape
  end.

End Py.
Import Py.

(** ** Constants of [dataset.py] *)

Module Dataset.
Definition IGNORE_INDEX : Z := -100.
Definition IMAGE_TOKEN_INDEX : Z := -200.
Definition PAD_TOKEN_INDEX : Z := 0.
End Dataset.
Import Dataset.


(** ** float32 arithmetic *)

Module Float32.
Local Open Scope R_scope.

(** A float32: a finite value, an infinity or NaN.  The finite values are
    the reals [m * 2^e] with [|m| < 2^24] and [-149 <= e <= 104]; the sign
    of a zero is not kept. *)
Inductive float32 : Type :=
| Finite (x : R)
| PosInf
| NegInf
| NaN.

(** The largest integer that is not above [x]. *)
Definition floor (x : R) : Z := (up x - 1)%Z.

(** [floor(log2(x))] for a positive [x]. *)
Definition ilog2 (x : R) : Z := floor (ln x / ln 2).

(** The exponent of the unit in the last place of the float32 values
    around [x]: 24 bits of precision, subnormal values below [2^-126]. *)
Definition ulp_exponent (x : R) : Z := Z.max (-149) (ilog2 (Rabs x) - 23).

(** The integer nearest to [x], the even one of two that are as near. *)
Definition nearest_even (x : R) : Z :=
  let f := floor x in
  if Rlt_dec (x - IZR f) (1 / 2) then f
  else if Rlt_dec (1 / 2) (x - IZR f) then (f + 1)%Z
  else if Z.even f then f else (f + 1)%Z.

(** Rounding of a real to float32, to nearest, ties to even; a result of
    magnitude [2^128] or more is an infinity. *)
Definition round (x : R) : float32 :=
  if Req_dec_T x 0 then Finite 0
  else
    let e := ulp_exponent x in
    let y := IZR (nearest_even (x / powerRZ 2 e)) * powerRZ 2 e in
    if Rle_dec (powerRZ 2 128) (Rabs y)
    then (if Rlt_dec x 0 then NegInf else PosInf)
    else Finite y.

(** [torch.exp] on an entry of a float32 tensor, taken as the correctly
    rounded exponential. *)
Definition fexp (x : float32) : float32 :=
  match x with
  | Finite r => round (exp r)
  | PosInf => PosInf
  | NegInf => Finite 0
  | NaN => NaN
  end.

(** Unary minus. *)
Definition fneg (x : float32) : float32 :=
  match x with
  | Finite r => Finite (- r)
  | PosInf => NegInf
  | NegInf => PosInf
  | NaN => NaN
  end.

End Float32.
(** ** [v5.1/src/model.py] *)

Module V51.

(** *** The decay of the WKV kernel *)

(** [WKV_5.forward], lines 62 and 63: [ew = -exp(w.float())] and
    [eew = exp(ew)], elementwise in float32 on the decay parameter of shape
    (heads, head size).  [w] holds the entries of [w.float()]: the
    conversion from bfloat16 is exact. *)
Definition ew (w : list (list Float32.float32)) : list (list Float32.float32) :=
  map (map (fun x => Float32.fneg (Float32.fexp x))) w.

Definition eew (w : list (list Float32.float32)) : list (list Float32.float32) :=
  map (map Float32.fexp) (ew w).

(** *** Truncation *)

Section Truncate.
Context {E : Type}.

(** [VisualRWKV.truncate_input], with [self.args.ctx_len] as an argument. *)
Definition truncate_input (ctx_len : Z)
    (new_input_embeds : list (list E)) (new_labels : list (list Z))
  : list (list E) * list (list Z) :=
  fold_left
    (fun '(truncated_input_embeds, truncated_labels) '(x, y) =>
       let valid_labels :=
         filter (fun i => i ≠ IGNORE_INDEX) (slice y None (Some ctx_len)) in
       if bool_decide (valid_labels ≠ []) then
         (truncated_input_embeds ++ [slice x None (Some ctx_len)],
          truncated_labels ++ [slice y None (Some ctx_len)])
       else
         (truncated_input_embeds ++ [slice x (Some (- ctx_len)) None],
          truncated_labels ++ [slice y (Some (- ctx_len)) None]))
    (zip new_input_embeds new_labels)
    ([], []).
End Truncate.

(** *** The embedding assembler *)

(** [(cur_input_ids == IMAGE_TOKEN_INDEX).sum()] *)
Definition num_images (cur_input_ids : list Z) : Z :=
  len (filter (fun t => t = IMAGE_TOKEN_INDEX) cur_input_ids).

(** [torch.where(cur_input_ids == IMAGE_TOKEN_INDEX)[0][0]] *)
Definition image_token_indice (cur_input_ids : list Z) : result Z :=
  match list_find (fun t => t = IMAGE_TOKEN_INDEX) cur_input_ids with
  | Some (i, _) => Ok (Z.of_nat i)
  | None => Raise IndexError
  end.

(** [VisualRWKV.get_max_image_token_indice] *)
Definition get_max_image_token_indice (input_ids : list (list Z)) : result Z :=
  foldM
    (fun max_image_token_indice cur_input_ids =>
       if num_images cur_input_ids =? 1 then
         i <- image_token_indice cur_input_ids;
         Ok (Z.max max_image_token_indice i)
       else Ok max_image_token_indice)
    0 input_ids.

(** [image_features.shape[1]] of a batch of feature sequences. *)
Definition shape1 {V} (image_features : list (list V)) : Z :=
  match image_features with
  | [] => 0
  | row :: _ => len row
  end.

(** What [preparing_embedding] returns, with the two attributes it sets
    on [self]. *)
Record prepared (V : Type) : Type := Prepared {
  new_input_embeds_padded : list (list V);
  new_labels_padded : list (list Z);
  image_features_out : list (list V);
  img_start : Z;
  img_end : Z
}.
Arguments Prepared {V}.
Arguments new_input_embeds_padded {V}.
Arguments new_labels_padded {V}.
Arguments image_features_out {V}.
Arguments img_start {V}.
Arguments img_end {V}.

Section Assembler.
Context {V : Type}.
(** [self.rwkv.emb] on one token id, and the zero vector of width
    [n_embd].  [samples["images"]] enters through [image_features], the
    result of [encode_images] (the vision tower and the projection). *)
Variable emb : Z -> V.
Variable vzero : V.

(** The body of the loop over [samples["input_ids"]]: the merged
    embeddings and labels of sample [idx], and [image_features] after
    the sample was handled. *)
Definition splice_sample (max_image_token_indice : Z)
    (labels : list (list Z)) (image_features : list (list V))
    (idx : Z) (cur_input_ids : list Z)
  : result (list V * list Z * list (list V)) :=
  cur_labels <- index labels idx;
  let cur_new_input_ids := replicate (Z.to_nat max_image_token_indice) 0 in
  let cur_new_labels := replicate (Z.to_nat max_image_token_indice) IGNORE_INDEX in
  let n := num_images cur_input_ids in
  '(cur_new_input_ids, cur_new_labels, image_features, last_ids, last_labels) <-
    (if n =? 0 then
       row <- index image_features idx;
       Ok (cur_new_input_ids, cur_new_labels,
           <[Z.to_nat idx := replicate (length row) vzero]> image_features,
           cur_input_ids, cur_labels)
     else if n =? 1 then
       i <- image_token_indice cur_input_ids;
       ids' <- slice_assign cur_new_input_ids (Some (- i)) None
                (slice cur_input_ids None (Some i));
       labels' <- slice_assign cur_new_labels (Some (- i)) None
                (slice cur_labels None (Some i));
       Ok (ids', labels', image_features,
           slice cur_input_ids (Some (i + 1)) None,
           slice cur_labels (Some (i + 1)) None)
     else Raise (ValueError_too_many_images n));
  cur_image_features <- index image_features idx;
  Ok ((emb <$> cur_new_input_ids) ++ cur_image_features ++ (emb <$> last_ids),
      cur_new_labels ++ replicate (length cur_image_features) IGNORE_INDEX
        ++ last_labels,
      image_features).

(** The loop itself: [new_input_embeds], [new_labels] and the updated
    [image_features]. *)
Definition splice_samples (max_image_token_indice : Z)
    (input_ids labels : list (list Z)) (image_features : list (list V))
  : result (list (list V) * list (list Z) * list (list V)) :=
  foldM
    (fun '(new_input_embeds, new_labels, image_features) '(idx, cur_input_ids) =>
       '(e, l, image_features) <-
         splice_sample max_image_token_indice labels image_features idx cur_input_ids;
       Ok (new_input_embeds ++ [e], new_labels ++ [l], image_features))
    ([], [], image_features)
    (zip (seqZ 0 (len input_ids)) input_ids).

(** The right-padding at the end of [preparing_embedding]. *)
Definition pad_right (max_len : Z)
    (new_input_embeds : list (list V)) (new_labels : list (list Z))
  : result (list (list V) * list (list Z)) :=
  rows <-
    mapM
      (fun '(cur_new_embed, cur_new_labels) =>
         let cur_len := len cur_new_embed in
         e <- slice_assign (replicate (Z.to_nat max_len) vzero) None (Some cur_len)
                cur_new_embed;
         l <- slice_assign (replicate (Z.to_nat max_len) IGNORE_INDEX) None
                (Some cur_len) cur_new_labels;
         Ok (e, l))
      (zip new_input_embeds new_labels);
  Ok (rows.*1, rows.*2).

(** [VisualRWKV.preparing_embedding] *)
Definition preparing_embedding (ctx_len : Z)
    (input_ids labels : list (list Z)) (image_features : list (list V))
    (truncate : bool) : result (prepared V) :=
  max_image_token_indice <- get_max_image_token_indice input_ids;
  let img_start := max_image_token_indice in
  let img_end := max_image_token_indice + (shape1 image_features - 1) in
  '(new_input_embeds, new_labels, image_features) <-
    splice_samples max_image_token_indice input_ids labels image_features;
  let '(new_input_embeds, new_labels) :=
    if truncate then truncate_input ctx_len new_input_embeds new_labels
    else (new_input_embeds, new_labels) in
  max_len <- max_of (len <$> new_input_embeds);
  '(embeds, labels) <- pad_right max_len new_input_embeds new_labels;
  Ok (Prepared embeds labels image_features img_start img_end).
End Assembler.

(** *** Generation *)

Section Generate.
Context {V S : Type}.
Variable emb : Z -> V.
Variable vzero : V.
(** [torch.argmax] over the vocabulary axis of one row of logits. *)
Variable argmax : list S -> Z.

(** The loop of [generate]: [forward] is the trunk pass of one step,
    from the context [x] (batch, time) to logits (batch, time, vocab). *)
Fixpoint generate_loop (forward : list (list V) -> result (list (list (list S))))
    (ctx_len : Z) (do_sample : bool) (stop_token_idx : Z)
    (steps : nat) (x : list (list V)) (generated : list Z) : result (list Z) :=
  match steps with
  | O => Ok generated
  | Datatypes.S steps' =>
      logits <- forward x;
      next_logit <- mapM (fun row => index row (-1)) logits;
      if do_sample then Raise NotImplementedError
      else
        let next_token := argmax <$> next_logit in
        tok <- item next_token;
        let generated := generated ++ [tok] in
        if tok =? stop_token_idx then Ok generated
        else
          let x := zip_with (fun row t => row ++ [emb t]) x next_token in
          let x := (fun row => slice row (Some (- ctx_len)) None) <$> x in
          generate_loop forward ctx_len do_sample stop_token_idx steps' x generated
  end.

(** The three trunk passes [generate] dispatches on. *)
Variable unidirectional_forward bidirectional_forward multidirectional_forward :
  list (list V) -> list (list V) -> list (list (list S)).

(** The [if self.args.image_scanning == ...] chain of [generate]: in any
    other mode [logits] is never bound. *)
Definition generate_forward (image_scanning : string)
    (image_features x : list (list V)) : result (list (list (list S))) :=
  let logits := None in
  let logits :=
    if String.eqb image_scanning "unidirection"
    then Some (unidirectional_forward x image_features) else logits in
  let logits :=
    if String.eqb image_scanning "bidirection"
    then Some (bidirectional_forward x image_features) else logits in
  let logits :=
    if String.eqb image_scanning "multidirection"
    then Some (multidirectional_forward x image_features) else logits in
  match logits with
  | Some l => Ok l
  | None => Raise UnboundLocalError
  end.

(** [VisualRWKV.generate]; [image_features] is [encode_images(images)]. *)
Definition generate (image_scanning : string) (ctx_len : Z)
    (input_ids : list (list Z)) (image_features : list (list V))
    (do_sample : bool) (max_new_tokens stop_token_idx : Z) : result (list Z) :=
  let labels := (fun row => replicate (length row) IGNORE_INDEX) <$> input_ids in
  p <- preparing_embedding emb vzero ctx_len input_ids labels image_features false;
  generate_loop (generate_forward image_scanning (image_features_out p))
    ctx_len do_sample stop_token_idx
    (length (range1 max_new_tokens)) (new_input_embeds_padded p) [].
End Generate.

(** *** Rotational scanning *)

(** [rotate_tensor]: the rotation runs along the first axis of [tensor]. *)
Definition rotate_tensor {X} (tensor : list X) (distance : Z) : result (list X) :=
  if distance =? 0 then Ok tensor
  else
    let length := len tensor in
    if length =? 0 then Raise ZeroDivisionError
    else
      let distance := distance `mod` length in
      let distance := if distance <? 0 then length + distance else distance in
      Ok (slice tensor (Some (- distance)) None ++ slice tensor None (Some (- distance))).

Section Rotational.
Context {V : Type}.

(** [x[:, start:stop, :]] of a (batch, time, channel) tensor. *)
Definition time_slice (x : list (list V)) (start stop : Z) : list (list V) :=
  (fun row => slice row (Some start) (Some stop)) <$> x.

(** [x[:, start:stop, :] = v] *)
Definition time_slice_assign (x : list (list V)) (start stop : Z)
    (v : list (list V)) : result (list (list V)) :=
  if bool_decide (length v = length x) then
    mapM (fun '(row, vrow) => slice_assign row (Some start) (Some stop) vrow) (zip x v)
  else
    match v with
    | [vrow] => mapM (fun row => slice_assign row (Some start) (Some stop) vrow) x
    | _ => Raise RuntimeError_shape
    end.

(** The statement under [# rotate] in [rotational_forward]. *)
Definition rotate_span (img_start img_end rotate_distance : Z)
    (x : list (list V)) : result (list (list V)) :=
  v <- rotate_tensor (time_slice x img_start img_end) rotate_distance;
  time_slice_assign x img_start img_end v.

(** [VisualRWKV.rotational_forward]: [blocks], [drop0], [ln_out] and
    [head] are the layers of the trunk; [dropout] tells whether
    [args.dropout > 0]. *)
Definition rotational_forward {L : Type}
    (blocks : list (list (list V) -> list (list V)))
    (drop0 : list (list V) -> list (list V))
    (ln_out : list (list V) -> list (list V))
    (head : list (list V) -> L)
    (dropout : bool) (img_start img_end : Z) (x : list (list V)) : result L :=
  let rotate_distance := (img_end - img_start) `div` 3 in
  let x := if dropout then drop0 x else x in
  x <- foldM (fun x block => rotate_span img_start img_end rotate_distance (block x))
         x blocks;
  Ok (head (ln_out x)).
End Rotational.

(** *** Static scan orders *)

(** [torch.arange(rows * cols).reshape(rows, cols).tolist()] *)
Definition reshape (l : list Z) (rows cols : Z) : list (list Z) :=
  (fun r => take (Z.to_nat cols) (drop (Z.to_nat (r * cols)) l)) <$> seqZ 0 rows.

Definition arange_matrix (rows cols : Z) : result (list (list Z)) :=
  if (rows <? 0) || (cols <? 0) then Raise RuntimeError_shape
  else Ok (reshape (seqZ 0 (rows * cols)) rows cols).

(** [matrix[row][col]] *)
Definition cell (matrix : list (list Z)) (row col : Z) : result Z :=
  r <- index matrix row; index r col.

(** A [for] loop that appends [matrix[row][col]] for each [(row, col)]. *)
Definition append_cells (matrix : list (list Z)) (cells : list (Z * Z))
    (order : list Z) : result (list Z) :=
  foldM (fun order '(row, col) => v <- cell matrix row col; Ok (order ++ [v]))
    order cells.

(** One pass of the [while] loop of [get_spiral_scan_order], without the
    final update of the four bounds. *)
Definition spiral_ring (matrix : list (list Z)) (left right top bottom : Z)
    (order : list Z) : result (list Z) :=
  order <- append_cells matrix ((fun column => (top, column)) <$> range2 left (right + 1)) order;
  order <- append_cells matrix ((fun row => (row, right)) <$> range2 (top + 1) (bottom + 1)) order;
  if bool_decide (left < right ∧ top < bottom) then
    order <- append_cells matrix
              ((fun column => (bottom, column)) <$> range3 (right - 1) left (-1)) order;
    append_cells matrix ((fun row => (row, left)) <$> range3 bottom top (-1)) order
  else Ok order.

Equations? spiral_loop (matrix : list (list Z)) (left_ right_ top bottom : Z)
    (order : list Z) : result (list Z) by wf (Z.to_nat (right_ - left_ + 1)) lt :=
  spiral_loop matrix left_ right_ top bottom order
    with decide (left_ ≤ right_ ∧ top ≤ bottom) => {
    | right _ := Ok order
    | left _ with spiral_ring matrix left_ right_ top bottom order => {
      | Raise e := Raise e
      | Ok order' :=
          spiral_loop matrix (left_ + 1) (right_ - 1) (top + 1) (bottom - 1) order' } }.
Proof. lia. Qed.

(** [get_spiral_scan_order] *)
Definition get_spiral_scan_order (n : Z) : result (list Z) :=
  let rows := n in
  let cols := n in
  matrix <- arange_matrix rows cols;
  spiral_loop matrix 0 (cols - 1) 0 (rows - 1) [].

(** [get_snake_scan_order] *)
Definition get_snake_scan_order (n : Z) : result (list Z) :=
  let rows := n in
  let cols := n in
  matrix <- arange_matrix rows cols;
  foldM
    (fun order i =>
       if i `mod` 2 =? 0 then
         append_cells matrix ((fun j => (i, j)) <$> range1 cols) order
       else
         append_cells matrix ((fun j => (i, j)) <$> range3 (cols - 1) (-1) (-1)) order)
    [] (range1 rows).

(** The two inner [while] loops of [get_zigzag_scan_order]. *)
Equations? zigzag_up (matrix : list (list Z)) (cols row col : Z) (order : list Z)
    : result (list Z) by wf (Z.to_nat (row + 1)) lt :=
  zigzag_up matrix cols row col order with decide (row >= 0 ∧ col < cols) => {
    | right _ := Ok order
    | left _ with cell matrix row col => {
      | Raise e := Raise e
      | Ok v := zigzag_up matrix cols (row - 1) (col + 1) (order ++ [v]) } }.
Proof. lia. Qed.

Equations? zigzag_down (matrix : list (list Z)) (rows row col : Z) (order : list Z)
    : result (list Z) by wf (Z.to_nat (rows - row)) lt :=
  zigzag_down matrix rows row col order with decide (row < rows ∧ col >= 0) => {
    | right _ := Ok order
    | left _ with cell matrix row col => {
      | Raise e := Raise e
      | Ok v := zigzag_down matrix rows (row + 1) (col - 1) (order ++ [v]) } }.
Proof. lia. Qed.

(** [get_zigzag_scan_order] *)
Definition get_zigzag_scan_order (n : Z) : result (list Z) :=
  matrix <- arange_matrix n n;
  let rows := len matrix in
  row0 <- index matrix 0;
  let cols := len row0 in
  '(order, _) <-
    foldM
      (fun '(order, going_up) i =>
         order <-
           (if going_up : bool then
              let '(row, col) := if i <? rows then (i, 0) else (rows - 1, i - (rows - 1)) in
              zigzag_up matrix cols row col order
            else
              let '(row, col) := if i <? cols then (0, i) else (i - (cols - 1), cols - 1) in
              zigzag_down matrix rows row col order);
         Ok (order, negb going_up))
      ([], true) (range1 (rows + cols - 1));
  Ok order.

(** [t[:, order]] on one sample, the indexing of [spiral_forward],
    [snake_forward] and [zigzag_forward]: position [i] of the result
    holds [t[order[i]]]. *)
Definition gather {A} (t : list A) (order : list Z) : result (list A) :=
  mapM (index t) order.

(** *** The other trunk passes *)

(** [x.view(H, W, C).transpose(0, 1).contiguous().view(H * W, C)] on the
    span of one sample: the span is read as [H] rows of [W] positions and
    written back column by column.  [view] asks for [H * W] positions. *)
Definition transpose_grid {V} (H W : Z) (span : list V) : result (list V) :=
  if bool_decide (len span = H * W) then
    Ok (mjoin ((fun c => omap (fun r => span !! Z.to_nat (r * W + c)) (seqZ 0 H))
                 <$> seqZ 0 W))
  else Raise RuntimeError_shape.

Section Scanning.
Context {V L : Type}.
(** The layers of the trunk, [self.rwkv.blocks], [drop0], [ln_out] and
    [head], and whether [args.dropout > 0].  With [args.grad_cp == 1] a
    block runs under checkpointing, which returns what the block returns. *)
Variable blocks : list (list (list V) -> list (list V)).
Variable drop0 ln_out : list (list V) -> list (list V).
Variable head : list (list V) -> L.
Variable dropout : bool.

(** [VisualRWKV.unidirectional_forward] *)
Definition unidirectional_forward (x : list (list V)) : L :=
  let x := if dropout then drop0 x else x in
  let x := fold_left (fun x block => block x) blocks x in
  head (ln_out x).

(** [x[:, img_start:img_end, :] = x[:, img_start:img_end, :].flip(1)] *)
Definition flip_span (img_start img_end : Z) (x : list (list V))
  : result (list (list V)) :=
  time_slice_assign x img_start img_end (reverse <$> time_slice x img_start img_end).

(** [VisualRWKV.bidirectional_forward] *)
Definition bidirectional_forward (img_start img_end : Z) (x : list (list V))
  : result L :=
  let x := if dropout then drop0 x else x in
  x <- foldM
         (fun x '(i, block) =>
            let do_reverse := i `mod` 2 =? 1 in
            x <- (if do_reverse then flip_span img_start img_end x else Ok x);
            let x := block x in
            if do_reverse then flip_span img_start img_end x else Ok x)
         x (zip (seqZ 0 (len blocks)) blocks);
  Ok (head (ln_out x)).

(** [x[:, img_start:img_end, :] = x[:, img_start:img_end, :]
      .view(B, H, W, C).transpose(1, 2).contiguous().view(B, H*W, C)] *)
Definition transpose_span (H W img_start img_end : Z) (x : list (list V))
  : result (list (list V)) :=
  v <- mapM (transpose_grid H W) (time_slice x img_start img_end);
  time_slice_assign x img_start img_end v.

(** [VisualRWKV.multidirectional_forward].  [H = W = int(span ** 0.5)] is
    the integer square root, for a span that is not negative. *)
Definition multidirectional_forward (img_start img_end : Z) (x : list (list V))
  : result L :=
  let H := Z.sqrt (img_end - img_start) in
  let W := H in
  let x := if dropout then drop0 x else x in
  x <- foldM
         (fun x '(i, block) =>
            let do_transpose := 2 <=? i `mod` 4 in
            x <- (if do_transpose then transpose_span H W img_start img_end x else Ok x);
            let do_reverse := i `mod` 2 =? 1 in
            x <- (if do_reverse then flip_span img_start img_end x else Ok x);
            let x := block x in
            x <- (if do_reverse then flip_span img_start img_end x else Ok x);
            if do_transpose then transpose_span H W img_start img_end x else Ok x)
         x (zip (seqZ 0 (len blocks)) blocks);
  Ok (head (ln_out x)).

(** [VisualRWKV.spiral_forward], with the buffer [self.spiral_order];
    [snake_forward] and [zigzag_forward] have the same body on their own
    buffers. *)
Definition spiral_forward (spiral_order : list Z) (img_start img_end : Z)
    (x x_emb : list (list V)) : result L :=
  spiral_image_features <-
    mapM (fun row => gather (slice row None (Some (-1))) spiral_order) x_emb;
  x <- time_slice_assign x img_start img_end spiral_image_features;
  let x := if dropout then drop0 x else x in
  let x := fold_left (fun x block => block x) blocks x in
  Ok (head (ln_out x)).

Definition snake_forward (snake_order : list Z) (img_start img_end : Z)
    (x x_emb : list (list V)) : result L :=
  snake_image_features <-
    mapM (fun row => gather (slice row None (Some (-1))) snake_order) x_emb;
  x <- time_slice_assign x img_start img_end snake_image_features;
  let x := if dropout then drop0 x else x in
  let x := fold_left (fun x block => block x) blocks x in
  Ok (head (ln_out x)).

Definition zigzag_forward (zigzag_order : list Z) (img_start img_end : Z)
    (x x_emb : list (list V)) : result L :=
  zigzag_image_features <-
    mapM (fun row => gather (slice row None (Some (-1))) zigzag_order) x_emb;
  x <- time_slice_assign x img_start img_end zigzag_image_features;
  let x := if dropout then drop0 x else x in
  let x := fold_left (fun x block => block x) blocks x in
  Ok (head (ln_out x)).
End Scanning.

(** *** The initial parameters of the time mix *)

(** The errors of [RWKV_TimeMix_RWKV5.__init__]. *)
Inductive init_error : Type :=
| Init_AssertionError
| Init_ZeroDivisionError
| Init_RuntimeError_size
| Init_RuntimeError_reshape.

Inductive init_result (A : Type) : Type :=
| Init_ok (a : A)
| Init_raise (e : init_error).
Arguments Init_ok {A} a.
Arguments Init_raise {A} e.

(** [x ** y] and [torch.pow] on floats, for a base that is not negative
    and, when the base is 0, an exponent that is not negative; the real
    power stands for the float one. *)
Definition float_pow (x y : R) : R :=
  if Req_dec_T x 0 then (if Req_dec_T y 0 then 1%R else 0%R) else Rpower x y.

(** [t.reshape(rows, cols)] of a vector. *)
Definition reshape_vector (l : list R) (rows cols : Z) : init_result (list (list R)) :=
  if (0 <=? rows) && (0 <=? cols) && (rows * cols =? len l)
  then Init_ok ((fun r => take (Z.to_nat cols) (drop (Z.to_nat (r * cols)) l))
                  <$> seqZ 0 rows)
  else Init_raise Init_RuntimeError_reshape.

(** The parameters that [__init__] sets under [torch.no_grad()]. *)
Record time_mix_parameters : Type := Time_mix_parameters {
  time_mix_k : list R;
  time_mix_v : list R;
  time_mix_r : list R;
  time_mix_g : list R;
  time_decay : list (list R);
  time_faaaa : list (list R)
}.

(** [RWKV_TimeMix_RWKV5.__init__] up to [time_faaaa]: [HEAD_SIZE] is the
    constant of the module, the other arguments are the fields of [args]
    and [layer_id], with [0 <= layer_id <= n_layer] as for the layers that
    [RWKV] builds. *)
Definition RWKV_TimeMix_RWKV5_init (HEAD_SIZE head_size_a n_layer n_embd dim_att
    layer_id : Z) : init_result time_mix_parameters :=
  let head_size := head_size_a in
  if negb (HEAD_SIZE =? head_size) then Init_raise Init_AssertionError
  else if head_size =? 0 then Init_raise Init_ZeroDivisionError
  else
    let n_head := dim_att `div` head_size in
    if n_head =? 0 then Init_raise Init_ZeroDivisionError
    else if negb (dim_att `mod` n_head =? 0) then Init_raise Init_AssertionError
    else if n_layer - 1 =? 0 then Init_raise Init_ZeroDivisionError
    else
      let ratio_0_to_1 := (IZR layer_id / IZR (n_layer - 1))%R in
      if n_layer =? 0 then Init_raise Init_ZeroDivisionError
      else
        let ratio_1_to_almost0 := (1 - IZR layer_id / IZR n_layer)%R in
        if n_embd <? 0 then Init_raise Init_RuntimeError_size
        else
          let ddd := (fun i => (IZR i / IZR n_embd)%R) <$> range1 n_embd in
          let time_mix_k := (fun d => float_pow d ratio_1_to_almost0) <$> ddd in
          let time_mix_v :=
            (fun d => (float_pow d ratio_1_to_almost0 + 3 / 10 * ratio_0_to_1)%R)
              <$> ddd in
          let time_mix_r :=
            (fun d => float_pow d (1 / 2 * ratio_1_to_almost0)%R) <$> ddd in
          let time_mix_g :=
            (fun d => float_pow d (1 / 2 * ratio_1_to_almost0)%R) <$> ddd in
          if dim_att <? 0 then Init_raise Init_RuntimeError_size
          else if (0 <? dim_att) && (dim_att - 1 =? 0)
          then Init_raise Init_ZeroDivisionError
          else if (0 <? dim_att)
                  && (if Rlt_dec (7 / 10 + 13 / 10 * ratio_0_to_1) 0 then true else false)
          then Init_raise Init_ZeroDivisionError
          else
            let decay_speed :=
              (fun n =>
                 (-6 + 5 * float_pow (IZR n / IZR (dim_att - 1))
                             (7 / 10 + 13 / 10 * ratio_0_to_1))%R)
                <$> range1 dim_att in
            match reshape_vector decay_speed n_head head_size with
            | Init_raise e => Init_raise e
            | Init_ok time_decay =>
                let tmp :=
                  (fun n =>
                     let zigzag := (IZR ((n + 1) `mod` 3 - 1) * (1 / 10))%R in
                     (ratio_0_to_1 * (1 - IZR n / IZR (dim_att - 1)) + zigzag)%R)
                    <$> range1 dim_att in
                match reshape_vector tmp n_head head_size with
                | Init_raise e => Init_raise e
                | Init_ok time_faaaa =>
                    Init_ok (Time_mix_parameters time_mix_k time_mix_v time_mix_r
                               time_mix_g time_decay time_faaaa)
                end
            end.

End V51.


(** ** [v5.1_old/src/model.py] *)

Module V51_old.

(** *** The embedding assembler and generation *)

Section Assembler.
Context {V : Type}.
Variable emb : Z -> V.
Variable vzero : V.

(** The body of the loop of [preparing_embedding]. *)
Definition splice_sample (labels : list (list Z)) (image_features : list (list V))
    (idx : Z) (cur_input_ids : list Z) : result (list V * list Z) :=
  let n := V51.num_images cur_input_ids in
  if n =? 0 then
    cur_labels <- index labels idx;
    Ok (emb <$> cur_input_ids, cur_labels)
  else if n =? 1 then
    i <- V51.image_token_indice cur_input_ids;
    cur_labels <- index labels idx;
    cur_image_features <- index image_features idx;
    Ok ((emb <$> slice cur_input_ids None (Some i)) ++ cur_image_features
          ++ (emb <$> slice cur_input_ids (Some (i + 1)) None),
        slice cur_labels None (Some i)
          ++ replicate (length cur_image_features) IGNORE_INDEX
          ++ slice cur_labels (Some (i + 1)) None)
  else Raise (ValueError_too_many_images n).

Definition splice_samples (input_ids labels : list (list Z))
    (image_features : list (list V)) : result (list (list V) * list (list Z)) :=
  foldM
    (fun '(new_input_embeds, new_labels) '(idx, cur_input_ids) =>
       '(e, l) <- splice_sample labels image_features idx cur_input_ids;
       Ok (new_input_embeds ++ [e], new_labels ++ [l]))
    ([], [])
    (zip (seqZ 0 (len input_ids)) input_ids).

(** [VisualRWKV.preparing_embedding] *)
Definition preparing_embedding (ctx_len : Z)
    (input_ids labels : list (list Z)) (image_features : list (list V))
    (truncate : bool) : result (list (list V) * list (list Z)) :=
  '(new_input_embeds, new_labels) <- splice_samples input_ids labels image_features;
  let new_input_embeds :=
    if truncate then (fun x => slice x None (Some ctx_len)) <$> new_input_embeds
    else new_input_embeds in
  let new_labels :=
    if truncate then (fun x => slice x None (Some ctx_len)) <$> new_labels
    else new_labels in
  max_len <- max_of (len <$> new_input_embeds);
  V51.pad_right vzero max_len new_input_embeds new_labels.

Context {S : Type}.
Variable argmax : list S -> Z.
(** [self.rwkv], the trunk. *)
Variable rwkv : list (list V) -> list (list (list S)).

(** [VisualRWKV.generate]; [image_features] is
    [encode_images(images, do_proj=True)]. *)
Definition generate (ctx_len : Z)
    (input_ids : list (list Z)) (image_features : list (list V))
    (do_sample : bool) (max_new_tokens stop_token_idx : Z) : result (list Z) :=
  let labels := (fun row => replicate (length row) IGNORE_INDEX) <$> input_ids in
  '(x, _) <- preparing_embedding ctx_len input_ids labels image_features false;
  V51.generate_loop emb argmax (fun x => Ok (rwkv x))
    ctx_len do_sample stop_token_idx
    (length (range1 max_new_tokens)) x [].
End Assembler.

(** *** The contrastive alignment module

    Tensor entries are real numbers; a value that is [None] stands for a
    tensor with an entry that is not finite (a division by zero).  A tensor
    is a nested list, all rows of an axis being of one length.  In
    [forward] the shape checks of torch are written out: the width that
    [self.proj] asks for, the broadcasting of [text_masks] against
    [text_embeds], and the broadcasting of the right-hand sides to the
    slices of the queues; so is the check where [text_masks] is used in the
    weighted pooling.  Inside the pooling and the losses the operands of a
    contraction are paired up. *)

Section Tensors.
Local Open Scope R_scope.

Definition rsum (l : list R) : R := foldr Rplus 0 l.
Definition dot (a b : list R) : R := rsum (zip_with Rmult a b).
Definition vadd (a b : list R) : list R := zip_with Rplus a b.
Definition vscale (c : R) (a : list R) : list R := (fun x => x * c) <$> a.
(** [t.sum(dim)] of a sequence of vectors of width [d]. *)
Definition vsum (d : nat) (vs : list (list R)) : list R :=
  foldr vadd (replicate d 0) vs.
(** [t.mean(dim)] along an axis of scalars. *)
Definition mean (l : list R) : option R :=
  match l with
  | [] => None
  | _ => Some (rsum l / INR (length l))
  end.
(** [t.mean(dim)] of a sequence of vectors of width [d]. *)
Definition vmean (d : nat) (vs : list (list R)) : option (list R) :=
  match vs with
  | [] => None
  | _ => Some ((fun s => s / INR (length vs)) <$> vsum d vs)
  end.
Definition softmax (l : list R) : list R :=
  let z := rsum (exp <$> l) in (fun x => exp x / z) <$> l.
Definition log_softmax (l : list R) : list R :=
  let lse := ln (rsum (exp <$> l)) in (fun x => x - lse) <$> l.
(** The columns of a matrix with [n] columns. *)
Definition columns (n : nat) (m : list (list R)) : list (list R) :=
  (fun j => (fun row => nth j row 0) <$> m) <$> seq 0 n.
(** [nn.Linear(..., bias=False)] on the last axis. *)
Definition linear (weight : list (list R)) (x : list R) : list R :=
  (fun w => dot x w) <$> weight.

(** The entries of a tensor, when all of them are finite. *)
Definition finite {A} (t : list (option A)) : option (list A) :=
  mapM (M := option) (fun o => o) t.

(** A binary operation on two scalars that may not be finite. *)
Definition lift2 (f : R -> R -> R) (a b : option R) : option R :=
  match a, b with
  | Some x, Some y => Some (f x y)
  | _, _ => None
  end.

(** Torch broadcasting of a binary operation along one axis. *)
Definition broadcast2 {A B C} (f : A -> B -> result C) (a : list A) (b : list B)
  : result (list C) :=
  if bool_decide (length a = length b) then mapM (fun '(x, y) => f x y) (zip a b)
  else
    match a, b with
    | [x], _ => mapM (f x) b
    | _, [y] => mapM (fun x => f x y) a
    | _, _ => Raise RuntimeError_shape
    end.

(** [value.expand(n, ...)] along one axis: a value of [n] rows is taken
    as it is, a value of one row is repeated, any other raises. *)
Definition expand {A} (n : nat) (value : list A) : result (list A) :=
  if bool_decide (length value = n) then Ok value
  else
    match value with
    | [x] => Ok (replicate n x)
    | _ => Raise RuntimeError_shape
    end.

(** The right-hand side of [target[...] = value] for tensors of three
    axes: [value] broadcast to the shape of [target]. *)
Definition expand_as {A} (target value : list (list (list A)))
  : result (list (list (list A))) :=
  rows <- expand (length target) value;
  mapM (fun tv : list (list A) * list (list A) =>
          row <- expand (length tv.1) tv.2;
          mapM (fun tv' : list A * list A => expand (length tv'.1) tv'.2)
            (zip tv.1 row))
    (zip target rows).

(** The loss of one sample with [label_smoothing=0.1]. *)
Definition smoothed_nll (x : list R) (y : Z) : result R :=
  let lp := log_softmax x in
  lpy <- index lp y;
  Ok ((1 - 1 / 10) * (- lpy) + (1 / 10) * (rsum (Ropp <$> lp) / INR (length x))).

(** [F.cross_entropy(logits, labels, label_smoothing=0.1)] *)
Definition cross_entropy (logits : list (list R)) (labels : list Z)
  : result (option R) :=
  losses <- mapM (fun xy : list R * Z => smoothed_nll xy.1 xy.2) (zip logits labels);
  Ok (mean losses).
End Tensors.

Record config : Type := Config {
  proj_weight : list (list R);
  queue_size : Z;
  text_max_len : nat;
  vision_max_len : nat;
  text_embed_dim : nat;
  vision_embed_dim : nat;
  reduction : string
}.

(** The registered buffers. *)
Record buffers : Type := Buffers {
  text_queue : list (list (list R));
  vision_queue : list (list (list R));
  queue_ptr : Z
}.

(** [ContrastiveAlignment.__init__] *)
Definition init (cfg : config) : buffers :=
  {| text_queue :=
       replicate (Z.to_nat (queue_size cfg))
         (replicate (text_max_len cfg) (replicate (text_embed_dim cfg) 0%R));
     vision_queue :=
       replicate (Z.to_nat (queue_size cfg))
         (replicate (vision_max_len cfg) (replicate (vision_embed_dim cfg) 0%R));
     queue_ptr := 0 |}.

Section Align.
Variable cfg : config.
Local Open Scope R_scope.

(** [self.proj] on a (batch, length, width) tensor, an [nn.Linear]
    without bias whose weight is [proj_weight]: it raises when the last
    axis of its input has not the width of the rows of the weight. *)
Definition proj (t : list (list (list R))) : result (list (list (list R))) :=
  mapM (fun sample : list (list R) =>
          mapM (fun x : list R =>
                  if forallb (fun w : list R => (length w =? length x)%nat)
                       (proj_weight cfg)
                  then Ok (linear (proj_weight cfg) x)
                  else Raise RuntimeError_shape)
            sample)
    t.

(** [text_embeds * text_masks.unsqueeze(-1)]: the mask is broadcast along
    the last axis, and the batch and the length axes of the two tensors
    must agree or be of size 1. *)
Definition mask_text (text_embeds : list (list (list R)))
    (text_masks : list (list bool)) : result (list (list (list R))) :=
  broadcast2
    (broadcast2 (fun (t : list R) (m : bool) =>
                   Ok ((fun x => x * (if m then 1 else 0)) <$> t)))
    text_embeds text_masks.

(** [torch.einsum('ntd,nvd->ntv', text_embeds, vision_features)] *)
Definition text2vision (text_embeds vision_features : list (list (list R)))
  : list (list (list R)) :=
  zip_with (fun te vf : list (list R) => (fun t => (fun v => dot t v) <$> vf) <$> te)
    text_embeds vision_features.

(** [torch.einsum('ntd,nt->nd', embeds, weights)] *)
Definition weighted_sum (embeds : list (list (list R))) (weights : list (list R))
  : list (list R) :=
  zip_with (fun (e : list (list R)) (w : list R) =>
              vsum (text_embed_dim cfg) (zip_with (fun x c => vscale c x) e w))
    embeds weights.

(** [text_embeds.sum(dim=1) / text_masks.sum(dim=-1, keepdim=True)] on one
    sample. *)
Definition masked_mean (s : list R) (m : list bool) : option (list R) :=
  let count := length (filter (fun b : bool => b = true) m) in
  match count with
  | O => None
  | _ => Some ((fun x => x / INR count) <$> s)
  end.

(** [w + (~m) * (-1e9)] on one entry. *)
Definition mask_out (w : option R) (m : bool) : result (option R) :=
  Ok ((fun x => x + (if negb m then 1 else 0) * (-1000000000)) <$> w).

(** [ContrastiveAlignment.pool_features] *)
Definition pool_features (text_embeds vision_features : list (list (list R)))
    (text_masks : option (list (list bool)))
  : result (option (list (list R) * list (list R))) :=
  let text_masks : list (list bool) :=
    match text_masks with
    | None =>
        (fun sample : list (list R) => (fun _ : list R => true) <$> sample)
          <$> text_embeds
    | Some m => m
    end in
  if String.eqb (reduction cfg) "mean" then
    let vision_pooled_features : option (list (list R)) :=
      mapM (vmean (text_embed_dim cfg)) vision_features in
    let text_pooled_embeds : option (list (list R)) :=
      mapM (fun sm : list R * list bool => masked_mean sm.1 sm.2)
        (zip (vsum (text_embed_dim cfg) <$> text_embeds) text_masks) in
    Ok (t ← text_pooled_embeds; v ← vision_pooled_features; Some (t, v))
  else if String.eqb (reduction cfg) "weighted" then
    let text2vision_similarities := text2vision text_embeds vision_features in
    let mean_v : list (list (option R)) :=
      (fun sample : list (list R) => mean <$> sample) <$> text2vision_similarities in
    (* mask out padding tokens *)
    text_embeds_weights <- broadcast2 (broadcast2 mask_out) mean_v text_masks;
    let text_embeds_weights : list (option (list R)) :=
      (fun ws : list (option R) => softmax <$> finite ws) <$> mean_v in
    let mean_t : list (list (option R)) :=
      zip_with (fun (sims vf : list (list R)) => mean <$> columns (length vf) sims)
        text2vision_similarities vision_features in
    let vision_features_weights : list (option (list R)) :=
      (fun ws : list (option R) => softmax <$> finite ws) <$> mean_t in
    Ok (tw ← finite text_embeds_weights;
        vw ← finite vision_features_weights;
        Some (weighted_sum text_embeds tw, weighted_sum vision_features vw))
  else Raise (ValueError_unknown_reduction (reduction cfg)).

(** [ContrastiveAlignment.compute_in_batch_constraive_loss] *)
Definition compute_in_batch_constraive_loss
    (text_embeds vision_features : list (list (list R)))
    (text_masks : option (list (list bool))) : result (option R) :=
  pooled <- pool_features text_embeds vision_features text_masks;
  match pooled return result (option R) with
  | None => Ok None
  | Some (text_pooled_embeds, vision_pooled_features) =>
      let t2v_matrix :=
        (fun t : list R => (fun v => dot t v) <$> vision_pooled_features)
          <$> text_pooled_embeds in
      let v2t_matrix :=
        (fun v : list R => (fun t => dot v t) <$> text_pooled_embeds)
          <$> vision_pooled_features in
      let labels := range1 (len text_embeds) in
      t2v_loss <- cross_entropy t2v_matrix labels;
      v2t_loss <- cross_entropy v2t_matrix labels;
      Ok (lift2 (fun a b => (a + b) / 2) t2v_loss v2t_loss)
  end.

(** [ContrastiveAlignment.compute_in_queue_constraive_loss] *)
Definition compute_in_queue_constraive_loss
    (text_embeds vision_features : list (list (list R)))
    (text_masks : option (list (list bool)))
    (text_neg_embeds vision_neg_features : list (list (list R)))
  : result (option R) :=
  pooled <- pool_features text_embeds vision_features text_masks;
  neg_pooled <- pool_features text_neg_embeds vision_neg_features None;
  match pooled, neg_pooled return result (option R) with
  | Some (text_pooled_embeds, vision_pooled_features),
    Some (text_neg_pooled_embeds, vision_neg_pooled_features) =>
      let pos_logits := zip_with dot text_pooled_embeds vision_pooled_features in
      let neg_text_logits :=
        (fun t : list R => (fun k => dot t k) <$> vision_neg_pooled_features)
          <$> text_pooled_embeds in
      let neg_vision_logits :=
        (fun v : list R => (fun k => dot v k) <$> text_neg_pooled_embeds)
          <$> vision_pooled_features in
      let logits :=
        zip_with (fun p nn => p :: nn) pos_logits
          (zip_with app neg_text_logits neg_vision_logits) in
      let labels := replicate (length text_embeds) 0%Z in
      cross_entropy logits labels
  | _, _ => Ok None
  end.

(** [ContrastiveAlignment.forward]: the loss and the buffers after the
    call. *)
Definition forward (st : buffers)
    (text_embeds vision_embeds : list (list (list R)))
    (text_masks : list (list bool)) : result (option R * buffers) :=
  let batch_size := len text_embeds in
  vision_features <- proj vision_embeds;
  let vision_neg_embeds := vision_queue st in
  vision_neg_features <- proj vision_neg_embeds;
  text_embeds <- mask_text text_embeds text_masks;
  let text_neg_embeds := text_queue st in
  loss <-
    (if negb (batch_size =? 1)%Z then
       in_batch_loss <-
         compute_in_batch_constraive_loss text_embeds vision_features (Some text_masks);
       in_queue_loss <-
         compute_in_queue_constraive_loss text_embeds vision_features (Some text_masks)
           text_neg_embeds vision_neg_features;
       Ok (lift2 Rplus in_batch_loss in_queue_loss)
     else
       compute_in_queue_constraive_loss text_embeds vision_features (Some text_masks)
         text_neg_embeds vision_neg_features);
  text_value <-
    expand_as
      (slice (text_queue st) (Some (queue_ptr st)) (Some (queue_ptr st + batch_size)%Z))
      text_embeds;
  text_queue' <-
    slice_assign (text_queue st) (Some (queue_ptr st))
      (Some (queue_ptr st + batch_size)%Z) text_value;
  vision_value <-
    expand_as
      (slice (vision_queue st) (Some (queue_ptr st))
         (Some (queue_ptr st + batch_size)%Z))
      vision_embeds;
  vision_queue' <-
    slice_assign (vision_queue st) (Some (queue_ptr st))
      (Some (queue_ptr st + batch_size)%Z) vision_value;
  queue_ptr' <-
    (if (queue_size cfg =? 0)%Z then Raise ZeroDivisionError
     else Ok ((queue_ptr st + batch_size) `mod` queue_size cfg)%Z);
  Ok (loss, Buffers text_queue' vision_queue' queue_ptr').
End Align.

End V51_old.
(** ** [v5.1_old/src/dataset.py], the functions *)

Module Preprocess.

Definition DEFAULT_IMAGE_TOKEN : string := "<image>".
(** Two line feeds. *)
Definition DEFAULT_STOP_TOKEN : string :=
  String (Ascii.ascii_of_nat 10) (String (Ascii.ascii_of_nat 10) EmptyString).

(** [s.split(sep)] for a separator that is not empty: the chunks between
    the occurrences of [sep], found from left to right.  [skip] counts the
    characters of an occurrence that are still to be passed over. *)
Fixpoint split_from (sep : string) (skip : nat) (chunk s : string) : list string :=
  match s with
  | EmptyString => [chunk]
  | String c s' =>
      match skip with
      | Datatypes.S k => split_from sep k chunk s'
      | O =>
          if String.prefix sep s
          then chunk :: split_from sep (String.length sep - 1) EmptyString s'
          else split_from sep 0 (chunk ++ String c EmptyString)%string s'
      end
  end.

Definition split (s sep : string) : list string := split_from sep 0 EmptyString s.

Section Tokenizer.
(** [tokenizer.encode] *)
Variable encode : string -> list Z.

(** [tokenize_with_image_token] *)
Definition tokenize_with_image_token (prompt : string) (image_token_index : Z)
  : list Z :=
  let prompt_chunks := encode <$> split prompt DEFAULT_IMAGE_TOKEN in
  let input_ids :=
    fold_left (fun input_ids chunk => (input_ids ++ chunk) ++ [image_token_index])
      prompt_chunks [] in
  slice input_ids None (Some (-1)).
End Tokenizer.

(** [targets[start:stop] = value] for a scalar [value]: it never raises. *)
Definition slice_fill {A} (t : list A) (start stop : Z) (value : A) : list A :=
  let lo := norm_index (len t) start in
  let hi := norm_index (len t) stop in
  let n := Z.to_nat (hi - lo) in
  take (Z.to_nat lo) t ++ replicate n value ++ drop (Z.to_nat lo + n) t.

(** [mask_targets_from_human]: the targets after the call. *)
Definition mask_targets_from_human (targets : list Z) (tokenized_lens : list Z)
    (speakers : list string) : list Z :=
  (fold_left
     (fun '(targets, cur_idx) '(tokenized_len, speaker) =>
        let targets :=
          if String.eqb speaker "human"
          then slice_fill targets cur_idx (cur_idx + tokenized_len) IGNORE_INDEX
          else targets in
        (targets, cur_idx + tokenized_len))
     (zip tokenized_lens speakers) (targets, 0)).1.

(** [pad_to_max_len] *)
Definition pad_to_max_len (input_ids targets : list Z) (max_len pad_token_id : Z)
  : list Z * list Z :=
  let input_ids := slice input_ids (Some (- max_len)) None in
  let targets := slice targets (Some (- max_len)) None in
  let padding_len := max_len - len input_ids in
  if padding_len <=? 0 then (input_ids, targets)
  else (input_ids ++ replicate (Z.to_nat padding_len) pad_token_id,
        targets ++ replicate (Z.to_nat padding_len) IGNORE_INDEX).

(** One turn of a conversation, [{"from": ..., "value": ...}]. *)
Record sentence : Type := Sentence { from : string; value : string }.

(** What a call gives: its result, or the [ValueError] for a speaker that
    is neither human nor gpt. *)
Inductive outcome (A : Type) : Type :=
| Returns (a : A)
| ValueError_unknown_speaker (from_str : string).
Arguments Returns {A} a.
Arguments ValueError_unknown_speaker {A} from_str.

(** [str.lower] on the letters A to Z; the speakers are ASCII strings. *)
Definition lower_char (c : Ascii.ascii) : Ascii.ascii :=
  let n := Ascii.N_of_ascii c in
  if ((65 <=? n) && (n <=? 90))%N then Ascii.ascii_of_N (n + 32) else c.

Fixpoint lower (s : string) : string :=
  match s with
  | EmptyString => EmptyString
  | String c s' => String (lower_char c) (lower s')
  end.

(** [_add_speaker_and_signal]: the conversation with every turn rewritten,
    unless a speaker is unknown. *)
Fixpoint _add_speaker_and_signal (conversations : list sentence)
  : outcome (list sentence) :=
  match conversations with
  | [] => Returns []
  | s :: rest =>
      let from_str := from s in
      let from_str' :=
        if String.eqb (lower from_str) "human" then Some "User"%string
        else if String.eqb (lower from_str) "gpt" then Some "Assistant"%string
        else None in
      match from_str' with
      | None => ValueError_unknown_speaker from_str
      | Some from_str' =>
          let value' :=
            if negb (String.eqb (value s) EmptyString)
            then (from_str' ++ ": " ++ value s ++ DEFAULT_STOP_TOKEN)%string
            else (from_str' ++ ":")%string in
          match _add_speaker_and_signal rest with
          | Returns rest' => Returns (Sentence (from s) value' :: rest')
          | ValueError_unknown_speaker f => ValueError_unknown_speaker f
          end
      end
  end.

(** The dictionary that [preprocess] returns. *)
Record preprocessed : Type := Preprocessed {
  input_ids : list Z;
  labels : list Z;
  input_text : string
}.

(** [preprocess] *)
Definition preprocess (encode : string -> list Z) (conversations : list sentence)
    (has_image : bool) (ctx_len pad_token_id : Z) (do_pad_to_max_length : bool)
  : outcome preprocessed :=
  match _add_speaker_and_signal conversations with
  | ValueError_unknown_speaker f => ValueError_unknown_speaker f
  | Returns conversations =>
      let conversation := String.concat EmptyString (value <$> conversations) in
      let tokenize (s : string) : list Z :=
        if has_image then tokenize_with_image_token encode s IMAGE_TOKEN_INDEX
        else encode s in
      let input_ids := tokenize conversation in
      let targets := input_ids in
      let tokenized_lens := (fun s => len (tokenize (value s))) <$> conversations in
      let speakers := from <$> conversations in
      let targets := mask_targets_from_human targets tokenized_lens speakers in
      let '(input_ids, targets) :=
        if do_pad_to_max_length
        then pad_to_max_len input_ids targets ctx_len pad_token_id
        else (input_ids, targets) in
      Returns (Preprocessed input_ids targets conversation)
  end.

End Preprocess.

(** ** Grid pooling of the image features *)

Module Pooling.

(** The errors of [grid_pooling]: the [view] of a patch sequence that is
    not a square, a pooling kernel that is not positive, and the [assert]
    of v5.1_old. *)
Inductive pooling_error : Type :=
| RuntimeError_view
| RuntimeError_kernel
| AssertionError.

Inductive pooled (A : Type) : Type :=
| Pooled (a : A)
| PoolingError (e : pooling_error).
Arguments Pooled {A} a.
Arguments PoolingError {A} e.

(** A batch, from what the samples give: the first error wins. *)
Fixpoint for_batch {A B} (f : A -> pooled B) (batch : list A) : pooled (list B) :=
  match batch with
  | [] => Pooled []
  | x :: batch' =>
      match f x with
      | PoolingError e => PoolingError e
      | Pooled y =>
          match for_batch f batch' with
          | PoolingError e => PoolingError e
          | Pooled ys => Pooled (y :: ys)
          end
      end
  end.

Section Pool.
Context {V : Type}.
(** [t.mean(dim)] of a sequence of feature vectors. *)
Variable mean : list V -> V.

(** The window [(i, j)] of [F.avg_pool2d] with kernel and stride [k] on a
    grid of side [H] stored row by row. *)
Definition window (H k i j : Z) (x : list V) : list V :=
  mjoin ((fun a => omap (fun b => x !! Z.to_nat ((i * k + a) * H + (j * k + b)))
                     (seqZ 0 k)) <$> seqZ 0 k).

(** [F.avg_pool2d(..., padding=0, kernel_size=k, stride=k)] on one
    sample, followed by [permute(0, 2, 3, 1).view(B, -1, D)]: the means
    of the [H // k] by [H // k] windows, row by row. *)
Definition avg_pool2d (H k : Z) (x : list V) : list V :=
  mjoin ((fun i => (fun j => mean (window H k i j x)) <$> seqZ 0 (H `div` k))
           <$> seqZ 0 (H `div` k)).

(** [grid_pooling] of v5.1 on one sample; [H_or_W = int(L ** 0.5)] is the
    integer square root. *)
Definition grid_pooling_sample (grid_size : Z) (image_features : list V)
  : pooled (list V) :=
  let cls_features := slice image_features (Some 0) (Some 1) in
  let image_features := slice image_features (Some 1) None in
  if grid_size =? -1 then Pooled (image_features ++ cls_features)
  else if grid_size =? 0 then Pooled cls_features
  else if grid_size =? 1 then Pooled ([mean image_features] ++ cls_features)
  else
    let L := len image_features in
    let H_or_W := Z.sqrt L in
    if negb (H_or_W * H_or_W =? L) then PoolingError RuntimeError_view
    else
      let grid_stride := H_or_W `div` grid_size in
      if grid_stride <=? 0 then PoolingError RuntimeError_kernel
      else Pooled (avg_pool2d H_or_W grid_stride image_features ++ cls_features).

Definition grid_pooling (grid_size : Z) (image_features : list (list V))
  : pooled (list (list V)) :=
  for_batch (grid_pooling_sample grid_size) image_features.

(** [grid_pooling] of v5.1_old on one sample. *)
Definition grid_pooling_old_sample (grid_size : Z) (image_features : list V)
  : pooled (list V) :=
  if grid_size =? -1 then Pooled image_features
  else if grid_size =? 0 then Pooled (slice image_features (Some 0) (Some 1))
  else if grid_size =? 1 then Pooled [mean image_features]
  else
    let cls_features := slice image_features (Some 0) (Some 1) in
    let image_features := slice image_features (Some 1) None in
    let L := len image_features in
    let H_or_W := Z.sqrt L in
    if negb (H_or_W * H_or_W =? L) then PoolingError RuntimeError_view
    else
      let grid_stride := H_or_W `div` grid_size in
      if negb (grid_stride * grid_size =? H_or_W) then PoolingError AssertionError
      else if grid_stride <=? 0 then PoolingError RuntimeError_kernel
      else Pooled (cls_features ++ avg_pool2d H_or_W grid_stride image_features).

Definition grid_pooling_old (grid_size : Z) (image_features : list (list V))
  : pooled (list (list V)) :=
  for_batch (grid_pooling_old_sample grid_size) image_features.
End Pool.

End Pooling.


(** * Properties *)

(** ** Definitions used in the statements *)

Section AlignStatements.
Variable cfg : V51_old.config.

(** [text_embeds * text_masks.unsqueeze(-1)] for a mask of the shape of
    the text: nothing is broadcast along the batch and the length axes. *)
Definition masked_text (text_embeds : list (list (list R)))
    (text_masks : list (list bool)) : list (list (list R)) :=
  zip_with (fun (sample : list (list R)) (ms : list bool) =>
              zip_with (fun (t : list R) (m : bool) =>
                          (fun x => x * (if m then 1 else 0))%R <$> t)
                sample ms)
    text_embeds text_masks.

(** What [self.proj] returns on an input of the width of its weight. *)
Definition projected (t : list (list (list R))) : list (list (list R)) :=
  (fun sample : list (list R) => V51_old.linear (V51_old.proj_weight cfg) <$> sample)
    <$> t.

(** The loss of [forward] from the tensors of lines 618-623: the masked
    text, the projected vision features and the negatives of the queues. *)
Definition loss_of (batch_size : Z) (text vision_features : list (list (list R)))
    (text_masks : list (list bool))
    (text_neg_embeds vision_neg_features : list (list (list R))) : result (option R) :=
  if negb (batch_size =? 1) then
    in_batch_loss <-
      V51_old.compute_in_batch_constraive_loss cfg text vision_features (Some text_masks);
    in_queue_loss <-
      V51_old.compute_in_queue_constraive_loss cfg text vision_features (Some text_masks)
        text_neg_embeds vision_neg_features;
    Ok (V51_old.lift2 Rplus in_batch_loss in_queue_loss)
  else
    V51_old.compute_in_queue_constraive_loss cfg text vision_features (Some text_masks)
      text_neg_embeds vision_neg_features.

(** The loss of [forward] on a batch whose shapes agree, before the queues
    are touched. *)
Definition forward_loss (st : V51_old.buffers)
    (text_embeds vision_embeds : list (list (list R)))
    (text_masks : list (list bool)) : result (option R) :=
  loss_of (len text_embeds) (masked_text text_embeds text_masks)
    (projected vision_embeds) text_masks
    (V51_old.text_queue st) (projected (V51_old.vision_queue st)).
End AlignStatements.
(** The last [c] positions of a sequence. *)
Definition keep_last {A} (c : Z) (l : list A) : list A :=
  drop (length l - Z.to_nat c) l.

Section GreedyStatements.
Context {V S : Type}.
Variable emb : Z -> V.
Variable argmax : list S -> Z.

(** The context of one sample after the tokens [toks] were emitted: every
    emission appends the embedding of the token and keeps the last
    [ctx_len] positions. *)
Definition context_after (ctx_len : Z) (x0 : list V) (toks : list Z) : list V :=
  fold_left (fun x t => keep_last ctx_len (x ++ [emb t])) toks x0.

(** The arg-max of the logits at the last position of the context [x]. *)
Definition next_token (forward : list (list V) -> result (list (list (list S))))
    (x : list V) : result Z :=
  logits <- forward [x];
  next_logit <- mapM (fun row => index row (-1)) logits;
  item (argmax <$> next_logit).

(** A greedy run of at most [steps] emissions from the context [x0]: every
    token is the arg-max for the context it was emitted in, the stop token
    can only come last, and a run shorter than [steps] ends with it. *)
Definition greedy_run (forward : list (list V) -> result (list (list (list S))))
    (ctx_len stop_token_idx : Z) (steps : nat) (x0 : list V) (toks : list Z) : Prop :=
  (length toks <= steps)%nat /\
  (forall k tok, toks !! k = Some tok ->
     next_token forward (context_after ctx_len x0 (take k toks)) = Ok tok) /\
  (forall k, toks !! k = Some stop_token_idx -> Datatypes.S k = length toks) /\
  ((length toks < steps)%nat -> list.last toks = Some stop_token_idx).

(** The trunk answers a batch of one non-empty sample with one non-empty
    sequence of logits. *)
Definition answers (forward : list (list V) -> result (list (list (list S)))) : Prop :=
  forall x, x ≠ [] -> exists l, forward [x] = Ok [l] /\ l ≠ [].
End GreedyStatements.

(** The inverse of a scan order: entry [k] is the position of [k] in
    [order].  The source builds the three orders only; this is the inverse
    that the statement about them speaks of. *)
Definition inverse_order (order : list Z) : list Z :=
  (fun k =>
     match list_find (fun x => x = k) order with
     | Some (i, _) => Z.of_nat i
     | None => 0
     end) <$> seqZ 0 (len order).


(** ** Definitions used in the statements and in the proofs *)

(** What [truncate_input] keeps of one sample. *)
Definition truncate_sample {E} (ctx_len : Z) (xy : list E * list Z) : list E * list Z :=
  if bool_decide (filter (fun i => i ≠ IGNORE_INDEX) (slice xy.2 None (Some ctx_len)) ≠ [])
  then (slice xy.1 None (Some ctx_len), slice xy.2 None (Some ctx_len))
  else (slice xy.1 (Some (- ctx_len)) None, slice xy.2 (Some (- ctx_len)) None).

(** The rotation C8 describes, on one sample: position [p] of the span
    receives the value that was at position [(p - n / 3) mod n], where [n]
    is the length of the span. *)
Definition span_rotated_by_third {V} (img_start img_end : nat) (row : list V) : list V :=
  let span := take (img_end - img_start) (drop img_start row) in
  let n := length span in
  take img_start row
    ++ omap (fun p => span !! ((p + n - n / 3) mod n)%nat) (seq 0 n)
    ++ drop img_end row.

Definition text_shaped (te : list (list (list R))) (masks : list (list bool)) : Prop :=
  Forall2 (fun (t : list (list R)) (m : list bool) => length m = length t) te masks.

Definition supported (cfg : V51_old.config) : Prop :=
  V51_old.reduction cfg = "mean"%string \/ V51_old.reduction cfg = "weighted"%string.

(** A tensor of [n] samples of [t] positions of width [d]. *)
Definition tensor3 (n t d : nat) (x : list (list (list R))) : Prop :=
  length x = n /\
  Forall (fun sample : list (list R) =>
            length sample = t /\ Forall (fun v : list R => length v = d) sample) x.

(** The weight of [self.proj] maps vision embeddings to the width of the
    text embeddings. *)
Definition proj_shaped (cfg : V51_old.config) : Prop :=
  length (V51_old.proj_weight cfg) = V51_old.text_embed_dim cfg /\
  Forall (fun w : list R => length w = V51_old.vision_embed_dim cfg)
    (V51_old.proj_weight cfg).

(** A batch of [b] samples of the shapes the module is built for:
    [text_embeds] is [b] by [text_max_len] by [text_embed_dim],
    [vision_embeds] is [b] by [vision_max_len] by [vision_embed_dim] and
    [text_masks] is [b] by [text_max_len]. *)
Definition batch_shaped (cfg : V51_old.config) (b : nat)
    (text_embeds vision_embeds : list (list (list R)))
    (text_masks : list (list bool)) : Prop :=
  tensor3 b (V51_old.text_max_len cfg) (V51_old.text_embed_dim cfg) text_embeds /\
  tensor3 b (V51_old.vision_max_len cfg) (V51_old.vision_embed_dim cfg) vision_embeds /\
  length text_masks = b /\
  Forall (fun m : list bool => length m = V51_old.text_max_len cfg) text_masks.

(** The buffers have the shapes that [__init__] registers, and the pointer
    is inside them. *)
Definition buffers_ok (cfg : V51_old.config) (st : V51_old.buffers) : Prop :=
  tensor3 (Z.to_nat (V51_old.queue_size cfg)) (V51_old.text_max_len cfg)
    (V51_old.text_embed_dim cfg) (V51_old.text_queue st) /\
  tensor3 (Z.to_nat (V51_old.queue_size cfg)) (V51_old.vision_max_len cfg)
    (V51_old.vision_embed_dim cfg) (V51_old.vision_queue st) /\
  0 <= V51_old.queue_ptr st < V51_old.queue_size cfg.

(** A queue of three entries and batches of two samples. *)
Definition cfg_three : V51_old.config :=
  V51_old.Config [[1%R]] 3 1 1 1 1 "mean".

(** Every sample has at least one text position and one vision position,
    and, for the mean reduction, at least one position that the mask
    keeps. *)
Definition poolable (cfg : V51_old.config) (te vf : list (list (list R)))
  (masks : list (list bool)) : Prop :=
  Forall (fun t : list (list R) => t ≠ []) te /\
  Forall (fun v : list (list R) => v ≠ []) vf /\
  (V51_old.reduction cfg = "mean"%string -> Forall (fun m : list bool => true ∈ m) masks).

(** A sample that the loop of v5.1 merges without an error: its labels are
    as long as its token ids, and it holds no placeholder, or one that is
    not its first token. *)
Definition spliceable (ids cur_labels : list Z) : Prop :=
  length cur_labels = length ids /\
  (V51.num_images ids = 0 \/
   (V51.num_images ids = 1 /\ V51.image_token_indice ids ≠ Ok 0)).

(** The modes for which [generate] of v5.1 computes logits. *)
Definition generate_mode (image_scanning : string) : Prop :=
  image_scanning = "unidirection"%string \/ image_scanning = "bidirection"%string \/
  image_scanning = "multidirection"%string.

(** A trunk that gives every position the same logits. *)
Definition flat_trunk (x : list (list (list Z))) : list (list (list Z)) :=
  (fun row : list (list Z) => (fun _ : list Z => [1]) <$> row) <$> x.

(** The value of the matrix at a cell, and the cells of the grid. *)
Definition enc (n : Z) (rc : Z * Z) : Z := rc.1 * n + rc.2.
Definition in_grid (n : Z) (rc : Z * Z) : Prop := 0 <= rc.1 < n /\ 0 <= rc.2 < n.
Definition grid (n : Z) : list (list Z) := V51.reshape (seqZ 0 (n * n)) n n.

(** The cells that one pass of the [while] loop appends: the top row, the
    right column, and, for a ring with two rows and two columns at least,
    the bottom row and the left column. *)
Definition ring_cells (l r t b : Z) : list (Z * Z) :=
  ((fun c => (t, c)) <$> range2 l (r + 1))
    ++ ((fun row => (row, r)) <$> range2 (t + 1) (b + 1))
    ++ (if bool_decide (l < r /\ t < b) then
          ((fun c => (b, c)) <$> range3 (r - 1) l (-1))
            ++ ((fun row => (row, l)) <$> range3 b t (-1))
        else []).

(** The cells of row [i], left to right on even rows and right to left on
    odd ones. *)
Definition snake_row (n i : Z) : list (Z * Z) :=
  if i `mod` 2 =? 0 then (fun j => (i, j)) <$> range1 n
  else (fun j => (i, j)) <$> range3 (n - 1) (-1) (-1).

(** ** Definitions used in the statements about the rest of the code *)

(** A sequence with its slice [start:stop] replaced by [f] of that slice,
    for an [f] that keeps the length. *)
Definition with_span {A} (f : list A -> list A) (start stop : Z) (row : list A) : list A :=
  let lo := Z.to_nat (norm_index (len row) start) in
  let span := slice row (Some start) (Some stop) in
  take lo row ++ f span ++ drop (lo + length span) row.

(** The span of [h] rows of [h] positions, read column by column. *)
Definition transposed {A} (h : Z) (span : list A) : list A :=
  mjoin ((fun c => omap (fun r => span !! Z.to_nat (r * h + c)) (seqZ 0 h)) <$> seqZ 0 h).

(** The blocks as the bidirectional pass runs them: an odd block sees the
    image span reversed, and the span of its output is reversed back. *)
Definition bidirectional_blocks {V} (img_start img_end : Z)
    (blocks : list (list (list V) -> list (list V)))
  : list (list (list V) -> list (list V)) :=
  (fun ib : Z * (list (list V) -> list (list V)) =>
     if ib.1 `mod` 2 =? 1
     then fun x : list (list V) =>
            with_span reverse img_start img_end
              <$> ib.2 (with_span reverse img_start img_end <$> x)
     else ib.2) <$> zip (seqZ 0 (len blocks)) blocks.

(** The blocks as the multidirectional pass runs them on a span of [h]
    by [h] positions: blocks 2 and 3 of every four see the span
    transposed, odd blocks see it reversed (after the transposition), and
    the output is put back in the opposite order. *)
Definition multidirectional_blocks {V} (h img_start img_end : Z)
    (blocks : list (list (list V) -> list (list V)))
  : list (list (list V) -> list (list V)) :=
  (fun ib : Z * (list (list V) -> list (list V)) =>
     let t : list V -> list V := if 2 <=? ib.1 `mod` 4 then transposed h else (fun l => l) in
     let r : list V -> list V := if ib.1 `mod` 2 =? 1 then reverse else (fun l => l) in
     fun x : list (list V) =>
       with_span (fun l => t (r l)) img_start img_end
         <$> ib.2 (with_span (fun l => r (t l)) img_start img_end <$> x))
    <$> zip (seqZ 0 (len blocks)) blocks.

(** A layer that returns hidden states of the shape it was given: as many
    samples, each as long as before. *)
Definition keeps_shape {V} (block : list (list V) -> list (list V)) : Prop :=
  forall y, length <$> block y = length <$> y.

(** Every sample reaches position [img_end]. *)
Definition spans_inside {V} (img_end : Z) (x : list (list V)) : Prop :=
  Forall (fun row => img_end <= len row) x.

(** A function on spans of [h * h] positions that returns as many. *)
Definition on_square {V} (h : Z) (f : list V -> list V) : Prop :=
  forall l, len l = h * h -> len (f l) = h * h.

(** What a reordering pass returns: the unidirectional pass on the hidden
    states whose image span holds, for every sample, the patch features
    of that sample (all features but the last) in some order. *)
Definition reordered_pass {V L} (blocks : list (list (list V) -> list (list V)))
    (drop0 ln_out : list (list V) -> list (list V)) (head : list (list V) -> L)
    (dropout : bool) (img_start img_end : Z) (x x_emb : list (list V))
    (out : result L) : Prop :=
  exists ys : list (list V),
    Forall2 (fun feats y => y ≡ₚ take (length feats - 1) feats) x_emb ys /\
    out = Ok (V51.unidirectional_forward blocks drop0 ln_out head dropout
                (zip_with (fun row y => with_span (fun _ => y) img_start img_end row)
                   x ys)).



(** The speaker of the turn that position [k] falls in, when the turns
    have the lengths [lens], one after the other from position 0. *)
Fixpoint segment_speaker (lens : list Z) (speakers : list string) (k : Z)
  : option string :=
  match lens, speakers with
  | l :: lens', s :: speakers' =>
      if k <? l then Some s else segment_speaker lens' speakers' (k - l)
  | _, _ => None
  end.

(** The separator occurs in the string. *)
Definition occurs (sep s : string) : Prop :=
  exists pre post : string, s = (pre ++ sep ++ post)%string.

(** A speaker that [_add_speaker_and_signal] knows. *)
Definition known_speaker (s : Preprocess.sentence) : Prop :=
  Preprocess.lower (Preprocess.from s) = "human"%string \/
  Preprocess.lower (Preprocess.from s) = "gpt"%string.

(** A label is the token id at its position, or [IGNORE_INDEX]. *)
Definition label_of (id label : Z) : Prop := label = IGNORE_INDEX \/ label = id.


(** A layer to run the passes on: it moves the first position of every
    sample to the end, so that its output depends on the order in which
    it is handed the positions. *)
Definition first_to_end (x : list (list Z)) : list (list Z) :=
  (fun row : list Z => drop 1 row ++ take 1 row) <$> x.

Example spiral4 : V51.get_spiral_scan_order 4 = Ok [0;1;2;3;7;11;15;14;13;12;8;4;5;6;10;9].
Proof. vm_compute. reflexivity. Qed.
Example snake3 : V51.get_snake_scan_order 3 = Ok [0;1;2;5;4;3;6;7;8].
Proof. vm_compute. reflexivity. Qed.
Example zigzag3 : V51.get_zigzag_scan_order 3 = Ok [0;1;3;6;4;2;5;7;8].
Proof. vm_compute. reflexivity. Qed.
Example zigzag0 : V51.get_zigzag_scan_order 0 = Raise IndexError.
Proof. vm_compute. reflexivity. Qed.
Example spiral0 : V51.get_spiral_scan_order 0 = Ok [].
Proof. vm_compute. reflexivity. Qed.

(** ** Slices *)

Lemma slice_leading {A} (l : list A) (c : Z) :
  0 <= c -> slice l None (Some c) = take (Z.to_nat c) l.
Proof.
  intros Hc. unfold slice, norm_index, len.
  destruct (Z.ltb_spec c 0) as [?|_]; [lia|].
  rewrite drop_0, Z.sub_0_r.
  destruct (Z.le_ge_cases c (Z.of_nat (length l))) as [Hle|Hge].
  - by rewrite Z.min_l by lia.
  - rewrite Z.min_r by lia. rewrite Nat2Z.id.
    rewrite !take_ge; [done | lia | lia].
Qed.

Lemma slice_trailing {A} (l : list A) (c : Z) :
  0 < c -> slice l (Some (- c)) None = drop (length l - Z.to_nat c) l.
Proof.
  intros Hc. unfold slice, norm_index, len.
  destruct (Z.ltb_spec (- c) 0) as [_|?]; [|lia].
  rewrite take_ge by (rewrite length_drop; lia).
  f_equal. lia.
Qed.

Lemma slice_from {A} (l : list A) (i : Z) :
  0 <= i -> slice l (Some i) None = drop (Z.to_nat i) l.
Proof.
  intros Hi. unfold slice, norm_index, len.
  destruct (Z.ltb_spec i 0) as [?|_]; [lia|].
  destruct (Z.le_ge_cases i (Z.of_nat (length l))) as [Hle|Hge].
  - rewrite Z.min_l by lia. apply take_ge. rewrite length_drop. lia.
  - rewrite Z.min_r by lia. rewrite Nat2Z.id.
    rewrite !drop_ge by lia. apply take_nil.
Qed.

Lemma slice_short {A} (l : list A) (c : Z) :
  len l <= c -> slice l None (Some c) = l /\ slice l (Some (- c)) None = l.
Proof.
  unfold len. intros Hc. split.
  - rewrite slice_leading by lia. apply take_ge. lia.
  - destruct (decide (c = 0)) as [->|Hne].
    + destruct l; [done | simpl in Hc; lia].
    + rewrite slice_trailing by lia.
      replace (length l - Z.to_nat c)%nat with 0%nat by lia. done.
Qed.

(** ** Truncation (C1) *)

Section TruncateFacts.
Context {E : Type}.

Lemma truncate_input_map (ctx_len : Z) (xs : list (list E)) (ys : list (list Z)) :
  V51.truncate_input ctx_len xs ys =
    ((truncate_sample ctx_len <$> zip xs ys).*1,
     (truncate_sample ctx_len <$> zip xs ys).*2).
Proof.
  unfold V51.truncate_input.
  enough (Hgen : forall (l : list (list E * list Z)) acc1 acc2,
    fold_left
      (fun '(truncated_input_embeds, truncated_labels) '(x, y) =>
         let valid_labels :=
           filter (fun i => i ≠ IGNORE_INDEX) (slice y None (Some ctx_len)) in
         if bool_decide (valid_labels ≠ []) then
           (truncated_input_embeds ++ [slice x None (Some ctx_len)],
            truncated_labels ++ [slice y None (Some ctx_len)])
         else
           (truncated_input_embeds ++ [slice x (Some (- ctx_len)) None],
            truncated_labels ++ [slice y (Some (- ctx_len)) None]))
      l (acc1, acc2)
    = (acc1 ++ (truncate_sample ctx_len <$> l).*1,
       acc2 ++ (truncate_sample ctx_len <$> l).*2)).
  { by rewrite Hgen. }
  induction l as [|[x y] l IH]; intros acc1 acc2.
  - simpl. by rewrite !app_nil_r.
  - rewrite !fmap_cons. cbn [fold_left].
    match goal with
    | |- fold_left ?F l ?a = _ =>
        transitivity
          (fold_left F l (acc1 ++ [(truncate_sample ctx_len (x, y)).1],
                          acc2 ++ [(truncate_sample ctx_len (x, y)).2]))
    end.
    + f_equal. unfold truncate_sample. simpl. by case_bool_decide.
    + rewrite IH. by rewrite <- !app_assoc.
Qed.

Lemma filter_valid_nonempty (l : list Z) :
  filter (fun i => i ≠ IGNORE_INDEX) l ≠ [] <-> exists v, v ∈ l /\ v ≠ IGNORE_INDEX.
Proof.
  split.
  - intros Hne. destruct (filter _ l) as [|v l'] eqn:Hf; [done|].
    assert (Hin : v ∈ filter (fun i => i ≠ IGNORE_INDEX) l) by (rewrite Hf; left).
    apply list_elem_of_filter in Hin as [Hv Hin]. by exists v.
  - intros (v & Hin & Hv) Hnil.
    assert (Hf : v ∈ filter (fun i => i ≠ IGNORE_INDEX) l)
      by (apply list_elem_of_filter; done).
    rewrite Hnil in Hf. by apply not_elem_of_nil in Hf.
Qed.
End TruncateFacts.

(** C1.  With a positive context length, [truncate_input] keeps of every
    sample the leading [ctx_len] positions of the embeddings and of the
    labels when a label among the leading [ctx_len] differs from
    [IGNORE_INDEX], and the trailing [ctx_len] positions otherwise; a sample
    with at most [ctx_len] positions is returned as it is. *)
Theorem truncate_input_policy {E : Type} (ctx_len : Z)
    (new_input_embeds : list (list E)) (new_labels : list (list Z)) :
  0 < ctx_len ->
  let out := V51.truncate_input ctx_len new_input_embeds new_labels in
  let c := Z.to_nat ctx_len in
  length out.1 = (length new_input_embeds `min` length new_labels)%nat /\
  length out.2 = (length new_input_embeds `min` length new_labels)%nat /\
  forall (i : nat) (x : list E) (y : list Z),
    new_input_embeds !! i = Some x -> new_labels !! i = Some y ->
    exists x' y',
      out.1 !! i = Some x' /\ out.2 !! i = Some y' /\
      ((exists v, v ∈ take c y /\ v ≠ IGNORE_INDEX) ->
         x' = take c x /\ y' = take c y) /\
      ((forall v, v ∈ take c y -> v = IGNORE_INDEX) ->
         x' = drop (length x - c) x /\ y' = drop (length y - c) y) /\
      (length x <= c -> x' = x)%nat /\
      (length y <= c -> y' = y)%nat.
Proof.
  intros Hctx out c. subst out. rewrite truncate_input_map. simpl.
  rewrite !length_fmap, length_zip. repeat split; [done..|].
  intros i x y Hx Hy.
  assert (Hz : zip new_input_embeds new_labels !! i = Some (x, y)).
  { rewrite lookup_zip_with, Hx. simpl. by rewrite Hy. }
  exists (truncate_sample ctx_len (x, y)).1, (truncate_sample ctx_len (x, y)).2.
  rewrite !list_lookup_fmap, Hz. simpl.
  split; [done|]. split; [done|].
  unfold truncate_sample. simpl.
  rewrite (slice_leading x), (slice_leading y), (slice_trailing x), (slice_trailing y) by lia.
  fold c.
  case_bool_decide as Hvalid; simpl.
  - apply filter_valid_nonempty in Hvalid as (v & Hin & Hv).
    split; [done|]. split; [|split]; intros Hlen.
    + by specialize (Hlen v Hin).
    + by apply take_ge.
    + by apply take_ge.
  - assert (Hno : ~ exists v, v ∈ take c y /\ v ≠ IGNORE_INDEX).
    { intros Hex. by apply filter_valid_nonempty in Hex. }
    split; [intros Hex; by destruct Hno|]. split; [done|]. split; intros Hlen.
    + by replace (length x - c)%nat with 0%nat by lia.
    + by replace (length y - c)%nat with 0%nat by lia.
Qed.

Lemma truncate_input_policy_witness :
  V51.truncate_input 2 [[1; 2; 3]; [4; 5; 6]] [[-100; 7; 8]; [-100; -100; 9]]
  = ([[1; 2]; [5; 6]], [[-100; 7]; [-100; 9]]) /\
  length (V51.truncate_input 2 [[1; 2; 3]; [4; 5; 6]]
            [[-100; 7; 8]; [-100; -100; 9]]).1 = 2%nat.
Proof.
  split; [reflexivity|].
  destruct (truncate_input_policy 2 [[1; 2; 3]; [4; 5; 6]]
              [[-100; 7; 8]; [-100; -100; 9]]) as [H _]; [lia|].
  exact H.
Defined.

(** ** The result monad *)


Lemma mapM_result_nil {A B} (f : A -> result B) : mapM f [] = Ok [].
Proof. reflexivity. Qed.

Lemma mapM_result_cons {A B} (f : A -> result B) (a : A) (l : list A) :
  mapM f (a :: l) = (y <- f a; ys <- mapM f l; Ok (y :: ys)).
Proof. reflexivity. Qed.

Lemma mapM_result_ok {A B} (f : A -> result B) (g : A -> B) (l : list A) :
  (forall a, a ∈ l -> f a = Ok (g a)) -> mapM f l = Ok (g <$> l).
Proof.
  induction l as [|a l IH]; intros Hf; [done|].
  rewrite mapM_result_cons, (Hf a) by left. simpl.
  rewrite IH; [done|]. intros b Hb. apply Hf. by right.
Qed.

Lemma mapM_result_exists {A B} (f : A -> result B) (l : list A) :
  (forall a, a ∈ l -> exists b, f a = Ok b) -> exists bs, mapM f l = Ok bs.
Proof.
  induction l as [|a l IH]; intros Hf; [by eexists|].
  rewrite mapM_result_cons. destruct (Hf a) as [b Hb]; [left|]. rewrite Hb. simpl.
  destruct IH as [bs Hbs]; [intros; apply Hf; by right|].
  rewrite Hbs. by eexists.
Qed.

Lemma mapM_result_length {A B} (f : A -> result B) (l : list A) (ys : list B) :
  mapM f l = Ok ys -> length ys = length l.
Proof.
  revert ys. induction l as [|a l IH]; intros ys.
  - intros [= <-]. done.
  - rewrite mapM_result_cons. destruct (f a) as [y|e]; [|done]. simpl.
    destruct (mapM f l) as [ys'|e]; [|done]. simpl. intros [= <-].
    simpl. f_equal. by apply IH.
Qed.

Lemma mapM_result_lookup {A B} (f : A -> result B) (l : list A) (ys : list B) :
  mapM f l = Ok ys ->
  forall p a, l !! p = Some a -> exists b, ys !! p = Some b /\ f a = Ok b.
Proof.
  revert ys. induction l as [|x l IH]; intros ys Hm p a Hp; [done|].
  rewrite mapM_result_cons in Hm.
  destruct (f x) as [y|e] eqn:Hy; [|done]. cbn [bind] in Hm.
  destruct (mapM f l) as [ys'|e] eqn:Hys; [|done]. cbn [bind] in Hm.
  injection Hm as <-. destruct p as [|p]; simpl in *.
  - injection Hp as <-. by exists y.
  - by eapply IH.
Qed.

Lemma mapM_result_intro {A B} (f : A -> result B) (l : list A) (ys : list B) :
  length l = length ys ->
  (forall p a b, l !! p = Some a -> ys !! p = Some b -> f a = Ok b) ->
  mapM f l = Ok ys.
Proof.
  revert ys. induction l as [|x l IH]; intros [|y ys] Hlen Hf; try done.
  rewrite mapM_result_cons, (Hf 0%nat x y) by done. cbn [bind].
  rewrite (IH ys); [done | by injection Hlen |].
  intros p a b Ha Hb. by apply (Hf (Datatypes.S p)).
Qed.

Lemma foldM_app {A B} (f : A -> B -> result A) (a : A) (l1 l2 : list B) :
  foldM f a (l1 ++ l2) = (a' <- foldM f a l1; foldM f a' l2).
Proof.
  revert a. induction l1 as [|b l1 IH]; intros a; [done|].
  simpl. destruct (f a b); [apply IH | done].
Qed.

(** ** The decay of the WKV kernel (C5) *)

(** ** float32 rounding *)

Section Float32Facts.
Import Float32.
Local Open Scope R_scope.

Lemma floor_spec (x : R) : IZR (floor x) <= x < IZR (floor x) + 1.
Proof.
  unfold floor. rewrite minus_IZR. destruct (archimed x) as [H1 H2]. lra.
Qed.

Lemma floor_ge (x : R) (k : Z) : IZR k <= x -> (k <= floor x)%Z.
Proof.
  intros Hk. destruct (floor_spec x) as [_ H2].
  assert (H : IZR k < IZR (floor x + 1)) by (rewrite plus_IZR; lra).
  apply lt_IZR in H. lia.
Qed.

Lemma floor_lt (x : R) (k : Z) : x < IZR k -> (floor x < k)%Z.
Proof.
  intros Hk. destruct (floor_spec x) as [H1 _].
  apply lt_IZR. lra.
Qed.

Lemma floor_unique (x : R) (k : Z) : IZR k <= x < IZR k + 1 -> floor x = k.
Proof.
  intros [H1 H2]. pose proof (floor_ge x k H1).
  assert (floor x < k + 1)%Z by (apply floor_lt; rewrite plus_IZR; lra). lia.
Qed.

Lemma nearest_even_bounds (x : R) :
  (floor x <= nearest_even x <= floor x + 1)%Z.
Proof.
  unfold nearest_even. cbv zeta.
  destruct (Rlt_dec _ _); [lia|]. destruct (Rlt_dec _ _); [lia|].
  destruct (Z.even _); lia.
Qed.

Lemma nearest_even_ge (x : R) (k : Z) : IZR k <= x -> (k <= nearest_even x)%Z.
Proof.
  intros Hk. pose proof (floor_ge x k Hk). pose proof (nearest_even_bounds x). lia.
Qed.

Lemma nearest_even_le (x : R) (k : Z) : x <= IZR k -> (nearest_even x <= k)%Z.
Proof.
  intros [Hlt | ->].
  - pose proof (floor_lt x k Hlt). pose proof (nearest_even_bounds x). lia.
  - unfold nearest_even. cbv zeta.
    rewrite (floor_unique (IZR k) k) by lra.
    destruct (Rlt_dec _ _) as [_|Hn]; [lia | lra].
Qed.

Lemma nearest_even_below (x : R) (k : Z) :
  IZR k <= x < IZR k + 1 / 2 -> nearest_even x = k.
Proof.
  intros [H1 H2]. unfold nearest_even. cbv zeta.
  rewrite (floor_unique x k) by lra.
  destruct (Rlt_dec _ _) as [_|Hn]; [done | lra].
Qed.

Lemma nearest_even_above (x : R) (k : Z) :
  IZR k - 1 / 2 < x < IZR k -> nearest_even x = k.
Proof.
  intros [H1 H2]. unfold nearest_even. cbv zeta.
  rewrite (floor_unique x (k - 1)) by (rewrite minus_IZR; lra).
  rewrite minus_IZR.
  destruct (Rlt_dec _ _) as [Hn|_]; [lra|].
  destruct (Rlt_dec _ _) as [_|Hn]; [lia | lra].
Qed.

Lemma pow2_pos (e : Z) : 0 < powerRZ 2 e.
Proof. apply powerRZ_lt. lra. Qed.

Lemma pow2_add (a b : Z) : powerRZ 2 (a + b) = powerRZ 2 a * powerRZ 2 b.
Proof. apply powerRZ_add. lra. Qed.

Lemma pow2_le (a b : Z) : (a <= b)%Z -> powerRZ 2 a <= powerRZ 2 b.
Proof.
  intros Hab. rewrite !powerRZ_Rpower by lra.
  apply Rle_Rpower; [lra | by apply IZR_le].
Qed.

Lemma pow2_lt (a b : Z) : (a < b)%Z -> powerRZ 2 a < powerRZ 2 b.
Proof.
  intros Hab. rewrite !powerRZ_Rpower by lra.
  apply Rpower_lt; [lra | by apply IZR_lt].
Qed.

Lemma pow2_IZR (n : Z) : (0 <= n)%Z -> powerRZ 2 n = IZR (2 ^ n).
Proof.
  intros Hn. rewrite <- (Z2Nat.id n) at 1 by lia.
  rewrite <- pow_powerRZ, pow_IZR. by rewrite Z2Nat.id.
Qed.

Lemma pow2_div (a b : Z) : powerRZ 2 a / powerRZ 2 b = powerRZ 2 (a - b).
Proof.
  replace a with ((a - b) + b)%Z at 1 by lia. rewrite pow2_add.
  pose proof (pow2_pos b). field. lra.
Qed.

Lemma ln2_pos : 0 < ln 2.
Proof. rewrite <- ln_1. apply ln_increasing; lra. Qed.

Lemma log2_pow (x : R) : 0 < x -> Rpower 2 (ln x / ln 2) = x.
Proof.
  intros Hx. unfold Rpower. pose proof ln2_pos.
  replace (ln x / ln 2 * ln 2) with (ln x) by (field; lra). by apply exp_ln.
Qed.

Lemma ilog2_spec (x : R) :
  0 < x -> powerRZ 2 (ilog2 x) <= x < powerRZ 2 (ilog2 x + 1).
Proof.
  intros Hx. unfold ilog2. destruct (floor_spec (ln x / ln 2)) as [H1 H2].
  rewrite !powerRZ_Rpower by lra. rewrite <- (log2_pow x Hx) at 2 3. split.
  - apply Rle_Rpower; [lra | done].
  - apply Rpower_lt; [lra|]. by rewrite plus_IZR.
Qed.

Lemma ilog2_lt (x : R) (k : Z) : 0 < x -> x < powerRZ 2 k -> (ilog2 x < k)%Z.
Proof.
  intros Hx Hk. destruct (ilog2_spec x Hx) as [H1 _].
  destruct (Z_lt_le_dec (ilog2 x) k) as [|Hge]; [done|].
  pose proof (pow2_le _ _ Hge). lra.
Qed.

Lemma ilog2_ge (x : R) (k : Z) : powerRZ 2 k <= x -> (k <= ilog2 x)%Z.
Proof.
  intros Hk. pose proof (pow2_pos k).
  destruct (ilog2_spec x ltac:(lra)) as [_ H2].
  destruct (Z_lt_le_dec (ilog2 x) k) as [Hlt|]; [|done].
  assert (Hle : (ilog2 x + 1 <= k)%Z) by lia.
  pose proof (pow2_le _ _ Hle). lra.
Qed.

(** What [round] is made of, for a positive real. *)
Lemma round_pos_unfold (x : R) :
  0 < x ->
  let e := Z.max (-149) (ilog2 x - 23) in
  let y := IZR (nearest_even (x / powerRZ 2 e)) * powerRZ 2 e in
  0 <= y /\
  round x = (if Rle_dec (powerRZ 2 128) y then PosInf else Finite y).
Proof.
  intros Hx e y. unfold round.
  destruct (Req_dec_T x 0) as [?|_]; [lra|].
  unfold ulp_exponent. rewrite (Rabs_pos_eq x) by lra. fold e. cbv zeta. fold y.
  assert (Hy : 0 <= y).
  { unfold y. pose proof (pow2_pos e) as He.
    apply Rmult_le_pos; [|lra]. apply IZR_le.
    apply nearest_even_ge. simpl.
    unfold Rdiv. apply Rmult_le_pos; [lra|]. left. by apply Rinv_0_lt_compat. }
  split; [done|]. rewrite (Rabs_pos_eq y) by done.
  destruct (Rle_dec _ _); [|done].
  destruct (Rlt_dec x 0); [lra | done].
Qed.

Lemma round_pos_cases (x : R) :
  0 < x -> round x = PosInf \/ exists y, round x = Finite y /\ 0 <= y.
Proof.
  intros Hx. destruct (round_pos_unfold x Hx) as [Hy ->].
  destruct (Rle_dec _ _); [by left | right; by eexists].
Qed.

(** A positive real that is at most [2^k] rounds to a float that is at
    most [2^k]. *)
Lemma round_le_pow2 (x : R) (k : Z) :
  0 < x <= powerRZ 2 k -> (-149 <= k < 128)%Z ->
  exists y, round x = Finite y /\ 0 <= y <= powerRZ 2 k.
Proof.
  intros [Hx Hk] Hrange. destruct (round_pos_unfold x Hx) as [Hy ->].
  set (e := Z.max (-149) (ilog2 x - 23)).
  assert (He : (e <= k)%Z).
  { assert (Hlt : x < powerRZ 2 (k + 1)).
    { pose proof (pow2_lt k (k + 1) ltac:(lia)). lra. }
    pose proof (ilog2_lt x (k + 1) Hx Hlt). lia. }
  pose proof (pow2_pos e) as Hpe.
  assert (Hm : (nearest_even (x / powerRZ 2 e) <= 2 ^ (k - e))%Z).
  { apply nearest_even_le. rewrite <- pow2_IZR by lia. rewrite <- pow2_div.
    unfold Rdiv. apply Rmult_le_compat_r; [|done].
    left. by apply Rinv_0_lt_compat. }
  assert (Hle : IZR (nearest_even (x / powerRZ 2 e)) * powerRZ 2 e <= powerRZ 2 k).
  { apply IZR_le in Hm. rewrite <- pow2_IZR in Hm by lia.
    replace (powerRZ 2 k) with (powerRZ 2 ((k - e) + e)) by (f_equal; lia).
    rewrite pow2_add.
    apply Rmult_le_compat_r; [lra | done]. }
  destruct (Rle_dec _ _) as [Hover|_].
  - pose proof (pow2_lt k 128 ltac:(lia)). lra.
  - eexists. split; [reflexivity|]. split; [done | exact Hle].
Qed.

(** A real that is at least a normal power of two rounds to a float, or
    to the infinity, that is at least that power. *)
Lemma round_ge_pow2 (x : R) (k : Z) :
  powerRZ 2 k <= x -> (-126 <= k)%Z ->
  round x = PosInf \/ exists y, round x = Finite y /\ powerRZ 2 k <= y.
Proof.
  intros Hk Hrange. pose proof (pow2_pos k) as Hpk.
  assert (Hx : 0 < x) by lra.
  destruct (round_pos_unfold x Hx) as [Hy ->].
  set (e := Z.max (-149) (ilog2 x - 23)).
  destruct (Rle_dec _ _); [by left|]. right. eexists. split; [reflexivity|].
  pose proof (ilog2_ge x k Hk) as Hil.
  assert (He : e = (ilog2 x - 23)%Z) by (unfold e; lia).
  destruct (ilog2_spec x Hx) as [Hlow _].
  pose proof (pow2_pos e) as Hpe.
  assert (Hm : (2 ^ 23 <= nearest_even (x / powerRZ 2 e))%Z).
  { apply nearest_even_ge. rewrite <- pow2_IZR by lia.
    replace 23%Z with (ilog2 x - e)%Z by lia. rewrite <- pow2_div.
    unfold Rdiv. apply Rmult_le_compat_r; [|done].
    left. by apply Rinv_0_lt_compat. }
  apply IZR_le in Hm. rewrite <- pow2_IZR in Hm by lia.
  apply Rle_trans with (powerRZ 2 (ilog2 x)); [by apply pow2_le|].
  replace (powerRZ 2 (ilog2 x)) with (powerRZ 2 (23 + e)) by (f_equal; lia).
  rewrite pow2_add.
  apply Rmult_le_compat_r; [lra | done].
Qed.

(** Below half of the least subnormal, a positive real rounds to zero. *)
Lemma round_tiny (x : R) : 0 < x < powerRZ 2 (-150) -> round x = Finite 0.
Proof.
  intros [Hx Hsmall]. destruct (round_pos_unfold x Hx) as [_ ->].
  pose proof (ilog2_lt x (-150) Hx Hsmall) as Hil.
  replace (Z.max (-149) (ilog2 x - 23)) with (-149)%Z by lia.
  pose proof (pow2_pos (-149)) as Hp.
  assert (Hm : nearest_even (x / powerRZ 2 (-149)) = 0%Z).
  { apply nearest_even_below. simpl IZR. split.
    - unfold Rdiv. apply Rmult_le_pos; [lra|]. left. by apply Rinv_0_lt_compat.
    - apply (Rmult_lt_reg_r (powerRZ 2 (-149))); [done|].
      unfold Rdiv. rewrite Rmult_assoc, Rinv_l, Rmult_1_r by lra.
      replace (-150)%Z with (-1 + -149)%Z in Hsmall by lia.
      rewrite pow2_add in Hsmall.
      replace (powerRZ 2 (-1)) with (/ 2) in Hsmall by (simpl; lra). lra. }
  rewrite Hm. rewrite Rmult_0_l.
  destruct (Rle_dec _ _) as [Hover|_]; [|done].
  pose proof (pow2_pos 128). lra.
Qed.

(** Above the midpoint of 1 and the float below it, a real that is at
    most 1 rounds to 1. *)
Lemma round_near_one (x : R) : 1 - powerRZ 2 (-25) < x <= 1 -> round x = Finite 1.
Proof.
  intros [Hlow Hhigh].
  assert (H25' : powerRZ 2 (-25) <= / 2).
  { replace (/ 2) with (powerRZ 2 (-1)) by (simpl; lra). apply pow2_le. lia. }
  assert (Hx : 0 < x) by lra.
  destruct (round_pos_unfold x Hx) as [_ ->].
  assert (Hone : powerRZ 2 128 <= 1 -> False).
  { intros H. pose proof (pow2_lt 0 128 ltac:(lia)) as Hlt.
    rewrite powerRZ_O in Hlt. lra. }
  destruct Hhigh as [Hlt | ->].
  - assert (Hil : ilog2 x = (-1)%Z).
    { pose proof (ilog2_lt x 0 Hx) as H1. rewrite powerRZ_O in H1.
      pose proof (ilog2_ge x (-1)) as H2.
      replace (powerRZ 2 (-1)) with (/ 2) in H2 by (simpl; lra).
      specialize (H1 Hlt). specialize (H2 ltac:(lra)). lia. }
    rewrite Hil. replace (Z.max (-149) (-1 - 23)) with (-24)%Z by lia.
    assert (Hm : nearest_even (x / powerRZ 2 (-24)) = (2 ^ 24)%Z).
    { apply nearest_even_above. rewrite <- pow2_IZR by lia.
      pose proof (pow2_pos (-24)) as Hp.
      assert (Hinv : powerRZ 2 24 * powerRZ 2 (-24) = 1).
      { rewrite <- pow2_add. done. }
      assert (Hx24 : x / powerRZ 2 (-24) = x * powerRZ 2 24).
      { unfold Rdiv. f_equal.
        replace (powerRZ 2 24)
          with (powerRZ 2 24 * (powerRZ 2 (-24) * / powerRZ 2 (-24)))
          by (rewrite Rinv_r by lra; lra).
        rewrite <- Rmult_assoc, Hinv. lra. }
      rewrite Hx24. pose proof (pow2_pos 24) as Hp24.
      assert (Hhalf : powerRZ 2 (-25) * powerRZ 2 24 = 1 / 2).
      { rewrite <- pow2_add. simpl. lra. }
      split; nra. }
    rewrite Hm, <- pow2_IZR, <- pow2_add by lia. simpl powerRZ.
    destruct (Rle_dec _ _) as [Hover|_]; [by apply Hone in Hover | done].
  - assert (Hil : ilog2 1 = 0%Z).
    { unfold ilog2. rewrite ln_1. apply floor_unique. simpl.
      unfold Rdiv. rewrite Rmult_0_l. lra. }
    rewrite Hil. replace (Z.max (-149) (0 - 23)) with (-23)%Z by lia.
    assert (Hm : nearest_even (1 / powerRZ 2 (-23)) = (2 ^ 23)%Z).
    { assert (H : 1 / powerRZ 2 (-23) = powerRZ 2 23).
      { rewrite <- (powerRZ_O 2) at 1. by rewrite pow2_div. }
      rewrite H. apply nearest_even_below. rewrite <- pow2_IZR by lia. lra. }
    rewrite Hm, <- pow2_IZR, <- pow2_add by lia. simpl powerRZ.
    destruct (Rle_dec _ _) as [Hover|_]; [by apply Hone in Hover | done].
Qed.
End Float32Facts.

Section DecayFacts.
Import Float32.
Local Open Scope R_scope.

Lemma exp_mult_nat (x : R) (n : nat) : exp (x * INR n) = exp x ^ n.
Proof.
  induction n as [|n IH].
  - simpl. rewrite Rmult_0_r. apply exp_0.
  - rewrite S_INR, Rmult_plus_distr_l, Rmult_1_r, exp_plus, IH. simpl. lra.
Qed.

(** A lower bound of the exponential from [1 + x <= exp x]: with
    [x = p / q], [exp (x * n) >= ((q + p) / q) ^ n]. *)
Lemma exp_rational_lower (p q k : Z) (n : nat) :
  (0 < q)%Z -> (0 <= p)%Z -> (0 <= k)%Z ->
  (2 ^ k * q ^ Z.of_nat n < (q + p) ^ Z.of_nat n)%Z ->
  powerRZ 2 k < exp (IZR p / IZR q * INR n).
Proof.
  intros Hq Hp Hk Hlt.
  assert (Hq' : 0 < IZR q) by (by apply IZR_lt).
  assert (Hp' : 0 <= IZR p) by (by apply IZR_le).
  rewrite exp_mult_nat.
  assert (Hbase : 0 <= IZR (q + p) / IZR q <= exp (IZR p / IZR q)).
  { rewrite plus_IZR. pose proof (exp_ineq1_le (IZR p / IZR q)) as H.
    replace ((IZR q + IZR p) / IZR q) with (1 + IZR p / IZR q) by (field; lra).
    split; [|done].
    assert (0 <= IZR p / IZR q); [|lra].
    unfold Rdiv. apply Rmult_le_pos; [done|]. left. by apply Rinv_0_lt_compat. }
  pose proof (pow_incr _ _ n Hbase) as Hpow.
  assert (Hqn : 0 < IZR q ^ n) by (by apply pow_lt).
  assert (Heq : (IZR (q + p) / IZR q) ^ n * IZR q ^ n = IZR (q + p) ^ n).
  { rewrite <- Rpow_mult_distr. f_equal. field. lra. }
  apply IZR_lt in Hlt. rewrite mult_IZR, <- !pow_IZR, <- pow2_IZR in Hlt by done.
  apply (Rmult_lt_reg_r (IZR q ^ n)); [done|].
  apply Rlt_le_trans with (IZR (q + p) ^ n); [done|].
  rewrite <- Heq. apply Rmult_le_compat_r; [lra | done].
Qed.

Lemma exp_neg_lt (a : R) (k : Z) : powerRZ 2 k < exp a -> exp (- a) < powerRZ 2 (- k).
Proof.
  intros Hlt. pose proof (pow2_pos k) as Hk. pose proof (pow2_pos (- k)) as Hk'.
  pose proof (exp_pos (- a)) as Ha'.
  assert (H1 : exp (- a) * exp a = 1) by (rewrite <- exp_plus, Rplus_opp_l; apply exp_0).
  assert (H2 : powerRZ 2 (- k) * powerRZ 2 k = 1).
  { rewrite <- pow2_add. replace (- k + k)%Z with 0%Z by lia. apply powerRZ_O. }
  apply (Rmult_lt_reg_r (powerRZ 2 k)); [done|]. rewrite H2, <- H1.
  apply Rmult_lt_compat_l; done.
Qed.

Lemma exp_20_lower : powerRZ 2 26 < exp 20.
Proof.
  replace 20 with (IZR 1 / IZR 8 * INR 160) by (simpl; lra).
  apply exp_rational_lower; [lia | lia | lia | by vm_compute].
Qed.

Lemma exp_5_lower : powerRZ 2 7 < exp 5.
Proof.
  replace 5 with (IZR 1 / IZR 32 * INR 160) by (simpl; lra).
  apply exp_rational_lower; [lia | lia | lia | by vm_compute].
Qed.

Lemma exp_128_lower : powerRZ 2 150 < exp 128.
Proof.
  replace 128 with (IZR 1 / IZR 4 * INR 512) by (simpl; lra).
  apply exp_rational_lower; [lia | lia | lia | by vm_compute].
Qed.

Lemma exp_monotone (x y : R) : x <= y -> exp x <= exp y.
Proof.
  intros [Hlt | ->]; [left; by apply exp_increasing | right; reflexivity].
Qed.

(** In exact arithmetic the decay lies strictly between 0 and 1. *)
Lemma exact_decay_bounds (v : R) : 0 < exp (- exp v) < 1.
Proof.
  split; [apply exp_pos|].
  rewrite <- exp_0. apply exp_increasing.
  pose proof (exp_pos v). lra.
Qed.

(** As computed, it lies between 0 and 1, the ends included. *)
Lemma decay_bounds (x : float32) :
  x <> NaN -> exists r, fexp (fneg (fexp x)) = Finite r /\ 0 <= r <= 1.
Proof.
  intros Hx. destruct x as [v| | |]; [| | |done].
  - cbn [fexp]. destruct (round_pos_cases (exp v) (exp_pos v)) as [-> | (y & -> & Hy)].
    + cbn [fneg fexp]. exists 0. split; [done | lra].
    + cbn [fneg fexp].
      destruct (round_le_pow2 (exp (- y)) 0) as (r & -> & Hr).
      * split; [apply exp_pos|]. rewrite powerRZ_O, <- exp_0.
        apply exp_monotone. lra.
      * lia.
      * exists r. split; [done|]. by rewrite powerRZ_O in Hr.
  - cbn [fexp fneg]. exists 0. split; [done | lra].
  - cbn [fexp fneg]. rewrite Ropp_0, exp_0. exists 1. split; [|lra].
    apply round_near_one. pose proof (pow2_pos (-25)). lra.
Qed.

(** Both ends are reached. *)
Lemma decay_one (v : R) : v <= -20 -> fexp (fneg (fexp (Finite v))) = Finite 1.
Proof.
  intros Hv. cbn [fexp].
  assert (Hsmall : exp v < powerRZ 2 (-26)).
  { apply Rle_lt_trans with (exp (- 20)); [by apply exp_monotone|].
    apply (exp_neg_lt 20 26), exp_20_lower. }
  destruct (round_le_pow2 (exp v) (-26)) as (y & -> & Hy0 & Hy).
  { split; [apply exp_pos | lra]. }
  { lia. }
  cbn [fneg fexp]. apply round_near_one.
  pose proof (pow2_lt (-26) (-25) ltac:(lia)).
  pose proof (exp_ineq1_le (- y)). split; [lra|].
  rewrite <- exp_0. apply exp_monotone. lra.
Qed.

Lemma decay_zero (v : R) : 5 <= v -> fexp (fneg (fexp (Finite v))) = Finite 0.
Proof.
  intros Hv. cbn [fexp].
  assert (Hbig : powerRZ 2 7 <= exp v).
  { apply Rle_trans with (exp 5); [left; apply exp_5_lower | by apply exp_monotone]. }
  destruct (round_ge_pow2 (exp v) 7 Hbig) as [-> | (y & -> & Hy)]; [lia | done |].
  cbn [fneg fexp]. apply round_tiny. split; [apply exp_pos|].
  apply Rle_lt_trans with (exp (- 128)).
  - apply exp_monotone. rewrite pow2_IZR in Hy by lia.
    change (IZR (2 ^ 7)) with 128 in Hy. lra.
  - apply (exp_neg_lt 128 150), exp_128_lower.
Qed.
End DecayFacts.

(** C5, as the code has it.  [eew] has the shape of [w], and its entry for
    an entry [x] of [w] is [exp(-exp(x))] computed in float32.  For every
    [x] that is not NaN that entry is a float between 0 and 1, the ends
    included.  For a finite [x], the exact value [exp(-exp(x))] lies
    strictly between 0 and 1, but the computed entry is exactly 1 for every
    [x <= -20] and exactly 0 for every [x >= 5]. *)
Theorem wkv_decay_in_unit_interval (w : list (list Float32.float32)) :
  Forall2
    (Forall2
       (fun (x d : Float32.float32) =>
          d = Float32.fexp (Float32.fneg (Float32.fexp x)) /\
          (x <> Float32.NaN ->
           exists r, d = Float32.Finite r /\ (0 <= r <= 1)%R) /\
          (forall v, x = Float32.Finite v ->
             (0 < exp (- exp v) < 1)%R /\
             ((v <= -20)%R -> d = Float32.Finite 1) /\
             ((5 <= v)%R -> d = Float32.Finite 0))))
    w (V51.eew w).
Proof.
  unfold V51.eew, V51.ew.
  induction w as [|row w IH]; [constructor|].
  cbn [map]. constructor; [|exact IH]. clear IH.
  induction row as [|x row IH]; [constructor|].
  cbn [map]. constructor; [|exact IH].
  split; [done|]. split; [by apply decay_bounds|].
  intros v ->. split; [apply exact_decay_bounds|].
  split; [apply decay_one | apply decay_zero].
Qed.

(** C5 as stated fails for the value handed to the kernel: in float32,
    [w = -20] gives a decay of exactly 1 and [w = 5] a decay of exactly 0,
    neither strictly inside the interval. *)
Lemma wkv_decay_reaches_bounds :
  V51.eew [[Float32.Finite (-20); Float32.Finite 5]]
  = [[Float32.Finite 1; Float32.Finite 0]] /\
  ~ Forall (Forall (fun d => exists r, d = Float32.Finite r /\ (0 < r < 1)%R))
      (V51.eew [[Float32.Finite (-20); Float32.Finite 5]]).
Proof.
  assert (H : V51.eew [[Float32.Finite (-20); Float32.Finite 5]]
              = [[Float32.Finite 1; Float32.Finite 0]]).
  { unfold V51.eew, V51.ew. cbn [map].
    rewrite decay_one by lra. rewrite decay_zero by lra. reflexivity. }
  split; [exact H|]. rewrite H. intros Hall.
  apply Forall_cons_1 in Hall as [Hrow _].
  apply Forall_cons_1 in Hrow as [(r & [= <-] & Hr) _]. lra.
Qed.

(** ** Rotational scanning (C8) *)

Lemma slice_assign_same {A} (t : list A) (start stop : option Z) :
  slice_assign t start stop (slice t start stop) = Ok t.
Proof.
  unfold slice_assign, slice.
  set (lo := match start with None => 0 | Some s => norm_index (len t) s end).
  set (hi := match stop with None => len t | Some s => norm_index (len t) s end).
  assert (Hlo : 0 <= lo <= len t).
  { subst lo. destruct start as [s|]; unfold norm_index, len;
      [destruct (Z.ltb_spec s 0)|]; lia. }
  assert (Hhi : 0 <= hi <= len t).
  { subst hi. destruct stop as [s|]; unfold norm_index, len;
      [destruct (Z.ltb_spec s 0)|]; lia. }
  unfold len in *.
  rewrite bool_decide_eq_true_2.
  - f_equal. rewrite <- (take_drop (Z.to_nat lo) t) at 4. f_equal.
    rewrite <- (take_drop (Z.to_nat (hi - lo)) (drop (Z.to_nat lo) t)) at 2.
    f_equal. by rewrite drop_drop.
  - rewrite length_take, length_drop. lia.
Qed.

(** With a single sample in the batch, the statement under [# rotate]
    leaves the hidden states as they are, whatever the span and the
    distance: [rotate_tensor] rotates the batch axis. *)
Lemma rotate_span_single_sample {V} (img_start img_end rotate_distance : Z)
    (row : list V) :
  V51.rotate_span img_start img_end rotate_distance [row] = Ok [row].
Proof.
  unfold V51.rotate_span, V51.rotate_tensor, V51.time_slice. simpl.
  assert (Hassign :
    V51.time_slice_assign [row] img_start img_end
      [slice row (Some img_start) (Some img_end)] = Ok [row]).
  { unfold V51.time_slice_assign. simpl. unfold mbind, result_bind.
    by rewrite slice_assign_same. }
  destruct (rotate_distance =? 0); [exact Hassign|].
  simpl. rewrite Z.mod_1_r. simpl. exact Hassign.
Qed.

(** C8 (the code departs from it).  The statement under [# rotate] turns
    the batch axis of the span, not its time axis: with one sample in the
    batch it leaves the hidden states as they are, whatever the span and
    the distance.  On one sample with a span of three positions a layer of
    [rotational_forward] so returns the span unchanged, where a rotation by
    a third of the span moves the last position to the front; on two
    samples it exchanges the spans of the two samples. *)
Theorem rotational_forward_rotates_batch_axis :
  (forall (img_start img_end rotate_distance : Z) (row : list Z),
     V51.rotate_span img_start img_end rotate_distance [row] = Ok [row])
  /\ V51.rotational_forward [fun x => x] (fun x => x) (fun x => x) (fun x => x)
       false 0 3 [[1; 2; 3]] = Ok [[1; 2; 3]]
  /\ span_rotated_by_third 0 3 [1; 2; 3] = [3; 1; 2]
  /\ V51.rotational_forward [fun x => x] (fun x => x) (fun x => x) (fun x => x)
       false 0 3 [[1; 2; 3]; [4; 5; 6]] = Ok [[4; 5; 6]; [1; 2; 3]].
Proof.
  split; [intros; apply rotate_span_single_sample|].
  split; [reflexivity|]. split; reflexivity.
Qed.

(** ** The contrastive alignment module *)

Lemma broadcast2_same_length {A B C} (f : A -> B -> result C) (g : A -> B -> C)
    (a : list A) (b : list B) :
  length a = length b ->
  (forall x y, (x, y) ∈ zip a b -> f x y = Ok (g x y)) ->
  V51_old.broadcast2 f a b = Ok (zip_with g a b).
Proof.
  intros Hlen Hf. unfold V51_old.broadcast2.
  rewrite bool_decide_eq_true_2 by done.
  rewrite (mapM_result_ok _ (fun xy => g xy.1 xy.2)).
  - f_equal. clear. revert b. induction a as [|x a IH]; intros [|y b]; simpl; try done.
    by rewrite IH.
  - intros [x y] Hxy. simpl. by apply Hf.
Qed.


Lemma text2vision_length (te vf : list (list (list R))) :
  length vf = length te ->
  length (V51_old.text2vision te vf) = length te.
Proof. intros H. unfold V51_old.text2vision. rewrite length_zip_with. lia. Qed.

(** The mask is only ever added to the text weights that are thrown away:
    the addition succeeds whenever the mask has the shape of the text. *)
Lemma mask_out_succeeds (te vf : list (list (list R))) (masks : list (list bool)) :
  length vf = length te ->
  Forall2 (fun (t : list (list R)) (m : list bool) => length m = length t) te masks ->
  exists discarded,
    V51_old.broadcast2 (V51_old.broadcast2 V51_old.mask_out)
      ((fun sample : list (list R) => V51_old.mean <$> sample)
         <$> V51_old.text2vision te vf) masks
    = Ok discarded.
Proof.
  intros Hvf Hshape. eexists.
  apply (broadcast2_same_length _
           (zip_with (fun (w : option R) (m : bool) =>
              (fun x => x + (if negb m then 1 else 0) * (-1000000000))%R <$> w))).
  - rewrite length_fmap, text2vision_length by done. by eapply Forall2_length.
  - intros row mrow Hin.
    apply broadcast2_same_length; [|intros; reflexivity].
    apply list_elem_of_lookup in Hin as [i Hi].
    apply lookup_zip_with_Some in Hi as (row' & mrow' & [= -> ->] & Hrow & Hm).
    rewrite list_lookup_fmap in Hrow.
    destruct (V51_old.text2vision te vf !! i) as [sims|] eqn:Hs; [|done].
    injection Hrow as <-. rewrite length_fmap.
    unfold V51_old.text2vision in Hs.
    apply lookup_zip_with_Some in Hs as (t & v & -> & Ht & Hv).
    rewrite length_fmap.
    symmetry. exact (Forall2_lookup_lr _ te masks i t mrow' Hshape Ht Hm).
Qed.


Lemma index_in_range {A} (l : list A) (i : Z) :
  0 <= i < len l -> exists a, index l i = Ok a /\ l !! Z.to_nat i = Some a.
Proof.
  unfold len. intros Hi. unfold index, len.
  destruct (Z.ltb_spec i 0) as [?|_]; [lia|].
  destruct (Z.leb_spec 0 i) as [_|?]; [|lia].
  destruct (Z.ltb_spec i (Z.of_nat (length l))) as [_|?]; [|lia]. simpl.
  destruct (lookup_lt_is_Some_2 l (Z.to_nat i)) as [a Ha]; [lia|].
  exists a. by rewrite Ha.
Qed.

Lemma finite_Some_length {A} (t : list (option A)) (l : list A) :
  V51_old.finite t = Some l -> length l = length t.
Proof. unfold V51_old.finite. intros H. by apply length_mapM in H. Qed.

Lemma finite_all_Some {A} (t : list (option A)) :
  Forall is_Some t -> is_Some (V51_old.finite t).
Proof.
  unfold V51_old.finite. intros H. apply mapM_is_Some.
  eapply List.Forall_impl; [|exact H]. done.
Qed.

Lemma mean_nonempty (l : list R) : l ≠ [] -> is_Some (V51_old.mean l).
Proof. destruct l; [done|]. intros _. by eexists. Qed.

Section AlignFacts.
Variable cfg : V51_old.config.

Lemma forward_unfold (st : V51_old.buffers)
    (text_embeds vision_embeds : list (list (list R))) (text_masks : list (list bool)) :
  V51_old.forward cfg st text_embeds vision_embeds text_masks =
    (vision_features <- V51_old.proj cfg vision_embeds;
     vision_neg_features <- V51_old.proj cfg (V51_old.vision_queue st);
     text <- V51_old.mask_text text_embeds text_masks;
     loss <- loss_of cfg (len text_embeds) text vision_features text_masks
               (V51_old.text_queue st) vision_neg_features;
     text_value <-
       V51_old.expand_as
         (slice (V51_old.text_queue st) (Some (V51_old.queue_ptr st))
            (Some (V51_old.queue_ptr st + len text_embeds)))
         text;
     text_queue' <-
       slice_assign (V51_old.text_queue st) (Some (V51_old.queue_ptr st))
         (Some (V51_old.queue_ptr st + len text_embeds)) text_value;
     vision_value <-
       V51_old.expand_as
         (slice (V51_old.vision_queue st) (Some (V51_old.queue_ptr st))
            (Some (V51_old.queue_ptr st + len text_embeds)))
         vision_embeds;
     vision_queue' <-
       slice_assign (V51_old.vision_queue st) (Some (V51_old.queue_ptr st))
         (Some (V51_old.queue_ptr st + len text_embeds)) vision_value;
     queue_ptr' <-
       (if V51_old.queue_size cfg =? 0 then Raise ZeroDivisionError
        else Ok ((V51_old.queue_ptr st + len text_embeds) `mod` V51_old.queue_size cfg));
     Ok (loss, V51_old.Buffers text_queue' vision_queue' queue_ptr')).
Proof. reflexivity. Qed.

(** [self.proj] returns on an input of the width of its weight, and what
    it returns is [projected]. *)
Lemma proj_ok (d : nat) (t : list (list (list R))) :
  Forall (fun w : list R => length w = d) (V51_old.proj_weight cfg) ->
  Forall (fun sample : list (list R) => Forall (fun x : list R => length x = d) sample) t ->
  V51_old.proj cfg t = Ok (projected cfg t).
Proof.
  intros Hw Ht. unfold V51_old.proj, projected.
  apply mapM_result_ok. intros sample Hs.
  rewrite list.Forall_forall in Ht. specialize (Ht sample Hs).
  apply mapM_result_ok. intros x Hx.
  rewrite list.Forall_forall in Ht. specialize (Ht x Hx).
  rewrite (proj2 (forallb_forall _ _)); [done|].
  intros w Hin. apply Nat.eqb_eq. apply list_elem_of_In in Hin.
  rewrite list.Forall_forall in Hw. rewrite (Hw w Hin). done.
Qed.


(** A mask of the shape of the text is not broadcast. *)
Lemma mask_text_ok (te : list (list (list R))) (masks : list (list bool)) :
  text_shaped te masks -> V51_old.mask_text te masks = Ok (masked_text te masks).
Proof.
  intros Hshape. unfold V51_old.mask_text, masked_text.
  apply broadcast2_same_length; [by eapply Forall2_length|].
  intros t m Hin. apply broadcast2_same_length; [|done].
  apply list_elem_of_lookup in Hin as [i Hi].
  apply lookup_zip_with_Some in Hi as (t' & m' & [= -> ->] & Ht & Hm).
  symmetry. exact (Forall2_lookup_lr _ te masks i t' m' Hshape Ht Hm).
Qed.

Lemma expand_same {A} (n : nat) (v : list A) :
  length v = n -> V51_old.expand n v = Ok v.
Proof. intros H. unfold V51_old.expand. by rewrite bool_decide_eq_true_2. Qed.

Lemma snd_zip_same {A B} (a : list A) (b : list B) :
  length a = length b -> (fun ab : A * B => ab.2) <$> zip a b = b.
Proof. intros H. apply snd_zip. lia. Qed.

(** A right-hand side of the shape of the target is taken as it is. *)
Lemma expand_as_same {A} (target value : list (list (list A))) :
  Forall2 (fun t v : list (list A) =>
             Forall2 (fun tv vv : list A => length vv = length tv) t v) target value ->
  V51_old.expand_as target value = Ok value.
Proof.
  intros H. unfold V51_old.expand_as.
  rewrite expand_same by (symmetry; by eapply Forall2_length). cbn [bind].
  rewrite (mapM_result_ok _ (fun tv => tv.2)).
  - f_equal. apply snd_zip_same. by eapply Forall2_length.
  - intros [t v] Hin. cbn [fst snd].
    apply list_elem_of_lookup in Hin as [i Hi].
    apply lookup_zip_with_Some in Hi as (t' & v' & [= -> ->] & Ht & Hv).
    pose proof (Forall2_lookup_lr _ _ _ i t' v' H Ht Hv) as Hrow.
    rewrite expand_same by (symmetry; by eapply Forall2_length). cbn [bind].
    rewrite (mapM_result_ok _ (fun tv => tv.2)).
    + f_equal. apply snd_zip_same. by eapply Forall2_length.
    + intros [tv vv] Hin. cbn [fst snd].
      apply list_elem_of_lookup in Hin as [j Hj].
      apply lookup_zip_with_Some in Hj as (a & b & [= -> ->] & Ha & Hb).
      apply expand_same. exact (Forall2_lookup_lr _ _ _ j a b Hrow Ha Hb).
Qed.


Lemma tensor3_same_shape (n t d : nat) (x y : list (list (list R))) :
  tensor3 n t d x -> tensor3 n t d y ->
  Forall2 (fun a b : list (list R) =>
             Forall2 (fun av bv : list R => length bv = length av) a b) x y.
Proof.
  intros [Hx Hxs] [Hy Hys].
  apply Forall2_same_length_lookup. split; [lia|].
  intros i a b Ha Hb.
  rewrite list.Forall_forall in Hxs, Hys.
  destruct (Hxs a (list_elem_of_lookup_2 _ _ _ Ha)) as [Hla Hav].
  destruct (Hys b (list_elem_of_lookup_2 _ _ _ Hb)) as [Hlb Hbv].
  apply Forall2_same_length_lookup. split; [lia|].
  intros j av bv Hav' Hbv'.
  rewrite list.Forall_forall in Hav, Hbv.
  rewrite (Hav av (list_elem_of_lookup_2 _ _ _ Hav')).
  rewrite (Hbv bv (list_elem_of_lookup_2 _ _ _ Hbv')). done.
Qed.

Lemma slice_window {A} (l : list A) (p : Z) (k : nat) :
  0 <= p -> p + Z.of_nat k <= len l ->
  slice l (Some p) (Some (p + Z.of_nat k)) = take k (drop (Z.to_nat p) l).
Proof.
  unfold len. intros Hp Hfit. unfold slice, norm_index, len.
  destruct (Z.ltb_spec p 0) as [?|_]; [lia|].
  destruct (Z.ltb_spec (p + Z.of_nat k) 0) as [?|_]; [lia|].
  rewrite (Z.min_l p), (Z.min_l (p + _)) by lia.
  f_equal. lia.
Qed.


Lemma tensor3_window (n t d : nat) (x : list (list (list R))) (p : Z) (k : nat) :
  tensor3 n t d x -> 0 <= p -> p + Z.of_nat k <= Z.of_nat n ->
  tensor3 k t d (slice x (Some p) (Some (p + Z.of_nat k))).
Proof.
  intros [Hx Hxs] Hp Hfit.
  rewrite slice_window by (unfold len; lia). split.
  - rewrite length_take, length_drop. lia.
  - by apply Forall_take, Forall_drop.
Qed.

Lemma tensor3_replace (n t d : nat) (x v : list (list (list R))) (p k : nat) :
  tensor3 n t d x -> tensor3 k t d v -> (p + k <= n)%nat ->
  tensor3 n t d (take p x ++ v ++ drop (p + k) x).
Proof.
  intros [Hx Hxs] [Hv Hvs] Hfit. split.
  - rewrite !length_app, length_take, length_drop. lia.
  - rewrite !Forall_app. split; [by apply Forall_take|].
    split; [done | by apply Forall_drop].
Qed.

Lemma batch_shaped_text (b : nat) (te ve : list (list (list R)))
    (masks : list (list bool)) :
  batch_shaped cfg b te ve masks ->
  length te = b /\ length ve = length te /\ text_shaped te masks.
Proof.
  intros ([Hte Htes] & [Hve _] & Hm & Hms). split; [done|]. split; [lia|].
  apply Forall2_same_length_lookup. split; [lia|].
  intros i t m Ht Hmi.
  rewrite list.Forall_forall in Htes. rewrite list.Forall_forall in Hms.
  destruct (Htes t (list_elem_of_lookup_2 _ _ _ Ht)) as [-> _].
  by apply Hms, (list_elem_of_lookup_2 _ i).
Qed.

Lemma masked_text_length (te : list (list (list R))) (masks : list (list bool)) :
  Forall2 (fun (t : list (list R)) (m : list bool) => length m = length t) te masks ->
  length (masked_text te masks) = length te /\
  Forall2 (fun (t : list (list R)) (m : list bool) => length m = length t)
    (masked_text te masks) masks.
Proof.
  intros H. unfold masked_text. induction H as [|t m te masks Hm H IH]; simpl.
  - split; [done | constructor].
  - destruct IH as [IH1 IH2]. split; [by rewrite IH1|].
    constructor; [|done]. rewrite length_zip_with. lia.
Qed.

Lemma masked_text_tensor3 (n t d : nat) (te : list (list (list R)))
    (masks : list (list bool)) :
  tensor3 n t d te -> length masks = n -> Forall (fun m : list bool => length m = t) masks ->
  tensor3 n t d (masked_text te masks).
Proof.
  intros [Hte Htes] Hm Hms. unfold masked_text. split.
  - rewrite length_zip_with. lia.
  - apply list.Forall_forall. intros sample Hin.
    apply list_elem_of_lookup in Hin as [i Hi].
    apply lookup_zip_with_Some in Hi as (s0 & m & -> & Hs & Hmi).
    rewrite list.Forall_forall in Htes. rewrite list.Forall_forall in Hms.
    destruct (Htes s0 (list_elem_of_lookup_2 _ _ _ Hs)) as [Hl Hv].
    pose proof (Hms m (list_elem_of_lookup_2 _ _ _ Hmi)) as Hlm.
    split; [rewrite length_zip_with; lia|].
    apply list.Forall_forall. intros v Hin.
    apply list_elem_of_lookup in Hin as [j Hj].
    apply lookup_zip_with_Some in Hj as (v0 & c & -> & Hv0 & _).
    rewrite length_fmap. rewrite list.Forall_forall in Hv.
    by apply Hv, (list_elem_of_lookup_2 _ j).
Qed.

Lemma proj_length (t : list (list (list R))) : length (projected cfg t) = length t.
Proof. unfold projected. by rewrite length_fmap. Qed.

Lemma cross_entropy_no_raise (logits : list (list R)) (labels : list Z) :
  (forall x y, (x, y) ∈ zip logits labels -> 0 <= y < len x) ->
  exists losses,
    V51_old.cross_entropy logits labels = Ok (V51_old.mean losses) /\
    length losses = length (zip logits labels).
Proof.
  intros Hrange. unfold V51_old.cross_entropy.
  destruct (mapM_result_exists
              (fun xy : list R * Z => V51_old.smoothed_nll xy.1 xy.2)
              (zip logits labels)) as [rs Hrs].
  { intros [x y] Hxy. specialize (Hrange x y Hxy). unfold V51_old.smoothed_nll.
    destruct (index_in_range (V51_old.log_softmax x) y) as (a & Ha & _).
    { unfold V51_old.log_softmax, len in *. by rewrite length_fmap. }
    simpl. rewrite Ha. by eexists. }
  rewrite Hrs. exists rs. split; [done|]. by apply mapM_result_length in Hrs.
Qed.

Lemma cross_entropy_finite (logits : list (list R)) (labels : list Z) :
  (forall x y, (x, y) ∈ zip logits labels -> 0 <= y < len x) ->
  zip logits labels ≠ [] ->
  exists r, V51_old.cross_entropy logits labels = Ok (Some r).
Proof.
  intros Hrange Hne.
  destruct (cross_entropy_no_raise logits labels Hrange) as (rs & -> & Hlen).
  destruct rs as [|r rs]; [|by eexists].
  destruct (zip logits labels); done.
Qed.
End AlignFacts.

Lemma range1_seqZ (n : Z) : range1 n = seqZ 0 n.
Proof.
  unfold range1, range3. simpl.
  replace (n - 0 + 1 - 1) with n by lia. rewrite Z.div_1_r.
  rewrite <- (list_fmap_id (seqZ 0 n)) at 2.
  apply list_fmap_ext. intros _ k _. simpl. lia.
Qed.

Section LossFacts.
Variable cfg : V51_old.config.
Hypothesis Hsupported : supported cfg.

Lemma text_shaped_ones (te : list (list (list R))) :
  text_shaped te
    ((fun sample : list (list R) => (fun _ : list R => true) <$> sample) <$> te).
Proof.
  apply Forall2_fmap_r, Forall_Forall2_diag, list.Forall_forall.
  intros t _. unfold compose. by rewrite length_fmap.
Qed.

Lemma pool_features_no_raise (te vf : list (list (list R)))
    (masks : option (list (list bool))) :
  length vf = length te ->
  match masks with Some m => text_shaped te m | None => True end ->
  exists p,
    V51_old.pool_features cfg te vf masks = Ok p /\
    forall tp vp, p = Some (tp, vp) -> length tp = length te /\ length vp = length te.
Proof.
  intros Hvf Hshape.
  set (m := match masks with
            | None => (fun sample : list (list R) => (fun _ : list R => true) <$> sample)
                        <$> te
            | Some m => m
            end).
  assert (Hm : text_shaped te m).
  { subst m. destruct masks; [done | apply text_shaped_ones]. }
  destruct Hsupported as [Hred|Hred].
  - eexists. split.
    + unfold V51_old.pool_features. rewrite Hred. simpl String.eqb. cbv iota.
      reflexivity.
    + fold m. intros tp vp Hp.
      destruct (mapM _ (zip _ m)) as [tp'|] eqn:Ht; [|done]. simpl in Hp.
      destruct (mapM _ vf) as [vp'|] eqn:Hv; [|done]. simpl in Hp.
      injection Hp as <- <-.
      apply length_mapM in Ht, Hv.
      rewrite length_zip, length_fmap in Ht.
      apply Forall2_length in Hm. lia.
  - destruct (mask_out_succeeds te vf m Hvf Hm) as [d Hd].
    eexists. split.
    + unfold V51_old.pool_features. rewrite Hred. simpl String.eqb. cbv iota.
      fold m. rewrite Hd. simpl bind. reflexivity.
    + intros tp vp Hp.
      destruct (V51_old.finite (_ <$> (_ <$> _))) as [tw|] eqn:Ht; [|done].
      simpl in Hp.
      destruct (V51_old.finite (_ <$> zip_with _ _ _)) as [vw|] eqn:Hv; [|done].
      simpl in Hp. injection Hp as <- <-.
      apply finite_Some_length in Ht, Hv.
      rewrite !length_fmap, text2vision_length in Ht by done.
      rewrite length_fmap, length_zip_with, text2vision_length in Hv by done.
      unfold V51_old.weighted_sum. rewrite !length_zip_with. lia.
Qed.

Lemma compute_in_batch_no_raise (te vf : list (list (list R)))
    (masks : list (list bool)) :
  length vf = length te -> text_shaped te masks ->
  exists loss, V51_old.compute_in_batch_constraive_loss cfg te vf (Some masks) = Ok loss.
Proof.
  intros Hvf Hshape. unfold V51_old.compute_in_batch_constraive_loss.
  destruct (pool_features_no_raise te vf (Some masks) Hvf Hshape) as (p & -> & Hlen).
  simpl bind. destruct p as [[tp vp]|]; [|by eexists].
  destruct (Hlen tp vp eq_refl) as [Htp Hvp].
  assert (Hlabels : forall (rows : list (list R)) (n : nat) x y,
    (forall r, r ∈ rows -> length r = n) -> length rows = n ->
    (x, y) ∈ zip rows (range1 (Z.of_nat n)) -> 0 <= y < len x).
  { intros rows n x y Hrows Hn Hin.
    apply list_elem_of_lookup in Hin as [i Hi].
    apply lookup_zip_with_Some in Hi as (x' & y' & [= <- <-] & Hx & Hy).
    rewrite range1_seqZ in Hy. apply lookup_seqZ in Hy as [-> Hi].
    unfold len. rewrite (Hrows x) by (by eapply list_elem_of_lookup_2). lia. }
  destruct (cross_entropy_no_raise
              ((fun t : list R => (fun v => V51_old.dot t v) <$> vp) <$> tp)
              (range1 (len te))) as (l1 & -> & _).
  { intros x y. apply (Hlabels _ (length te)).
    - intros r Hr. apply list_elem_of_fmap in Hr as (t & -> & _).
      by rewrite length_fmap.
    - by rewrite length_fmap. }
  destruct (cross_entropy_no_raise
              ((fun v : list R => (fun t => V51_old.dot v t) <$> tp) <$> vp)
              (range1 (len te))) as (l2 & -> & _).
  { intros x y. apply (Hlabels _ (length te)).
    - intros r Hr. apply list_elem_of_fmap in Hr as (t & -> & _).
      by rewrite length_fmap.
    - by rewrite length_fmap. }
  simpl. by eexists.
Qed.

(** The logits of the in-queue loss: one positive and the negatives. *)
Lemma in_queue_labels_in_range (rows : list (list R)) (n : nat) (x : list R) (y : Z)
    (pos : list R) :
  (x, y) ∈ zip (zip_with (fun p nn => p :: nn) pos rows) (replicate n 0) ->
  0 <= y < len x.
Proof.
  intros Hin. apply list_elem_of_lookup in Hin as [i Hi].
  apply lookup_zip_with_Some in Hi as (x' & y' & [= <- <-] & Hx & Hy).
  apply lookup_replicate in Hy as [-> _].
  apply lookup_zip_with_Some in Hx as (p & nn & -> & _ & _).
  unfold len. simpl. lia.
Qed.

Lemma compute_in_queue_no_raise (te vf : list (list (list R)))
    (masks : list (list bool)) (tq vq : list (list (list R))) :
  length vf = length te -> text_shaped te masks -> length vq = length tq ->
  exists loss,
    V51_old.compute_in_queue_constraive_loss cfg te vf (Some masks) tq vq = Ok loss.
Proof.
  intros Hvf Hshape Hq. unfold V51_old.compute_in_queue_constraive_loss.
  destruct (pool_features_no_raise te vf (Some masks) Hvf Hshape) as (p & -> & _).
  destruct (pool_features_no_raise tq vq None Hq I) as (q & -> & _).
  simpl bind. destruct p as [[tp vp]|]; [|by eexists].
  destruct q as [[tn vn]|]; [|by eexists].
  destruct (cross_entropy_no_raise
    (zip_with (fun p nn => p :: nn) (zip_with V51_old.dot tp vp)
       (zip_with app ((fun t : list R => (fun k => V51_old.dot t k) <$> vn) <$> tp)
          ((fun v : list R => (fun k => V51_old.dot v k) <$> tn) <$> vp)))
    (replicate (length te) 0)) as (l & -> & _); [|by eexists].
  intros x y. apply in_queue_labels_in_range.
Qed.

Lemma forward_loss_no_raise (st : V51_old.buffers)
    (te ve : list (list (list R))) (masks : list (list bool)) :
  length ve = length te -> text_shaped te masks ->
  length (V51_old.vision_queue st) = length (V51_old.text_queue st) ->
  exists loss, forward_loss cfg st te ve masks = Ok loss.
Proof.
  intros Hve Hshape Hq. unfold forward_loss, loss_of.
  destruct (masked_text_length te masks Hshape) as [Hlen Hshape'].
  assert (Hvf : length (projected cfg ve) = length (masked_text te masks))
    by (rewrite proj_length; lia).
  assert (Hq' : length (projected cfg (V51_old.vision_queue st))
                = length (V51_old.text_queue st))
    by (by rewrite proj_length).
  destruct (compute_in_queue_no_raise _ _ masks _ _ Hvf Hshape' Hq') as [lq Hlq].
  destruct (compute_in_batch_no_raise _ _ masks Hvf Hshape') as [lb Hlb].
  cbv zeta. rewrite Hlq, Hlb. simpl bind.
  destruct (negb _); by eexists.
Qed.
End LossFacts.

(** ** The ring buffer (C6) *)

Lemma slice_assign_window {A} (t v : list A) (p : Z) :
  0 <= p -> p + len v <= len t ->
  slice_assign t (Some p) (Some (p + len v)) v
  = Ok (take (Z.to_nat p) t ++ v ++ drop (Z.to_nat p + length v) t).
Proof.
  unfold len. intros Hp Hfit. unfold slice_assign, norm_index, len.
  destruct (Z.ltb_spec p 0) as [?|_]; [lia|].
  destruct (Z.ltb_spec (p + Z.of_nat (length v)) 0) as [?|_]; [lia|].
  rewrite (Z.min_l p), (Z.min_l (p + _)) by lia.
  replace (Z.to_nat (p + Z.of_nat (length v) - p)) with (length v) by lia.
  by rewrite bool_decide_eq_true_2.
Qed.

Lemma slice_assign_overflow {A} (t v : list A) (p : Z) :
  0 <= p <= len t -> len t < p + len v -> length v ≠ 1%nat ->
  slice_assign t (Some p) (Some (p + len v)) v = Raise RuntimeError_shape.
Proof.
  unfold len. intros Hp Hover Hv. unfold slice_assign, norm_index, len.
  destruct (Z.ltb_spec p 0) as [?|_]; [lia|].
  destruct (Z.ltb_spec (p + Z.of_nat (length v)) 0) as [?|_]; [lia|].
  rewrite (Z.min_l p), (Z.min_r (p + _)) by lia.
  rewrite bool_decide_eq_false_2 by lia.
  destruct v as [|a [|b v]]; done.
Qed.

Lemma slice_assign_rows {A} (t v : list A) (p : Z) (k : nat) :
  length v = k -> 0 <= p -> p + Z.of_nat k <= len t ->
  slice_assign t (Some p) (Some (p + Z.of_nat k)) v
  = Ok (take (Z.to_nat p) t ++ v ++ drop (Z.to_nat p + k) t).
Proof.
  intros <- Hp Hfit. by apply slice_assign_window.
Qed.

Section QueueFacts.
Variable cfg : V51_old.config.
Hypothesis Hsupported : supported cfg.
Hypothesis Hproj : proj_shaped cfg.



Lemma tensor3_widths (n t d : nat) (x : list (list (list R))) :
  tensor3 n t d x ->
  Forall (fun sample : list (list R) => Forall (fun v : list R => length v = d) sample) x.
Proof. intros [_ H]. eapply List.Forall_impl; [|exact H]. by intros sample [_ Hs]. Qed.

(** On a batch and buffers of the shapes of the module, [forward] passes
    lines 618-622 and goes on with the loss and the writes. *)
Lemma forward_shaped (st : V51_old.buffers) (b : nat)
    (te ve : list (list (list R))) (masks : list (list bool)) :
  batch_shaped cfg b te ve masks -> buffers_ok cfg st ->
  V51_old.forward cfg st te ve masks =
    (loss <- forward_loss cfg st te ve masks;
     text_value <-
       V51_old.expand_as
         (slice (V51_old.text_queue st) (Some (V51_old.queue_ptr st))
            (Some (V51_old.queue_ptr st + len te)))
         (masked_text te masks);
     text_queue' <-
       slice_assign (V51_old.text_queue st) (Some (V51_old.queue_ptr st))
         (Some (V51_old.queue_ptr st + len te)) text_value;
     vision_value <-
       V51_old.expand_as
         (slice (V51_old.vision_queue st) (Some (V51_old.queue_ptr st))
            (Some (V51_old.queue_ptr st + len te)))
         ve;
     vision_queue' <-
       slice_assign (V51_old.vision_queue st) (Some (V51_old.queue_ptr st))
         (Some (V51_old.queue_ptr st + len te)) vision_value;
     queue_ptr' <-
       (if V51_old.queue_size cfg =? 0 then Raise ZeroDivisionError
        else Ok ((V51_old.queue_ptr st + len te) `mod` V51_old.queue_size cfg));
     Ok (loss, V51_old.Buffers text_queue' vision_queue' queue_ptr')).
Proof.
  intros Hbatch (Htq & Hvq & Hptr).
  pose proof (batch_shaped_text cfg b te ve masks Hbatch) as (_ & _ & Hshape).
  destruct Hbatch as (Hte & Hve & _).
  rewrite forward_unfold.
  rewrite (proj_ok cfg (V51_old.vision_embed_dim cfg) ve (proj2 Hproj))
    by (by eapply tensor3_widths).
  cbn [bind].
  rewrite (proj_ok cfg (V51_old.vision_embed_dim cfg) _ (proj2 Hproj))
    by (by eapply tensor3_widths).
  cbn [bind]. rewrite (mask_text_ok te masks Hshape). reflexivity.
Qed.

Lemma forward_in_window (st : V51_old.buffers) (b : nat)
    (te ve : list (list (list R))) (masks : list (list bool)) :
  batch_shaped cfg b te ve masks -> buffers_ok cfg st ->
  V51_old.queue_ptr st + Z.of_nat b <= V51_old.queue_size cfg ->
  exists loss st',
    V51_old.forward cfg st te ve masks = Ok (loss, st') /\
    forward_loss cfg st te ve masks = Ok loss /\
    V51_old.text_queue st'
      = take (Z.to_nat (V51_old.queue_ptr st)) (V51_old.text_queue st)
          ++ masked_text te masks
          ++ drop (Z.to_nat (V51_old.queue_ptr st) + b) (V51_old.text_queue st) /\
    V51_old.vision_queue st'
      = take (Z.to_nat (V51_old.queue_ptr st)) (V51_old.vision_queue st)
          ++ ve
          ++ drop (Z.to_nat (V51_old.queue_ptr st) + b) (V51_old.vision_queue st) /\
    V51_old.queue_ptr st'
      = (V51_old.queue_ptr st + Z.of_nat b) `mod` V51_old.queue_size cfg /\
    buffers_ok cfg st'.
Proof.
  intros Hbatch Hst Hfit.
  pose proof (batch_shaped_text cfg b te ve masks Hbatch) as (Hb & Hve & Hshape).
  pose proof Hst as (Htq & Hvq & Hptr).
  pose proof Hbatch as (Hte3 & Hve3 & Hm & Hms).
  pose proof (masked_text_tensor3 _ _ _ te masks Hte3 Hm Hms) as Hmt3.
  destruct (forward_loss_no_raise cfg Hsupported st te ve masks Hve Hshape)
    as [loss Hloss]; [destruct Htq, Hvq; lia|].
  assert (Hlen : len te = Z.of_nat b) by (unfold len; lia).
  assert (Hmlen : length (masked_text te masks) = b) by apply Hmt3.
  assert (Hvlen : length ve = b) by lia.
  eexists loss, _. split; [|split; [exact Hloss|]].
  - rewrite (forward_shaped st b) by done. rewrite Hloss. cbn [bind].
    rewrite Hlen.
    rewrite (expand_as_same _ (masked_text te masks)).
    2:{ eapply tensor3_same_shape; [|exact Hmt3].
        eapply tensor3_window; [exact Htq | lia | lia]. }
    cbn [bind].
    rewrite (slice_assign_rows _ _ _ b Hmlen)
      by (destruct Htq; unfold len in *; lia).
    cbn [bind].
    rewrite (expand_as_same _ ve).
    2:{ eapply tensor3_same_shape; [|exact Hve3].
        eapply tensor3_window; [exact Hvq | lia | lia]. }
    cbn [bind].
    rewrite (slice_assign_rows _ _ _ b Hvlen)
      by (destruct Hvq; unfold len in *; lia).
    cbn [bind].
    destruct (Z.eqb_spec (V51_old.queue_size cfg) 0) as [?|_]; [lia|].
    cbn [bind]. reflexivity.
  - simpl. split; [done|]. split; [done|]. split; [done|].
    unfold buffers_ok. simpl.
    split; [apply tensor3_replace; [done | done | lia]|].
    split; [apply tensor3_replace; [done | done | lia]|].
    apply Z.mod_pos_bound. lia.
Qed.

End QueueFacts.







(** The shapes are checked where torch checks them: a text sample of two
    positions cannot be written into a queue of entries of one position,
    and a vision sample of width two is refused by [self.proj]. *)
Lemma forward_other_shape_raises :
  V51_old.forward cfg_three (V51_old.init cfg_three) [[[1%R]; [1%R]]] [[[1%R]]]
    [[true; true]]
  = Raise RuntimeError_shape /\
  V51_old.forward cfg_three (V51_old.init cfg_three) [[[1%R]]] [[[1%R; 2%R]]] [[true]]
  = Raise RuntimeError_shape.
Proof. split; vm_compute; reflexivity. Qed.

(** ** The in-queue loss alone (C7) *)

Lemma mapM_option_all {A B} (f : A -> option B) (l : list A) :
  (forall a, a ∈ l -> is_Some (f a)) -> is_Some (mapM f l).
Proof.
  intros H. apply mapM_is_Some, list.Forall_forall. intros a Ha. unfold compose. by apply H.
Qed.

Section FiniteLoss.
Variable cfg : V51_old.config.
Hypothesis Hsupported : supported cfg.

Lemma masked_mean_kept (s : list R) (m : list bool) :
  true ∈ m -> is_Some (V51_old.masked_mean s m).
Proof.
  intros Hm. unfold V51_old.masked_mean.
  assert (Hin : true ∈ filter (fun b : bool => b = true) m)
    by (by apply list_elem_of_filter).
  destruct (filter _ m) as [|b l]; [by apply not_elem_of_nil in Hin|].
  simpl. by eexists.
Qed.

Lemma pool_features_finite (te vf : list (list (list R)))
    (masks : option (list (list bool))) :
  length vf = length te ->
  match masks with Some m => text_shaped te m | None => True end ->
  poolable cfg te vf
    (match masks with
     | Some m => m
     | None => (fun sample : list (list R) => (fun _ : list R => true) <$> sample) <$> te
     end) ->
  exists tp vp,
    V51_old.pool_features cfg te vf masks = Ok (Some (tp, vp)) /\
    length tp = length te /\ length vp = length te.
Proof.
  intros Hvf Hshape (Hte & Hvf' & Hkept).
  destruct (pool_features_no_raise cfg Hsupported te vf masks Hvf Hshape)
    as (p & Hp & Hlen).
  enough (Hsome : is_Some p).
  { destruct Hsome as [[tp vp] ->]. exists tp, vp. split; [done|]. by apply Hlen. }
  revert Hp. unfold V51_old.pool_features.
  set (m := match masks with
            | None => (fun sample : list (list R) => (fun _ : list R => true) <$> sample)
                        <$> te
            | Some m => m
            end) in *.
  destruct Hsupported as [Hred|Hred]; rewrite Hred; simpl String.eqb; cbv iota.
  - intros [= <-].
    assert (Ht : is_Some (mapM (fun sm : list R * list bool =>
                                  V51_old.masked_mean sm.1 sm.2)
                            (zip (V51_old.vsum (V51_old.text_embed_dim cfg) <$> te) m))).
    { apply mapM_option_all. intros [s ms] Hin. simpl.
      apply masked_mean_kept.
      apply elem_of_zip_r in Hin.
      specialize (Hkept Hred). rewrite list.Forall_forall in Hkept. by apply Hkept. }
    assert (Hv : is_Some (mapM (V51_old.vmean (V51_old.text_embed_dim cfg)) vf)).
    { apply mapM_option_all. intros v Hin.
      rewrite list.Forall_forall in Hvf'. specialize (Hvf' v Hin).
      destruct v; [done|]. simpl. by eexists. }
    destruct Ht as [tp ->], Hv as [vp ->]. simpl. by eexists.
  - destruct (V51_old.broadcast2 _ _ m) as [d|e]; [|done]. simpl bind.
    intros [= <-].
    assert (Ht : is_Some (V51_old.finite
      ((fun ws : list (option R) => V51_old.softmax <$> V51_old.finite ws)
         <$> ((fun sample : list (list R) => V51_old.mean <$> sample)
                <$> V51_old.text2vision te vf)))).
    { apply finite_all_Some, list.Forall_forall. intros w Hw.
      apply list_elem_of_fmap in Hw as (ws & -> & Hws).
      apply list_elem_of_fmap in Hws as (sims & -> & Hsims).
      apply fmap_is_Some, finite_all_Some, list.Forall_forall. intros o Ho.
      apply list_elem_of_fmap in Ho as (row & -> & Hrow).
      apply mean_nonempty.
      unfold V51_old.text2vision in Hsims.
      apply list_elem_of_lookup in Hsims as [i Hi].
      apply lookup_zip_with_Some in Hi as (t & v & -> & Hti & Hvi).
      apply list_elem_of_fmap in Hrow as (tv & -> & _).
      rewrite list.Forall_forall in Hvf'.
      specialize (Hvf' v (list_elem_of_lookup_2 _ _ _ Hvi)).
      destruct v; done. }
    assert (Hv : is_Some (V51_old.finite
      ((fun ws : list (option R) => V51_old.softmax <$> V51_old.finite ws)
         <$> zip_with (fun (sims vf0 : list (list R)) =>
                         V51_old.mean <$> V51_old.columns (length vf0) sims)
               (V51_old.text2vision te vf) vf))).
    { apply finite_all_Some, list.Forall_forall. intros w Hw.
      apply list_elem_of_fmap in Hw as (ws & -> & Hws).
      apply list_elem_of_lookup in Hws as [i Hi].
      apply lookup_zip_with_Some in Hi as (sims & v & -> & Hsims & Hvi).
      apply fmap_is_Some, finite_all_Some, list.Forall_forall. intros o Ho.
      apply list_elem_of_fmap in Ho as (col & -> & Hcol).
      apply mean_nonempty.
      unfold V51_old.columns in Hcol.
      apply list_elem_of_fmap in Hcol as (j & -> & _).
      unfold V51_old.text2vision in Hsims.
      apply lookup_zip_with_Some in Hsims as (t & v' & -> & Hti & _).
      rewrite list.Forall_forall in Hte.
      specialize (Hte t (list_elem_of_lookup_2 _ _ _ Hti)).
      destruct t; done. }
    destruct Ht as [tw ->], Hv as [vw ->]. simpl. by eexists.
Qed.

Lemma compute_in_queue_finite (te vf : list (list (list R)))
    (masks : list (list bool)) (tq vq : list (list (list R))) :
  length vf = length te -> text_shaped te masks -> length vq = length tq ->
  te ≠ [] ->
  poolable cfg te vf masks ->
  poolable cfg tq vq
    ((fun sample : list (list R) => (fun _ : list R => true) <$> sample) <$> tq) ->
  exists r,
    V51_old.compute_in_queue_constraive_loss cfg te vf (Some masks) tq vq = Ok (Some r).
Proof.
  intros Hvf Hshape Hq Hne Hpool Hpoolq.
  unfold V51_old.compute_in_queue_constraive_loss.
  destruct (pool_features_finite te vf (Some masks) Hvf Hshape Hpool)
    as (tp & vp & -> & Htp & Hvp).
  destruct (pool_features_finite tq vq None Hq I Hpoolq) as (tn & vn & -> & _ & _).
  simpl bind.
  apply cross_entropy_finite.
  - intros x y. apply in_queue_labels_in_range.
  - destruct te as [|t te]; [done|].
    destruct tp as [|a tp]; [done|]. destruct vp as [|b vp]; [done|]. done.
Qed.
End FiniteLoss.





(** ** The embedding assembler *)

Lemma index_lookup {A} (l : list A) (i : nat) (a : A) :
  l !! i = Some a -> index l (Z.of_nat i) = Ok a.
Proof.
  intros Hl. pose proof (lookup_lt_Some _ _ _ Hl) as Hlt.
  destruct (index_in_range l (Z.of_nat i)) as (b & Hb & Hb'); [unfold len; lia|].
  rewrite Nat2Z.id, Hl in Hb'. by injection Hb' as <-.
Qed.

Lemma index_Ok_lookup {A} (l : list A) (i : nat) (a : A) :
  index l (Z.of_nat i) = Ok a -> l !! i = Some a.
Proof.
  unfold index, len. destruct (Z.ltb_spec (Z.of_nat i) 0) as [?|_]; [lia|].
  destruct (_ && _); [|done]. rewrite Nat2Z.id.
  destruct (l !! i); [|done]. by intros [= ->].
Qed.

Lemma foldM_raise_at {A B} (f : A -> B -> result A) (a : A) (pre post : list B) (b : B) :
  (forall a', is_ok (f a' b) = false) ->
  is_ok (foldM f a (pre ++ b :: post)) = false.
Proof.
  intros Hb. revert a. induction pre as [|x pre IH]; intros a; simpl.
  - specialize (Hb a). by destruct (f a b).
  - destruct (f a x); [apply IH | done].
Qed.

Lemma zip_seqZ_app {A} (k : Z) (l1 l2 : list A) :
  zip (seqZ k (len (l1 ++ l2))) (l1 ++ l2)
  = zip (seqZ k (len l1)) l1 ++ zip (seqZ (k + len l1) (len l2)) l2.
Proof.
  unfold len. rewrite length_app, Nat2Z.inj_add, seqZ_app by lia.
  rewrite zip_with_app; [done|]. rewrite length_seqZ. lia.
Qed.

Lemma zip_seqZ_cons {A} (k : Z) (a : A) (l : list A) :
  zip (seqZ k (len (a :: l))) (a :: l) = (k, a) :: zip (seqZ (k + 1) (len l)) l.
Proof.
  unfold len. simpl length. rewrite Nat2Z.inj_succ, seqZ_cons by lia.
  simpl. do 3 f_equal; lia.
Qed.

Section AssemblerFacts.
Context {V : Type}.
Variable emb : Z -> V.
Variable vzero : V.

(** A sample with two or more placeholders: the body of the loop raises
    the [ValueError] with the number of placeholders. *)
Lemma splice_sample_too_many (max_idx : Z) (labels : list (list Z))
    (image_features : list (list V)) (idx : nat) (ids cur_labels : list Z) :
  2 <= V51.num_images ids -> labels !! idx = Some cur_labels ->
  V51.splice_sample emb vzero max_idx labels image_features (Z.of_nat idx) ids
  = Raise (ValueError_too_many_images (V51.num_images ids)).
Proof.
  intros Hn Hl. unfold V51.splice_sample.
  rewrite (index_lookup _ _ _ Hl). cbn [bind].
  destruct (Z.eqb_spec (V51.num_images ids) 0) as [?|_]; [lia|].
  destruct (Z.eqb_spec (V51.num_images ids) 1) as [?|_]; [lia|]. done.
Qed.

Lemma splice_sample_old_too_many (labels : list (list Z))
    (image_features : list (list V)) (idx : Z) (ids : list Z) :
  2 <= V51.num_images ids ->
  V51_old.splice_sample emb labels image_features idx ids
  = Raise (ValueError_too_many_images (V51.num_images ids)).
Proof.
  intros Hn. unfold V51_old.splice_sample.
  destruct (Z.eqb_spec (V51.num_images ids) 0) as [?|_]; [lia|].
  destruct (Z.eqb_spec (V51.num_images ids) 1) as [?|_]; [lia|]. done.
Qed.

Lemma splice_sample_raises (max_idx : Z) (labels : list (list Z))
    (image_features : list (list V)) (idx : Z) (ids : list Z) :
  2 <= V51.num_images ids ->
  is_ok (V51.splice_sample emb vzero max_idx labels image_features idx ids) = false.
Proof.
  intros Hn. unfold V51.splice_sample.
  destruct (index labels idx); [|done]. cbn [bind].
  destruct (Z.eqb_spec (V51.num_images ids) 0) as [?|_]; [lia|].
  destruct (Z.eqb_spec (V51.num_images ids) 1) as [?|_]; [lia|]. done.
Qed.

(** A batch with such a sample: the call has no result. *)
Lemma preparing_embedding_raises (ctx_len : Z) (input_ids labels : list (list Z))
    (image_features : list (list V)) (truncate : bool) (ids : list Z) :
  ids ∈ input_ids -> 2 <= V51.num_images ids ->
  is_ok (V51.preparing_embedding emb vzero ctx_len input_ids labels image_features
           truncate) = false
  /\ is_ok (V51_old.preparing_embedding emb vzero ctx_len input_ids labels
              image_features truncate) = false.
Proof.
  intros Hin Hn.
  apply list_elem_of_split in Hin as (pre & post & ->).
  split.
  - unfold V51.preparing_embedding.
    destruct (V51.get_max_image_token_indice _) as [m|e]; [|done]. cbn [bind].
    unfold V51.splice_samples. rewrite zip_seqZ_app, zip_seqZ_cons.
    match goal with
    | |- context [foldM ?f ?a (?l1 ++ ?b :: ?l2)] =>
        pose proof (foldM_raise_at f a l1 l2 b) as Hr
    end.
    destruct (foldM _ _ _); [|done]. simpl in Hr. exfalso.
    assert (true = false); [|done]. apply Hr.
    intros [[e l] feats].
    pose proof (splice_sample_raises m labels feats (0 + len pre) ids Hn) as Hs.
    by destruct (V51.splice_sample _ _ _ _ _ _ _).
  - unfold V51_old.preparing_embedding.
    unfold V51_old.splice_samples. rewrite zip_seqZ_app, zip_seqZ_cons.
    match goal with
    | |- context [foldM ?f ?a (?l1 ++ ?b :: ?l2)] =>
        pose proof (foldM_raise_at f a l1 l2 b) as Hr
    end.
    destruct (foldM _ _ _); [|done]. simpl in Hr. exfalso.
    assert (true = false); [|done]. apply Hr.
    intros [e l].
    by rewrite (splice_sample_old_too_many labels image_features (0 + len pre) ids Hn).
Qed.
End AssemblerFacts.

Section SpliceFacts.
Context {V : Type}.
Variable emb : Z -> V.
Variable vzero : V.

Lemma index_insert_same {A} (l : list A) (i : nat) (a b : A) :
  l !! i = Some a -> index (<[i := b]> l) (Z.of_nat i) = Ok b.
Proof.
  intros Hl. apply index_lookup, list_lookup_insert_eq.
  by eapply lookup_lt_Some.
Qed.

(** A sample without a placeholder, as the loop of v5.1 merges it. *)
Lemma splice_sample_no_image (max_idx : Z) (labels : list (list Z))
    (image_features : list (list V)) (idx : nat) (ids cur_labels : list Z)
    (row : list V) :
  V51.num_images ids = 0 ->
  labels !! idx = Some cur_labels -> image_features !! idx = Some row ->
  V51.splice_sample emb vzero max_idx labels image_features (Z.of_nat idx) ids
  = Ok ((emb <$> replicate (Z.to_nat max_idx) 0)
          ++ replicate (length row) vzero ++ (emb <$> ids),
        replicate (Z.to_nat max_idx) IGNORE_INDEX
          ++ replicate (length row) IGNORE_INDEX ++ cur_labels,
        <[idx := replicate (length row) vzero]> image_features).
Proof.
  intros Hn Hl Hf. unfold V51.splice_sample.
  rewrite (index_lookup _ _ _ Hl). cbn [bind]. rewrite Hn. simpl Z.eqb. cbv iota.
  rewrite (index_lookup _ _ _ Hf). cbn [bind]. rewrite Nat2Z.id.
  rewrite (index_insert_same _ _ row) by done. cbn [bind].
  by rewrite length_replicate.
Qed.

(** The body of the loop touches no other row of [image_features]. *)
Lemma splice_sample_other_rows (max_idx : Z) (labels : list (list Z))
    (image_features feats' : list (list V)) (idx : nat) (ids : list Z)
    (e : list V) (l : list Z) :
  V51.splice_sample emb vzero max_idx labels image_features (Z.of_nat idx) ids
  = Ok (e, l, feats') ->
  forall r, r ≠ idx -> feats' !! r = image_features !! r.
Proof.
  unfold V51.splice_sample. intros H r Hr.
  destruct (index labels _); [|done]. cbn [bind] in H.
  destruct (V51.num_images ids =? 0).
  - destruct (index image_features _); [|done]. cbn [bind] in H.
    destruct (index _ _); [|done]. cbn [bind] in H.
    injection H as _ _ <-. rewrite Nat2Z.id. by apply list_lookup_insert_ne.
  - destruct (V51.num_images ids =? 1); [|done].
    destruct (V51.image_token_indice ids); [|done]. cbn [bind] in H.
    destruct (slice_assign _ _ _ _); [|done]. cbn [bind] in H.
    destruct (slice_assign _ _ _ _); [|done]. cbn [bind] in H.
    destruct (index image_features _); [|done]. cbn [bind] in H.
    by injection H as _ _ <-.
Qed.

Lemma splice_samples_lookup (max_idx : Z) (labels : list (list Z))
    (rest : list (list Z)) :
  forall (k : nat) (E : list (list V)) (L : list (list Z)) (cur : list (list V))
         E' L' cur',
    foldM
      (fun '(new_input_embeds, new_labels, image_features) '(idx, cur_input_ids) =>
         '(e, l, image_features) <-
           V51.splice_sample emb vzero max_idx labels image_features idx cur_input_ids;
         Ok (new_input_embeds ++ [e], new_labels ++ [l], image_features))
      (E, L, cur) (zip (seqZ (Z.of_nat k) (len rest)) rest) = Ok (E', L', cur') ->
    length E = k -> length L = k ->
    (forall r, (r < k)%nat ->
       E' !! r = E !! r /\ L' !! r = L !! r /\ cur' !! r = cur !! r) /\
    (forall j ids, rest !! j = Some ids ->
       exists curj e l curj',
         curj !! (k + j)%nat = cur !! (k + j)%nat /\
         V51.splice_sample emb vzero max_idx labels curj (Z.of_nat (k + j)) ids
         = Ok (e, l, curj') /\
         E' !! (k + j)%nat = Some e /\ L' !! (k + j)%nat = Some l /\
         cur' !! (k + j)%nat = curj' !! (k + j)%nat).
Proof.
  induction rest as [|a rest IH]; intros k E L cur E' L' cur' Hfold HE HL.
  - simpl in Hfold. injection Hfold as <- <- <-. split; [done|]. intros j ids Hj. done.
  - rewrite zip_seqZ_cons in Hfold. cbn [foldM] in Hfold.
    destruct (V51.splice_sample emb vzero max_idx labels cur (Z.of_nat k) a)
      as [[[e l] cur1]|err] eqn:Hs; [|done].
    cbn [bind] in Hfold.
    replace (Z.of_nat k + 1) with (Z.of_nat (S k)) in Hfold by lia.
    destruct (IH (S k) (E ++ [e]) (L ++ [l]) cur1 E' L' cur' Hfold) as [Hlow Hrest].
    { rewrite length_app. simpl. lia. }
    { rewrite length_app. simpl. lia. }
    pose proof (splice_sample_other_rows _ _ _ _ _ _ _ _ Hs) as Hother.
    split.
    + intros r Hr. destruct (Hlow r) as (H1 & H2 & H3); [lia|].
      rewrite H1, H2, H3, !lookup_app_l by lia.
      repeat split; try done. apply Hother. lia.
    + intros [|j] ids Hj.
      * simpl in Hj. injection Hj as ->.
        exists cur, e, l, cur1. rewrite Nat.add_0_r.
        destruct (Hlow k) as (H1 & H2 & H3); [lia|].
        rewrite H1, H2, H3.
        rewrite !lookup_app_r by lia. rewrite HE, HL, Nat.sub_diag. done.
      * simpl in Hj. destruct (Hrest j ids Hj) as (curj & e' & l' & curj' & Hc & Hrun & H1 & H2 & H3).
        replace (k + S j)%nat with (S k + j)%nat by lia.
        exists curj, e', l', curj'. repeat split; try done.
        rewrite Hc. apply Hother. lia.
Qed.

Lemma splice_samples_old_lookup (labels : list (list Z))
    (image_features : list (list V)) (rest : list (list Z)) :
  forall (k : nat) (E : list (list V)) (L : list (list Z)) E' L',
    foldM
      (fun '(new_input_embeds, new_labels) '(idx, cur_input_ids) =>
         '(e, l) <- V51_old.splice_sample emb labels image_features idx cur_input_ids;
         Ok (new_input_embeds ++ [e], new_labels ++ [l]))
      (E, L) (zip (seqZ (Z.of_nat k) (len rest)) rest) = Ok (E', L') ->
    length E = k -> length L = k ->
    (forall r, (r < k)%nat -> E' !! r = E !! r /\ L' !! r = L !! r) /\
    (forall j ids, rest !! j = Some ids ->
       exists e l,
         V51_old.splice_sample emb labels image_features (Z.of_nat (k + j)) ids
         = Ok (e, l) /\
         E' !! (k + j)%nat = Some e /\ L' !! (k + j)%nat = Some l).
Proof.
  induction rest as [|a rest IH]; intros k E L E' L' Hfold HE HL.
  - simpl in Hfold. injection Hfold as <- <-. split; [done|]. intros j ids Hj. done.
  - rewrite zip_seqZ_cons in Hfold. cbn [foldM] in Hfold.
    destruct (V51_old.splice_sample emb labels image_features (Z.of_nat k) a)
      as [[e l]|err] eqn:Hs; [|done].
    cbn [bind] in Hfold.
    replace (Z.of_nat k + 1) with (Z.of_nat (S k)) in Hfold by lia.
    destruct (IH (S k) (E ++ [e]) (L ++ [l]) E' L' Hfold) as [Hlow Hrest].
    { rewrite length_app. simpl. lia. }
    { rewrite length_app. simpl. lia. }
    split.
    + intros r Hr. destruct (Hlow r) as (H1 & H2); [lia|].
      by rewrite H1, H2, !lookup_app_l by lia.
    + intros [|j] ids Hj.
      * simpl in Hj. injection Hj as ->.
        exists e, l. rewrite Nat.add_0_r.
        destruct (Hlow k) as (H1 & H2); [lia|].
        rewrite H1, H2.
        rewrite !lookup_app_r by lia. rewrite HE, HL, Nat.sub_diag. done.
      * simpl in Hj. destruct (Hrest j ids Hj) as (e' & l' & Hrun & H1 & H2).
        replace (k + S j)%nat with (S k + j)%nat by lia.
        by exists e', l'.
Qed.
End SpliceFacts.

Lemma slice_assign_whole {A} (a : A) (v : list A) :
  slice_assign (replicate (length v) a) None (Some (len v)) v = Ok v.
Proof.
  unfold slice_assign, norm_index, len. rewrite length_replicate.
  destruct (Z.ltb_spec (Z.of_nat (length v)) 0) as [?|_]; [lia|].
  rewrite Z.min_id, Z.sub_0_r, Nat2Z.id.
  rewrite bool_decide_eq_true_2 by done. simpl.
  rewrite drop_ge by (rewrite length_replicate; lia).
  by rewrite app_nil_r.
Qed.

(** A batch of one sample, right-padded to its own length. *)
Lemma pad_right_single {V} (vzero : V) (e : list V) (l : list Z) :
  length l = length e ->
  V51.pad_right vzero (len e) [e] [l] = Ok ([e], [l]).
Proof.
  intros Hl. unfold V51.pad_right. simpl. unfold mbind, result_bind, mret, result_ret.
  unfold len at 1 3. rewrite Nat2Z.id.
  rewrite slice_assign_whole. cbn [bind].
  rewrite <- Hl. replace (len e) with (len l) by (unfold len; lia).
  rewrite slice_assign_whole. reflexivity.
Qed.

(** A batch of one sample without a placeholder, through the whole of
    [preparing_embedding] of both versions. *)
Lemma preparing_embedding_single_no_image {V} (emb : Z -> V) (vzero : V) (ctx_len : Z)
    (ids cur_labels : list Z) (row : list V) :
  V51.num_images ids = 0 -> length cur_labels = length ids ->
  V51.preparing_embedding emb vzero ctx_len [ids] [cur_labels] [row] false
  = Ok (V51.Prepared
          [replicate (length row) vzero ++ (emb <$> ids)]
          [replicate (length row) IGNORE_INDEX ++ cur_labels]
          [replicate (length row) vzero] 0 (len row - 1))
  /\ V51_old.preparing_embedding emb vzero ctx_len [ids] [cur_labels] [row] false
     = Ok ([emb <$> ids], [cur_labels]).
Proof.
  intros Hn Hl. split.
  - unfold V51.preparing_embedding, V51.get_max_image_token_indice. cbn [foldM].
    rewrite Hn. simpl Z.eqb. cbv iota. cbn [bind].
    unfold V51.splice_samples. change (len [ids]) with 1.
    change (zip (seqZ 0 1) [ids]) with [(0, ids)]. cbn [foldM].
    pose proof (splice_sample_no_image emb vzero 0 [cur_labels] [row] 0 ids cur_labels
                  row Hn eq_refl eq_refl) as Hs.
    change (Z.of_nat 0) with 0 in Hs. rewrite Hs.
    cbn [bind]. simpl.
    rewrite pad_right_single; [done|].
    rewrite !length_app, !length_replicate, length_fmap. lia.
  - unfold V51_old.preparing_embedding, V51_old.splice_samples.
    change (len [ids]) with 1. change (zip (seqZ 0 1) [ids]) with [(0, ids)].
    cbn [foldM]. unfold V51_old.splice_sample. rewrite Hn. simpl Z.eqb. cbv iota.
    simpl. rewrite pad_right_single; [done|]. by rewrite length_fmap.
Qed.


(** C3, as the code has it.  For a sample without a placeholder, the loop
    of v5.1 yields [max_image_token_indice] embeddings of the token 0, then
    as many zero vectors as the sample has image features, then the
    embeddings of the text; the labels of those leading positions are
    [IGNORE_INDEX] and the labels of the text follow unchanged; and the
    image features of the sample are zero afterwards.  The loop of v5.1_old
    yields the embeddings of the text and its labels, nothing else.  A
    batch of that one sample goes through [preparing_embedding] without an
    error and comes out so. *)
Theorem splice_sample_without_image {V : Type} (emb : Z -> V) (vzero : V)
    (max_idx : Z) (input_ids labels : list (list Z)) (image_features : list (list V))
    (i : nat) (ids cur_labels : list Z) :
  input_ids !! i = Some ids -> labels !! i = Some cur_labels ->
  V51.num_images ids = 0 ->
  (forall embeds labels' feats',
     V51.splice_samples emb vzero max_idx input_ids labels image_features
     = Ok (embeds, labels', feats') ->
     exists row,
       image_features !! i = Some row /\
       embeds !! i = Some ((emb <$> replicate (Z.to_nat max_idx) 0)
                             ++ replicate (length row) vzero ++ (emb <$> ids)) /\
       labels' !! i = Some (replicate (Z.to_nat max_idx + length row) IGNORE_INDEX
                              ++ cur_labels) /\
       feats' !! i = Some (replicate (length row) vzero)) /\
  (forall embeds labels',
     V51_old.splice_samples emb input_ids labels image_features = Ok (embeds, labels') ->
     embeds !! i = Some (emb <$> ids) /\ labels' !! i = Some cur_labels) /\
  (length cur_labels = length ids ->
   forall (ctx_len : Z) (row : list V),
     V51.preparing_embedding emb vzero ctx_len [ids] [cur_labels] [row] false
     = Ok (V51.Prepared
             [replicate (length row) vzero ++ (emb <$> ids)]
             [replicate (length row) IGNORE_INDEX ++ cur_labels]
             [replicate (length row) vzero] 0 (len row - 1))
     /\ V51_old.preparing_embedding emb vzero ctx_len [ids] [cur_labels] [row] false
        = Ok ([emb <$> ids], [cur_labels])).
Proof.
  intros Hids Hl Hn. split; [|split].
  - intros embeds labels' feats' Hrun. unfold V51.splice_samples in Hrun.
    destruct (splice_samples_lookup emb vzero max_idx labels input_ids 0 [] []
                image_features embeds labels' feats' Hrun eq_refl eq_refl) as [_ Hat].
    destruct (Hat i ids Hids) as (curj & e & l & curj' & Hc & Hs & He & Hl' & Hf).
    simpl in Hc, Hs, He, Hl', Hf.
    destruct (curj !! i) as [row|] eqn:Hrow.
    + rewrite (splice_sample_no_image emb vzero max_idx labels curj i ids cur_labels row)
        in Hs by done.
      injection Hs as <- <- <-. exists row. split; [done|]. split; [done|].
      split.
      * rewrite Hl'. by rewrite replicate_add, <- app_assoc.
      * rewrite Hf. apply list_lookup_insert_eq. by eapply lookup_lt_Some.
    + unfold V51.splice_sample in Hs. rewrite (index_lookup _ _ _ Hl) in Hs.
      cbn [bind] in Hs. rewrite Hn in Hs. simpl Z.eqb in Hs. cbv iota in Hs.
      destruct (index curj (Z.of_nat i)) as [row|] eqn:Hi; [|done].
      apply index_Ok_lookup in Hi. congruence.
  - intros embeds labels' Hrun. unfold V51_old.splice_samples in Hrun.
    destruct (splice_samples_old_lookup emb labels image_features input_ids 0 [] []
                embeds labels' Hrun eq_refl eq_refl) as [_ Hat].
    destruct (Hat i ids Hids) as (e & l & Hs & He & Hl').
    simpl in Hs, He, Hl'. unfold V51_old.splice_sample in Hs.
    rewrite Hn in Hs. simpl Z.eqb in Hs. cbv iota in Hs.
    rewrite (index_lookup _ _ _ Hl) in Hs. cbn [bind] in Hs.
    by injection Hs as <- <-.
  - intros Hlen ctx_len row. by apply preparing_embedding_single_no_image.
Qed.

(** ** More than one placeholder (C4) *)

Lemma image_token_indice_found (ids : list Z) :
  1 <= V51.num_images ids ->
  exists i : nat, V51.image_token_indice ids = Ok (Z.of_nat i) /\ (i < length ids)%nat.
Proof.
  unfold V51.num_images, V51.image_token_indice, len. intros Hn.
  destruct (filter (fun t => t = IMAGE_TOKEN_INDEX) ids) as [|x l] eqn:Hf;
    [simpl in Hn; lia|].
  assert (Hx : x ∈ filter (fun t => t = IMAGE_TOKEN_INDEX) ids) by (rewrite Hf; left).
  apply list_elem_of_filter in Hx as [Hx Hin].
  destruct (list_find_elem_of (fun t => t = IMAGE_TOKEN_INDEX) ids x Hin Hx)
    as [[i y] Hfind].
  rewrite Hfind. exists i. split; [done|].
  apply list_find_Some in Hfind as (Hi & _ & _). by eapply lookup_lt_Some.
Qed.

Lemma get_max_image_token_indice_bound (input_ids : list (list Z)) :
  exists m,
    V51.get_max_image_token_indice input_ids = Ok m /\ 0 <= m /\
    forall s i, s ∈ input_ids -> V51.num_images s = 1 ->
                V51.image_token_indice s = Ok i -> i <= m.
Proof.
  unfold V51.get_max_image_token_indice.
  enough (Hgen : forall a, 0 <= a -> exists m,
    foldM
      (fun max_image_token_indice cur_input_ids =>
         if V51.num_images cur_input_ids =? 1 then
           i <- V51.image_token_indice cur_input_ids;
           Ok (Z.max max_image_token_indice i)
         else Ok max_image_token_indice) a input_ids = Ok m /\ a <= m /\
    forall s i, s ∈ input_ids -> V51.num_images s = 1 ->
                V51.image_token_indice s = Ok i -> i <= m).
  { destruct (Hgen 0) as (m & H1 & H2 & H3); [lia|]. exists m. auto. }
  induction input_ids as [|s l IH]; intros a Ha.
  - exists a. split; [done|]. split; [lia|]. intros s i Hs. by apply not_elem_of_nil in Hs.
  - cbn [foldM]. destruct (Z.eqb_spec (V51.num_images s) 1) as [H1|H1].
    + destruct (image_token_indice_found s) as (i & Hi & _); [lia|].
      rewrite Hi. cbn [bind].
      destruct (IH (Z.max a (Z.of_nat i))) as (m & Hm & Hle & Hall); [lia|].
      exists m. split; [done|]. split; [lia|].
      intros s' i' Hs' Hn' Hi'. apply elem_of_cons in Hs' as [->|Hs'].
      * rewrite Hi in Hi'. injection Hi' as <-. lia.
      * by eapply Hall.
    + destruct (IH a Ha) as (m & Hm & Hle & Hall).
      exists m. split; [done|]. split; [done|].
      intros s' i' Hs' Hn' Hi'. apply elem_of_cons in Hs' as [->|Hs']; [done|].
      by eapply Hall.
Qed.

Lemma slice_assign_tail {A} (t v : list A) (i : Z) :
  0 < i <= len t -> len v = i ->
  slice_assign t (Some (- i)) None v = Ok (take (length t - length v) t ++ v).
Proof.
  unfold len. intros Hi Hv. unfold slice_assign, norm_index, len.
  destruct (Z.ltb_spec (- i) 0) as [_|?]; [|lia].
  rewrite Z.max_r by lia.
  rewrite bool_decide_eq_true_2 by lia.
  f_equal. rewrite drop_ge by lia. rewrite app_nil_r. do 2 f_equal. lia.
Qed.

Section TooMany.
Context {V : Type}.
Variable emb : Z -> V.
Variable vzero : V.

Lemma splice_sample_spliceable (max_idx : Z) (labels : list (list Z))
    (image_features : list (list V)) (idx : nat) (ids cur_labels : list Z) :
  labels !! idx = Some cur_labels -> spliceable ids cur_labels ->
  (idx < length image_features)%nat ->
  (forall i, V51.num_images ids = 1 -> V51.image_token_indice ids = Ok i -> i <= max_idx) ->
  exists e l feats',
    V51.splice_sample emb vzero max_idx labels image_features (Z.of_nat idx) ids
    = Ok (e, l, feats') /\ length feats' = length image_features.
Proof.
  intros Hl [Hlen Hcount] Hidx Hmax.
  destruct (lookup_lt_is_Some_2 image_features idx Hidx) as [row Hrow].
  destruct Hcount as [H0|[H1 Hfirst]].
  - rewrite (splice_sample_no_image emb vzero max_idx labels image_features idx ids
               cur_labels row) by done.
    do 3 eexists. split; [done|]. by rewrite length_insert.
  - destruct (image_token_indice_found ids) as (i & Hi & Hlt); [lia|].
    assert (Hpos : 0 < Z.of_nat i) by (destruct i; [done | lia]).
    specialize (Hmax _ H1 Hi).
    unfold V51.splice_sample.
    rewrite (index_lookup _ _ _ Hl). cbn [bind]. rewrite H1. simpl Z.eqb. cbv iota.
    rewrite Hi. cbn [bind].
    rewrite !slice_assign_tail;
      [| unfold len; rewrite ?length_replicate, ?slice_leading, ?length_take by lia; lia ..].
    cbn [bind]. rewrite (index_lookup _ _ _ Hrow). cbn [bind].
    by do 3 eexists.
Qed.

Lemma splice_samples_prefix (max_idx : Z) (labels : list (list Z)) (pre : list (list Z)) :
  (forall s i, s ∈ pre -> V51.num_images s = 1 ->
               V51.image_token_indice s = Ok i -> i <= max_idx) ->
  forall (k : nat) (E : list (list V)) (L : list (list Z)) (cur : list (list V)),
    (forall j s, pre !! j = Some s ->
       exists lbl, labels !! (k + j)%nat = Some lbl /\ spliceable s lbl) ->
    (k + length pre <= length cur)%nat ->
    exists E' L' cur',
      foldM
        (fun '(new_input_embeds, new_labels, image_features) '(idx, cur_input_ids) =>
           '(e, l, image_features) <-
             V51.splice_sample emb vzero max_idx labels image_features idx cur_input_ids;
           Ok (new_input_embeds ++ [e], new_labels ++ [l], image_features))
        (E, L, cur) (zip (seqZ (Z.of_nat k) (len pre)) pre) = Ok (E', L', cur').
Proof.
  induction pre as [|a pre IH]; intros Hmax k E L cur Hwf Hlen.
  - by do 3 eexists.
  - rewrite zip_seqZ_cons. cbn [foldM].
    destruct (Hwf 0%nat a eq_refl) as (lbl & Hl & Hs). rewrite Nat.add_0_r in Hl.
    destruct (splice_sample_spliceable max_idx labels cur k a lbl Hl Hs)
      as (e & l & cur1 & -> & Hcur1).
    { simpl in Hlen. lia. }
    { intros i. apply Hmax. left. }
    cbn [bind]. replace (Z.of_nat k + 1) with (Z.of_nat (S k)) by lia.
    apply IH.
    + intros s i Hs'. apply Hmax. by right.
    + intros j s Hj. destruct (Hwf (S j) s Hj) as (lbl' & Hl' & Hs').
      exists lbl'. split; [|done]. by replace (S k + j)%nat with (k + S j)%nat by lia.
    + simpl in Hlen. lia.
Qed.

Lemma splice_samples_old_prefix (labels : list (list Z)) (image_features : list (list V))
    (pre : list (list Z)) :
  forall (k : nat) (E : list (list V)) (L : list (list Z)),
    (forall j s, pre !! j = Some s ->
       exists lbl, labels !! (k + j)%nat = Some lbl /\ spliceable s lbl) ->
    (k + length pre <= length image_features)%nat ->
    exists E' L',
      foldM
        (fun '(new_input_embeds, new_labels) '(idx, cur_input_ids) =>
           '(e, l) <- V51_old.splice_sample emb labels image_features idx cur_input_ids;
           Ok (new_input_embeds ++ [e], new_labels ++ [l]))
        (E, L) (zip (seqZ (Z.of_nat k) (len pre)) pre) = Ok (E', L').
Proof.
  induction pre as [|a pre IH]; intros k E L Hwf Hlen.
  - by do 2 eexists.
  - rewrite zip_seqZ_cons. cbn [foldM].
    destruct (Hwf 0%nat a eq_refl) as (lbl & Hl & [_ Hs]). rewrite Nat.add_0_r in Hl.
    assert (Hstep : exists e l,
      V51_old.splice_sample emb labels image_features (Z.of_nat k) a = Ok (e, l)).
    { unfold V51_old.splice_sample. destruct Hs as [H0|[H1 _]].
      - rewrite H0. simpl Z.eqb. cbv iota. rewrite (index_lookup _ _ _ Hl).
        by do 2 eexists.
      - rewrite H1. simpl Z.eqb. cbv iota.
        destruct (image_token_indice_found a) as (i & -> & _); [lia|]. cbn [bind].
        rewrite (index_lookup _ _ _ Hl). cbn [bind].
        destruct (lookup_lt_is_Some_2 image_features k) as [row Hrow];
          [simpl in Hlen; lia|].
        rewrite (index_lookup _ _ _ Hrow). by do 2 eexists. }
    destruct Hstep as (e & l & ->). cbn [bind].
    replace (Z.of_nat k + 1) with (Z.of_nat (S k)) by lia.
    apply IH.
    + intros j s Hj. destruct (Hwf (S j) s Hj) as (lbl' & Hl' & Hs').
      exists lbl'. split; [|done]. by replace (S k + j)%nat with (k + S j)%nat by lia.
    + simpl in Hlen. lia.
Qed.
End TooMany.

(** C4.  A sample with two or more placeholders makes the body of the loop
    raise the [ValueError] that carries the number of placeholders, in both
    versions.  A batch that holds such a sample gives no result; when the
    samples before it are merged without an error, the call raises that
    [ValueError]. *)
Theorem too_many_images_raises {V : Type} (emb : Z -> V) (vzero : V) (ctx_len : Z)
    (pre post : list (list Z)) (ids : list Z) (labels : list (list Z))
    (image_features : list (list V)) (truncate : bool) :
  2 <= V51.num_images ids ->
  length labels = length (pre ++ ids :: post) ->
  length image_features = length (pre ++ ids :: post) ->
  (forall j s, pre !! j = Some s ->
     exists lbl, labels !! j = Some lbl /\ spliceable s lbl) ->
  (forall max_idx feats,
     V51.splice_sample emb vzero max_idx labels feats (len pre) ids
     = Raise (ValueError_too_many_images (V51.num_images ids))) /\
  V51_old.splice_sample emb labels image_features (len pre) ids
  = Raise (ValueError_too_many_images (V51.num_images ids)) /\
  V51.preparing_embedding emb vzero ctx_len (pre ++ ids :: post) labels image_features
    truncate = Raise (ValueError_too_many_images (V51.num_images ids)) /\
  V51_old.preparing_embedding emb vzero ctx_len (pre ++ ids :: post) labels
    image_features truncate = Raise (ValueError_too_many_images (V51.num_images ids)) /\
  (forall batch batch_labels batch_features,
     ids ∈ batch ->
     is_ok (V51.preparing_embedding emb vzero ctx_len batch batch_labels batch_features
              truncate) = false /\
     is_ok (V51_old.preparing_embedding emb vzero ctx_len batch batch_labels
              batch_features truncate) = false).
Proof.
  intros Hn Hlabels Hfeats Hpre.
  rewrite length_app in Hlabels, Hfeats. simpl in Hlabels, Hfeats.
  destruct (lookup_lt_is_Some_2 labels (length pre)) as [lbl Hlbl]; [lia|].
  split; [|split; [|split; [|split]]];
    [| | | | intros batch bl bf Hin; by apply (preparing_embedding_raises _ _ _ _ _ _ _ ids)].
  - intros max_idx feats. by eapply splice_sample_too_many.
  - by apply splice_sample_old_too_many.
  - unfold V51.preparing_embedding.
    destruct (get_max_image_token_indice_bound (pre ++ ids :: post)) as (m & -> & _ & Hm).
    cbn [bind]. unfold V51.splice_samples. rewrite zip_seqZ_app, zip_seqZ_cons, foldM_app.
    change (seqZ 0 (len pre)) with (seqZ (Z.of_nat 0) (len pre)).
    destruct (splice_samples_prefix emb vzero m labels pre) with
      (k := 0%nat) (E := @nil (list V)) (L := @nil (list Z)) (cur := image_features)
      as (E' & L' & cur' & ->).
    + intros s i Hs. apply Hm. apply elem_of_app. by left.
    + intros j s Hj. by apply Hpre.
    + lia.
    + cbn [bind foldM].
      change (0 + len pre) with (Z.of_nat (length pre)).
      by rewrite (splice_sample_too_many emb vzero m labels cur' (length pre) ids lbl).
  - unfold V51_old.preparing_embedding, V51_old.splice_samples.
    rewrite zip_seqZ_app, zip_seqZ_cons, foldM_app.
    change (seqZ 0 (len pre)) with (seqZ (Z.of_nat 0) (len pre)).
    destruct (splice_samples_old_prefix emb labels image_features pre) with
      (k := 0%nat) (E := @nil (list V)) (L := @nil (list Z)) as (E' & L' & ->).
    + intros j s Hj. by apply Hpre.
    + lia.
    + cbn [bind foldM]. by rewrite splice_sample_old_too_many.
Qed.

Lemma too_many_images_raises_witness :
  V51.preparing_embedding (fun t => [t + 1]) [0] 8
    [[5; -200; 6]; [-200; 7; -200]; [8]] [[5; -200; 6]; [-200; 7; -200]; [8]]
    [[[1]]; [[2]]; [[3]]] true
  = Raise (ValueError_too_many_images 2).
Proof.
  refine (proj1 (proj2 (proj2
    (too_many_images_raises (fun t => [t + 1]) [0] 8 [[5; -200; 6]] [[8]] [-200; 7; -200]
       [[5; -200; 6]; [-200; 7; -200]; [8]] [[[1]]; [[2]]; [[3]]] true _ _ _ _)))).
  - vm_compute. discriminate.
  - reflexivity.
  - reflexivity.
  - intros [|j] s Hj; [|destruct j; discriminate Hj].
    injection Hj as <-. exists [5; -200; 6]. split; [reflexivity|].
    split; [reflexivity|]. right. split; [reflexivity | discriminate].
Defined.

Lemma splice_sample_without_image_witness :
  V51.splice_samples (fun t => [t + 1]) [0] 0 [[5; 6]] [[5; 6]] [[[7]; [8]]]
  = Ok ([[[0]; [0]; [6]; [7]]], [[-100; -100; 5; 6]], [[[0]; [0]]]) /\
  (exists row,
     [[[7]; [8]]] !! 0%nat = Some row /\
     [[-100; -100; 5; 6]] !! 0%nat
     = Some (replicate (Z.to_nat 0 + length row) IGNORE_INDEX ++ [5; 6])) /\
  V51_old.preparing_embedding (fun t => [t + 1]) [0] 16 [[5; 6]] [[5; 6]] [[[7]; [8]]]
    false
  = Ok ([[[6]; [7]]], [[5; 6]]).
Proof.
  split; [reflexivity|].
  destruct (splice_sample_without_image (fun t => [t + 1]) [0] 0 [[5; 6]] [[5; 6]]
              [[[7]; [8]]] 0 [5; 6] [5; 6] eq_refl eq_refl eq_refl) as (H & _ & Hall).
  split.
  - destruct (H _ _ _ eq_refl) as (row & Hrow & _ & Hl & _).
    exists row. split; [exact Hrow | exact Hl].
  - exact (proj2 (Hall eq_refl 16 [[7]; [8]])).
Defined.

(** C3 as stated fails on v5.1: a batch of one sample without a placeholder
    has no left padding ([max_image_token_indice] is 0), yet the assembler
    puts two positions in front of the text, the zeroed image features,
    with the label [IGNORE_INDEX]; the output is not the embedding of the
    text behind embedded padding tokens. *)
Lemma preparing_embedding_without_image_has_span :
  V51.preparing_embedding (fun t => [t + 1]) [0] 16 [[5; 6]] [[5; 6]] [[[7]; [8]]] true
  = Ok (V51.Prepared [[[0]; [0]; [6]; [7]]] [[-100; -100; 5; 6]] [[[0]; [0]]] 0 1)
  /\ ~ (exists k : nat,
          [[0]; [0]; [6]; [7]]
          = ((fun t => [t + 1]) <$> replicate k 0) ++ ((fun t => [t + 1]) <$> [5; 6])).
Proof.
  split; [reflexivity|].
  intros [k Hk]. destruct k as [|[|[|k]]]; discriminate Hk.
Qed.


(** ** Generation (C9) *)

Lemma keep_last_slice {A} (c : Z) (l : list A) :
  0 < c -> slice l (Some (- c)) None = keep_last c l.
Proof. intros Hc. by rewrite slice_trailing. Qed.

Lemma keep_last_nonempty {A} (c : Z) (l : list A) (a : A) :
  0 < c -> keep_last c (l ++ [a]) ≠ [].
Proof.
  intros Hc Hnil. apply (f_equal length) in Hnil.
  unfold keep_last in Hnil. rewrite length_drop, length_app in Hnil. simpl in Hnil. lia.
Qed.

Section GreedyFacts.
Context {V S : Type}.
Variable emb : Z -> V.
Variable argmax : list S -> Z.
Variable forward : list (list V) -> result (list (list (list S))).
Variable ctx_len stop_token_idx : Z.
Hypothesis Hctx : 0 < ctx_len.

Lemma item_singleton {A} (t : list A) (a : A) : item t = Ok a -> t = [a].
Proof. destruct t as [|b [|c t]]; try done. by intros [= ->]. Qed.

(** One pass of the loop on a batch of one sample. *)
Lemma generate_loop_step (steps : nat) (x : list V) (generated : list Z) :
  V51.generate_loop emb argmax forward ctx_len false stop_token_idx
    (Datatypes.S steps) [x] generated
  = (tok <- next_token argmax forward x;
     if tok =? stop_token_idx then Ok (generated ++ [tok])
     else V51.generate_loop emb argmax forward ctx_len false stop_token_idx steps
            [keep_last ctx_len (x ++ [emb tok])] (generated ++ [tok])).
Proof.
  cbn [V51.generate_loop]. unfold next_token.
  destruct (forward [x]) as [logits|e]; [|done]. cbn [bind].
  destruct (mapM _ logits) as [next_logit|e]; [|done]. cbn [bind].
  destruct (item (argmax <$> next_logit)) as [tok|e] eqn:Hitem; [|done]. cbn [bind].
  destruct (tok =? stop_token_idx); [done|].
  apply item_singleton in Hitem. rewrite Hitem. simpl.
  by rewrite keep_last_slice.
Qed.

Lemma generate_loop_greedy (steps : nat) :
  forall (x : list V) (generated out : list Z),
    V51.generate_loop emb argmax forward ctx_len false stop_token_idx steps [x] generated
    = Ok out ->
    exists toks,
      out = generated ++ toks /\
      greedy_run emb argmax forward ctx_len stop_token_idx steps x toks.
Proof.
  induction steps as [|steps IH]; intros x generated out Hrun.
  - simpl in Hrun. injection Hrun as <-. exists []. rewrite app_nil_r.
    split; [done|]. split; [simpl; lia|]. split; [done|]. split; [done|]. simpl. lia.
  - rewrite generate_loop_step in Hrun.
    destruct (next_token argmax forward x) as [tok|e] eqn:Htok; [|done].
    cbn [bind] in Hrun.
    destruct (Z.eqb_spec tok stop_token_idx) as [->|Hne].
    + injection Hrun as <-. exists [stop_token_idx]. split; [done|].
      split; [|split; [|split]]; simpl.
      * lia.
      * intros [|k] tok Hk; [|done]. simpl in Hk. injection Hk as <-. done.
      * intros [|k] Hk; [done | done].
      * done.
    + destruct (IH _ _ _ Hrun) as (toks & -> & Hlen & Harg & Hstop & Hshort).
      exists (tok :: toks). split; [by rewrite <- app_assoc|].
      split; [|split; [|split]]; simpl.
      * lia.
      * intros [|k] tok' Hk; simpl in Hk.
        -- injection Hk as <-. done.
        -- simpl. by apply Harg.
      * intros [|k] Hk; simpl in Hk.
        -- by injection Hk.
        -- f_equal. by apply Hstop.
      * intros Hlt. rewrite last_cons.
        destruct (list.last toks) eqn:Hlast.
        -- apply Hshort. lia.
        -- apply last_None in Hlast. subst toks. simpl in Hshort.
           assert (Some stop_token_idx = None :> option Z); [|done].
           rewrite <- Hshort; [done | lia].
Qed.

Hypothesis Hforward : answers forward.

Lemma next_token_answers (x : list V) :
  x ≠ [] -> exists tok, next_token argmax forward x = Ok tok.
Proof.
  intros Hx. destruct (Hforward x Hx) as (l & Hl & Hne).
  unfold next_token. rewrite Hl. cbn [bind].
  destruct (index_in_range l (len l - 1)) as (row & Hrow & _).
  { unfold len. destruct l; [done | simpl; lia]. }
  assert (Hlast : index l (-1) = Ok row).
  { unfold index in *. simpl. unfold len in *.
    destruct (Z.ltb_spec (Z.of_nat (length l) - 1) 0) as [?|_];
      [destruct l; [done | simpl in *; lia]|].
    by replace (-1 + Z.of_nat (length l)) with (Z.of_nat (length l) - 1) by lia. }
  rewrite mapM_result_cons, Hlast. cbn [bind]. by eexists.
Qed.

Lemma generate_loop_returns (steps : nat) :
  forall (x : list V) (generated : list Z),
    x ≠ [] ->
    exists out,
      V51.generate_loop emb argmax forward ctx_len false stop_token_idx steps [x]
        generated = Ok out.
Proof.
  induction steps as [|steps IH]; intros x generated Hx; [by eexists|].
  rewrite generate_loop_step.
  destruct (next_token_answers x Hx) as [tok ->]. cbn [bind].
  destruct (tok =? stop_token_idx); [by eexists|].
  apply IH. by apply keep_last_nonempty.
Qed.

Lemma generate_loop_sampling (steps : nat) (x : list V) (generated : list Z) :
  x ≠ [] ->
  V51.generate_loop emb argmax forward ctx_len true stop_token_idx
    (Datatypes.S steps) [x] generated = Raise NotImplementedError.
Proof.
  intros Hx. cbn [V51.generate_loop].
  destruct (Hforward x Hx) as (l & -> & Hne). cbn [bind].
  destruct (index_in_range l (len l - 1)) as (row & Hrow & _).
  { unfold len. destruct l; [done | simpl; lia]. }
  assert (Hlast : index l (-1) = Ok row).
  { unfold index in *. simpl. unfold len in *.
    destruct (Z.ltb_spec (Z.of_nat (length l) - 1) 0) as [?|_];
      [destruct l; [done | simpl in *; lia]|].
    by replace (-1 + Z.of_nat (length l)) with (Z.of_nat (length l) - 1) by lia. }
  by rewrite mapM_result_cons, Hlast.
Qed.
End GreedyFacts.

Lemma range1_length (n : Z) : length (range1 n) = Z.to_nat n.
Proof. by rewrite range1_seqZ, length_seqZ. Qed.

(** C9, as the code has it.  With [do_sample=False], a positive context
    length and a prompt of one sample, [generate] returns a greedy run of
    at most [max_new_tokens] tokens: every token is the arg-max of the
    logits at the last position of the context it was emitted in, the stop
    token ends the run and is its last element, and after every emission
    that continues the run the context is cut to its last [ctx_len]
    positions.  With [do_sample=True] and [max_new_tokens >= 1] the call
    raises [NotImplementedError] in its first pass, with no token emitted.
    With [max_new_tokens <= 0] the loop is not entered and the call
    returns the empty list, whatever [do_sample] is.  For v5.1 the first
    two hold in the three modes that [generate] dispatches on. *)
Theorem generate_greedy {V S : Type} (emb : Z -> V) (vzero : V) (argmax : list S -> Z)
    (uni bi multi : list (list V) -> list (list V) -> list (list (list S)))
    (rwkv : list (list V) -> list (list (list S)))
    (image_scanning : string) (ctx_len : Z) (input_ids : list (list Z))
    (image_features : list (list V)) (max_new_tokens stop_token_idx : Z) :
  let labels := (fun row : list Z => replicate (length row) IGNORE_INDEX) <$> input_ids in
  0 < ctx_len ->
  (forall (p : V51.prepared V) (x0 : list V),
     let forward :=
       V51.generate_forward uni bi multi image_scanning (V51.image_features_out p) in
     generate_mode image_scanning ->
     V51.preparing_embedding emb vzero ctx_len input_ids labels image_features false
     = Ok p ->
     V51.new_input_embeds_padded p = [x0] -> x0 ≠ [] -> answers forward ->
     (exists toks,
        V51.generate emb vzero argmax uni bi multi image_scanning ctx_len input_ids
          image_features false max_new_tokens stop_token_idx = Ok toks /\
        len toks <= Z.max 0 max_new_tokens /\
        greedy_run emb argmax forward ctx_len stop_token_idx (Z.to_nat max_new_tokens)
          x0 toks) /\
     (1 <= max_new_tokens ->
      V51.generate emb vzero argmax uni bi multi image_scanning ctx_len input_ids
        image_features true max_new_tokens stop_token_idx = Raise NotImplementedError)) /\
  (forall (p : V51.prepared V) (do_sample : bool),
     V51.preparing_embedding emb vzero ctx_len input_ids labels image_features false
     = Ok p ->
     max_new_tokens <= 0 ->
     V51.generate emb vzero argmax uni bi multi image_scanning ctx_len input_ids
       image_features do_sample max_new_tokens stop_token_idx = Ok []) /\
  (forall (x0 : list V) (labels_out : list (list Z)),
     let forward := fun x => Ok (rwkv x) in
     V51_old.preparing_embedding emb vzero ctx_len input_ids labels image_features false
     = Ok ([x0], labels_out) ->
     x0 ≠ [] -> answers forward ->
     (exists toks,
        V51_old.generate emb vzero argmax rwkv ctx_len input_ids image_features false
          max_new_tokens stop_token_idx = Ok toks /\
        len toks <= Z.max 0 max_new_tokens /\
        greedy_run emb argmax forward ctx_len stop_token_idx (Z.to_nat max_new_tokens)
          x0 toks) /\
     (1 <= max_new_tokens ->
      V51_old.generate emb vzero argmax rwkv ctx_len input_ids image_features true
        max_new_tokens stop_token_idx = Raise NotImplementedError)) /\
  (forall (x : list (list V)) (labels_out : list (list Z)) (do_sample : bool),
     V51_old.preparing_embedding emb vzero ctx_len input_ids labels image_features false
     = Ok (x, labels_out) ->
     max_new_tokens <= 0 ->
     V51_old.generate emb vzero argmax rwkv ctx_len input_ids image_features do_sample
       max_new_tokens stop_token_idx = Ok []).
Proof.
  intros labels Hctx. split; [|split; [|split]].
  - intros p x0 forward Hmode Hp Hx0 Hne Hfwd. split.
    + unfold V51.generate. fold labels. rewrite Hp. cbn [bind]. rewrite Hx0, range1_length.
      fold forward.
      destruct (generate_loop_returns emb argmax forward ctx_len stop_token_idx Hctx Hfwd
                  (Z.to_nat max_new_tokens) x0 [] Hne) as [out Hout].
      destruct (generate_loop_greedy emb argmax forward ctx_len stop_token_idx Hctx
                  _ _ _ _ Hout) as (toks & -> & Hrun).
      exists toks. split; [done|]. split; [|done].
      destruct Hrun as [Hlen _]. unfold len. lia.
    + intros Hmax.
      destruct (Z.to_nat max_new_tokens) as [|steps] eqn:Hsteps; [lia|].
      unfold V51.generate. fold labels. rewrite Hp. cbn [bind].
      rewrite Hx0, range1_length, Hsteps. fold forward.
      by apply generate_loop_sampling.
  - intros p do_sample Hp Hmax.
    unfold V51.generate. fold labels. rewrite Hp. cbn [bind]. rewrite range1_length.
    replace (Z.to_nat max_new_tokens) with 0%nat by lia. reflexivity.
  - intros x0 labels_out forward Hp Hne Hfwd. split.
    + unfold V51_old.generate. fold labels. rewrite Hp. cbn [bind].
      rewrite range1_length.
      destruct (generate_loop_returns emb argmax forward ctx_len stop_token_idx Hctx
                  Hfwd (Z.to_nat max_new_tokens) x0 [] Hne) as [out Hout].
      destruct (generate_loop_greedy emb argmax forward ctx_len stop_token_idx Hctx
                  _ _ _ _ Hout) as (toks & -> & Hrun).
      exists toks. split; [done|]. split; [|done].
      destruct Hrun as [Hlen _]. unfold len. lia.
    + intros Hmax.
      destruct (Z.to_nat max_new_tokens) as [|steps] eqn:Hsteps; [lia|].
      unfold V51_old.generate. fold labels. rewrite Hp. cbn [bind].
      rewrite range1_length, Hsteps.
      by apply (generate_loop_sampling emb argmax forward).
  - intros x labels_out do_sample Hp Hmax.
    unfold V51_old.generate. fold labels. rewrite Hp. cbn [bind]. rewrite range1_length.
    replace (Z.to_nat max_new_tokens) with 0%nat by lia. reflexivity.
Qed.

Lemma flat_trunk_answers : answers (fun x => Ok (flat_trunk x)).
Proof.
  intros x Hx. exists ((fun _ : list Z => [1]) <$> x). split; [done|].
  destruct x; done.
Qed.

Lemma generate_greedy_witness :
  (exists toks,
     V51.generate (fun t => [t]) [0] (fun _ : list Z => 7)
       (fun x _ => flat_trunk x) (fun x _ => flat_trunk x) (fun x _ => flat_trunk x)
       "unidirection" 4 [[5; -200; 6]] [[[1]; [2]]] false 2 7 = Ok toks /\ len toks <= 2)
  /\ (exists toks,
        V51_old.generate (fun t => [t]) [0] (fun _ : list Z => 7) flat_trunk 4
          [[5; -200; 6]] [[[1]; [2]]] false 2 7 = Ok toks /\ len toks <= 2).
Proof.
  destruct (generate_greedy (fun t => [t]) [0] (fun _ : list Z => 7)
              (fun x _ => flat_trunk x) (fun x _ => flat_trunk x) (fun x _ => flat_trunk x)
              flat_trunk "unidirection" 4 [[5; -200; 6]] [[[1]; [2]]] 2 7)
    as (Hnew & _ & Hold & _); [lia|].
  split.
  - destruct (Hnew (V51.Prepared [[[5]; [1]; [2]; [6]]] [[-100; -100; -100; -100]]
                      [[[1]; [2]]] 1 2) [[5]; [1]; [2]; [6]])
      as [(toks & H1 & H2 & _) _].
    + left. reflexivity.
    + reflexivity.
    + reflexivity.
    + discriminate.
    + exact flat_trunk_answers.
    + exists toks. split; [exact H1 | exact H2].
  - destruct (Hold [[5]; [1]; [2]; [6]] [[-100; -100; -100; -100]])
      as [(toks & H1 & H2 & _) _].
    + reflexivity.
    + discriminate.
    + exact flat_trunk_answers.
    + exists toks. split; [exact H1 | exact H2].
Defined.

(** C9 as stated fails: the test of [do_sample] sits inside the loop, so
    with [max_new_tokens = 0] a call with [do_sample=True] returns the
    empty list and raises nothing; and in a scanning mode that [generate]
    of v5.1 does not dispatch on, a call with [do_sample=False] binds no
    logits and stops in its first pass with no token. *)
Lemma generate_sampling_without_steps :
  V51.generate (fun t => [t]) [0] (fun _ : list Z => 7)
    (fun x _ => flat_trunk x) (fun x _ => flat_trunk x) (fun x _ => flat_trunk x)
    "unidirection" 4 [[5; -200; 6]] [[[1]; [2]]] true 0 7 = Ok []
  /\ V51_old.generate (fun t => [t]) [0] (fun _ : list Z => 7) flat_trunk 4
       [[5; -200; 6]] [[[1]; [2]]] true 0 7 = Ok []
  /\ V51.generate (fun t => [t]) [0] (fun _ : list Z => 7)
       (fun x _ => flat_trunk x) (fun x _ => flat_trunk x) (fun x _ => flat_trunk x)
       "rotation" 4 [[5; -200; 6]] [[[1]; [2]]] false 1 7 = Raise UnboundLocalError.
Proof. split; [|split]; reflexivity. Qed.

(** ** Scan orders (C2) *)

Lemma range2_seqZ (a b : Z) : range2 a b = seqZ a (b - a).
Proof.
  unfold range2, range3. simpl.
  replace (b - a + 1 - 1) with (b - a) by lia. rewrite Z.div_1_r.
  replace (seqZ a (b - a)) with (seqZ (a + 0) (b - a)) by (f_equal; lia).
  rewrite <- fmap_add_seqZ.
  apply list_fmap_ext. intros _ k _. lia.
Qed.

Lemma elem_of_range2 (a b x : Z) : x ∈ range2 a b <-> a <= x < b.
Proof. rewrite range2_seqZ, elem_of_seqZ. lia. Qed.

Lemma NoDup_range2 (a b : Z) : NoDup (range2 a b).
Proof. rewrite range2_seqZ. apply NoDup_seqZ. Qed.

Lemma elem_of_range1 (n x : Z) : x ∈ range1 n <-> 0 <= x < n.
Proof. rewrite range1_seqZ, elem_of_seqZ. lia. Qed.

Lemma NoDup_range1 (n : Z) : NoDup (range1 n).
Proof. rewrite range1_seqZ. apply NoDup_seqZ. Qed.

Lemma range_down_seqZ (a b : Z) :
  range3 a b (-1) = (fun k => a - k) <$> seqZ 0 (a - b).
Proof.
  unfold range3. simpl.
  replace (a - b - -1 - 1) with (a - b) by lia. rewrite Z.div_1_r.
  apply list_fmap_ext. intros _ k _. lia.
Qed.

Lemma elem_of_range_down (a b x : Z) : x ∈ range3 a b (-1) <-> b < x <= a.
Proof.
  rewrite range_down_seqZ, list_elem_of_fmap. split.
  - intros (k & -> & Hk). apply elem_of_seqZ in Hk. lia.
  - intros Hx. exists (a - x). split; [lia|]. apply elem_of_seqZ. lia.
Qed.

Lemma NoDup_range_down (a b : Z) : NoDup (range3 a b (-1)).
Proof.
  rewrite range_down_seqZ. apply NoDup_fmap_2_strong; [|apply NoDup_seqZ].
  intros x y _ _. lia.
Qed.

(** Cells of a row and of a column. *)
Lemma elem_of_row_cells (r : Z) (cs : list Z) (rc : Z * Z) :
  rc ∈ (fun c => (r, c)) <$> cs <-> rc.1 = r /\ rc.2 ∈ cs.
Proof.
  rewrite list_elem_of_fmap. destruct rc as [r' c']. simpl. split.
  - by intros (c & [= -> ->] & Hc).
  - intros [-> Hc]. by exists c'.
Qed.

Lemma elem_of_column_cells (c : Z) (rs : list Z) (rc : Z * Z) :
  rc ∈ (fun r => (r, c)) <$> rs <-> rc.2 = c /\ rc.1 ∈ rs.
Proof.
  rewrite list_elem_of_fmap. destruct rc as [r' c']. simpl. split.
  - by intros (r & [= -> ->] & Hr).
  - intros [-> Hr]. by exists r'.
Qed.

Lemma NoDup_row_cells (r : Z) (cs : list Z) :
  NoDup cs -> NoDup ((fun c => (r, c)) <$> cs).
Proof. apply NoDup_fmap_2_strong. by intros x y _ _ [= ->]. Qed.

Lemma NoDup_column_cells (c : Z) (rs : list Z) :
  NoDup rs -> NoDup ((fun r => (r, c)) <$> rs).
Proof. apply NoDup_fmap_2_strong. by intros x y _ _ [= ->]. Qed.

Section Grid.
Variable n : Z.
Hypothesis Hn : 0 <= n.

Lemma arange_matrix_grid : V51.arange_matrix n n = Ok (grid n).
Proof.
  unfold V51.arange_matrix. destruct (Z.ltb_spec n 0) as [?|_]; [lia | done].
Qed.

Lemma grid_row (r : Z) :
  0 <= r < n -> grid n !! Z.to_nat r = Some (seqZ (r * n) n).
Proof.
  intros Hr. unfold grid, V51.reshape. rewrite list_lookup_fmap.
  assert (Hl : seqZ 0 n !! Z.to_nat r = Some r) by (apply lookup_seqZ; lia).
  rewrite Hl. simpl. f_equal.
  replace (n * n) with (r * n + (n + (n * n - r * n - n))) by lia.
  rewrite seqZ_app by nia. rewrite drop_app_length'; [|rewrite length_seqZ; lia].
  rewrite seqZ_app by nia. rewrite take_app_length'; [|rewrite length_seqZ; lia].
  f_equal; lia.
Qed.

Lemma len_grid : len (grid n) = n.
Proof. unfold len, grid, V51.reshape. rewrite length_fmap, length_seqZ. lia. Qed.

Lemma cell_grid (rc : Z * Z) :
  in_grid n rc -> V51.cell (grid n) rc.1 rc.2 = Ok (enc n rc).
Proof.
  intros [Hr Hc]. unfold V51.cell.
  destruct (index_in_range (grid n) rc.1) as (row & -> & Hrow); [rewrite len_grid; lia|].
  rewrite grid_row in Hrow by done. injection Hrow as <-. cbn [bind].
  destruct (index_in_range (seqZ (rc.1 * n) n) rc.2) as (v & -> & Hv).
  { unfold len. rewrite length_seqZ. lia. }
  apply lookup_seqZ in Hv as [-> _]. unfold enc. f_equal. lia.
Qed.

Lemma append_cells_grid (cells : list (Z * Z)) (order : list Z) :
  Forall (in_grid n) cells ->
  V51.append_cells (grid n) cells order = Ok (order ++ (enc n <$> cells)).
Proof.
  unfold V51.append_cells. revert order.
  induction cells as [|rc cells IH]; intros order Hcells.
  - simpl. by rewrite app_nil_r.
  - apply list.Forall_cons in Hcells as [Hrc Hcells]. cbn [foldM].
    destruct rc as [r c]. pose proof (cell_grid (r, c) Hrc) as Hcell.
    simpl in Hcell. rewrite Hcell. cbn [bind].
    rewrite IH by done. by rewrite <- app_assoc.
Qed.

Lemma enc_inj (a b : Z * Z) : in_grid n a -> in_grid n b -> enc n a = enc n b -> a = b.
Proof.
  destruct a as [r1 c1], b as [r2 c2]. unfold in_grid, enc. simpl.
  intros [Hr1 Hc1] [Hr2 Hc2] Heq.
  assert (r1 = r2) by nia. subst. f_equal. lia.
Qed.

(** A duplicate-free list of all cells of the grid lists every value of
    the matrix once. *)
Lemma order_of_cells_perm (cells : list (Z * Z)) :
  NoDup cells -> (forall rc, rc ∈ cells <-> in_grid n rc) ->
  enc n <$> cells ≡ₚ seqZ 0 (n * n).
Proof.
  intros Hnd Hall. apply NoDup_Permutation.
  - apply NoDup_fmap_2_strong; [|done].
    intros a b Ha Hb. apply enc_inj; by apply Hall.
  - apply NoDup_seqZ.
  - intros x. rewrite list_elem_of_fmap, elem_of_seqZ. split.
    + intros ([r c] & -> & Hrc). apply Hall in Hrc as [Hr Hc].
      unfold enc. simpl in *. nia.
    + intros Hx. assert (Hpos : 0 < n) by nia.
      exists (x `div` n, x `mod` n). split.
      * unfold enc. simpl. rewrite (Z.div_mod x n) at 1 by lia. lia.
      * apply Hall. unfold in_grid. simpl.
        pose proof (Z.mod_pos_bound x n Hpos).
        pose proof (Z.div_pos x n). pose proof (Z.div_lt_upper_bound x n n).
        lia.
Qed.
End Grid.

(** *** The spiral order *)

Lemma elem_of_ring_cells (l r t b : Z) (rc : Z * Z) :
  l <= r -> t <= b ->
  rc ∈ ring_cells l r t b <->
  t <= rc.1 <= b /\ l <= rc.2 <= r /\ (rc.1 = t \/ rc.1 = b \/ rc.2 = l \/ rc.2 = r).
Proof.
  intros Hlr Htb. unfold ring_cells. destruct rc as [x y]. simpl.
  rewrite !elem_of_app, elem_of_row_cells, elem_of_column_cells, !elem_of_range2.
  case_bool_decide as Hring.
  - rewrite elem_of_app, elem_of_row_cells, elem_of_column_cells, !elem_of_range_down.
    simpl. lia.
  - rewrite elem_of_nil. simpl. lia.
Qed.

Lemma NoDup_ring_cells (l r t b : Z) : NoDup (ring_cells l r t b).
Proof.
  unfold ring_cells.
  apply list.NoDup_app. split; [apply NoDup_row_cells, NoDup_range2|]. split.
  - intros [x y]. rewrite elem_of_row_cells, elem_of_range2, elem_of_app,
      elem_of_column_cells, elem_of_range2. simpl.
    case_bool_decide.
    + rewrite elem_of_app, elem_of_row_cells, elem_of_column_cells,
        !elem_of_range_down. simpl. lia.
    + rewrite elem_of_nil. lia.
  - apply list.NoDup_app. split; [apply NoDup_column_cells, NoDup_range2|]. split.
    + intros [x y]. rewrite elem_of_column_cells, elem_of_range2. simpl.
      case_bool_decide.
      * rewrite elem_of_app, elem_of_row_cells, elem_of_column_cells,
          !elem_of_range_down. simpl. lia.
      * rewrite elem_of_nil. lia.
    + case_bool_decide; [|constructor].
      apply list.NoDup_app. split; [apply NoDup_row_cells, NoDup_range_down|]. split.
      * intros [x y]. rewrite elem_of_row_cells, elem_of_column_cells,
          !elem_of_range_down. simpl. lia.
      * apply NoDup_column_cells, NoDup_range_down.
Qed.

Section Spiral.
Variable n : Z.
Hypothesis Hn : 0 <= n.

Lemma spiral_ring_grid (l r t b : Z) (order : list Z) :
  0 <= l -> r < n -> 0 <= t -> b < n -> l <= r -> t <= b ->
  V51.spiral_ring (grid n) l r t b order = Ok (order ++ (enc n <$> ring_cells l r t b)).
Proof.
  intros Hl Hr Ht Hb Hlr Htb.
  assert (Hin : forall cells, (forall rc, rc ∈ cells -> rc ∈ ring_cells l r t b) ->
                              Forall (in_grid n) cells).
  { intros cells Hsub. apply list.Forall_forall. intros rc Hrc.
    apply Hsub, elem_of_ring_cells in Hrc; [|done..]. unfold in_grid. lia. }
  unfold V51.spiral_ring. unfold ring_cells in *.
  rewrite append_cells_grid; [|done|].
  2:{ apply Hin. intros rc Hrc. apply elem_of_app. by left. }
  cbn [bind]. rewrite append_cells_grid; [|done|].
  2:{ apply Hin. intros rc Hrc. apply elem_of_app. right. apply elem_of_app. by left. }
  cbn [bind]. case_bool_decide.
  - rewrite append_cells_grid; [|done|].
    2:{ apply Hin. intros rc Hrc. do 2 (apply elem_of_app; right).
        apply elem_of_app. by left. }
    cbn [bind]. rewrite append_cells_grid; [|done|].
    2:{ apply Hin. intros rc Hrc. do 2 (apply elem_of_app; right).
        apply elem_of_app. by right. }
    by rewrite !fmap_app, <- !app_assoc.
  - by rewrite !fmap_app, fmap_nil, app_nil_r, <- !app_assoc.
Qed.

Lemma spiral_loop_unfold (matrix : list (list Z)) (l r t b : Z) (order : list Z) :
  V51.spiral_loop matrix l r t b order =
    if decide (l <= r /\ t <= b) then
      order' <- V51.spiral_ring matrix l r t b order;
      V51.spiral_loop matrix (l + 1) (r - 1) (t + 1) (b - 1) order'
    else Ok order.
Proof.
  rewrite V51.spiral_loop_equation_1.
  destruct (decide (l <= r /\ t <= b)); simpl; [|done].
  by destruct (V51.spiral_ring matrix l r t b order).
Qed.

Lemma spiral_loop_grid (fuel : nat) :
  forall (l r t b : Z) (order : list Z),
    (Z.to_nat (r - l + 1) <= fuel)%nat ->
    0 <= l -> r < n -> 0 <= t -> b < n ->
    exists cells,
      V51.spiral_loop (grid n) l r t b order = Ok (order ++ (enc n <$> cells)) /\
      NoDup cells /\
      forall rc, rc ∈ cells <-> t <= rc.1 <= b /\ l <= rc.2 <= r.
Proof.
  induction fuel as [|fuel IH]; intros l r t b order Hfuel Hl Hr Ht Hb;
    rewrite spiral_loop_unfold; destruct (decide (l <= r /\ t <= b)) as [[Hlr Htb]|Hstop].
  - lia.
  - exists []. rewrite app_nil_r. split; [done|]. split; [constructor|].
    intros rc. rewrite elem_of_nil. lia.
  - rewrite spiral_ring_grid by done. cbn [bind].
    destruct (IH (l + 1) (r - 1) (t + 1) (b - 1) (order ++ (enc n <$> ring_cells l r t b)))
      as (inner & -> & Hnd & Hinner); [lia..|].
    exists (ring_cells l r t b ++ inner). split; [by rewrite fmap_app, app_assoc|].
    split.
    + apply list.NoDup_app. split; [apply NoDup_ring_cells|]. split; [|done].
      intros rc Hring Hin. apply elem_of_ring_cells in Hring; [|done..].
      apply Hinner in Hin. lia.
    + intros rc. rewrite elem_of_app, elem_of_ring_cells, Hinner by done. lia.
  - exists []. rewrite app_nil_r. split; [done|]. split; [constructor|].
    intros rc. rewrite elem_of_nil. lia.
Qed.

(** [get_spiral_scan_order n] returns a list that holds every index of the
    grid once. *)
Lemma get_spiral_scan_order_perm :
  exists order, V51.get_spiral_scan_order n = Ok order /\ order ≡ₚ seqZ 0 (n * n).
Proof.
  unfold V51.get_spiral_scan_order. rewrite arange_matrix_grid by done. cbn [bind].
  destruct (spiral_loop_grid (Z.to_nat (n - 1 - 0 + 1)) 0 (n - 1) 0 (n - 1) [])
    as (cells & -> & Hnd & Hcells); [lia..|].
  eexists. split; [done|]. simpl. apply order_of_cells_perm; [done..|].
  intros rc. rewrite Hcells. unfold in_grid. lia.
Qed.
End Spiral.

(** *** The snake order *)

Lemma elem_of_snake_row (n i : Z) (rc : Z * Z) :
  rc ∈ snake_row n i <-> rc.1 = i /\ 0 <= rc.2 < n.
Proof.
  unfold snake_row. destruct (i `mod` 2 =? 0).
  - rewrite elem_of_row_cells, elem_of_range1. done.
  - rewrite elem_of_row_cells, elem_of_range_down. lia.
Qed.

Lemma NoDup_snake_row (n i : Z) : NoDup (snake_row n i).
Proof.
  unfold snake_row. destruct (i `mod` 2 =? 0).
  - apply NoDup_row_cells, NoDup_range1.
  - apply NoDup_row_cells, NoDup_range_down.
Qed.

Section Snake.
Variable n : Z.
Hypothesis Hn : 0 <= n.

Lemma snake_rows_grid (rows : list Z) (order : list Z) :
  Forall (fun i => 0 <= i < n) rows ->
  foldM
    (fun order i =>
       if i `mod` 2 =? 0 then
         V51.append_cells (grid n) ((fun j => (i, j)) <$> range1 n) order
       else
         V51.append_cells (grid n) ((fun j => (i, j)) <$> range3 (n - 1) (-1) (-1)) order)
    order rows
  = Ok (order ++ (enc n <$> (rows ≫= snake_row n))).
Proof.
  revert order. induction rows as [|i rows IH]; intros order Hrows.
  - simpl. by rewrite app_nil_r.
  - apply list.Forall_cons in Hrows as [Hi Hrows]. cbn [foldM].
    assert (Hrow : Forall (in_grid n) (snake_row n i)).
    { apply list.Forall_forall. intros rc Hrc. apply elem_of_snake_row in Hrc.
      unfold in_grid. lia. }
    assert (Hstep :
      (if i `mod` 2 =? 0 then
         V51.append_cells (grid n) ((fun j => (i, j)) <$> range1 n) order
       else
         V51.append_cells (grid n) ((fun j => (i, j)) <$> range3 (n - 1) (-1) (-1)) order)
      = Ok (order ++ (enc n <$> snake_row n i))).
    { unfold snake_row in *. destruct (i `mod` 2 =? 0); by apply append_cells_grid. }
    rewrite Hstep, IH by done.
    by rewrite bind_cons, fmap_app, app_assoc.
Qed.

Lemma get_snake_scan_order_perm :
  exists order, V51.get_snake_scan_order n = Ok order /\ order ≡ₚ seqZ 0 (n * n).
Proof.
  unfold V51.get_snake_scan_order. rewrite arange_matrix_grid by done. cbn [bind].
  rewrite snake_rows_grid.
  2:{ apply list.Forall_forall. intros i. by rewrite elem_of_range1. }
  eexists. split; [done|]. simpl. apply order_of_cells_perm; [done| |].
  - apply NoDup_bind; [|intros; apply NoDup_snake_row | apply NoDup_range1].
    intros i1 i2 rc _ _ H1 H2. apply elem_of_snake_row in H1, H2. lia.
  - intros rc. rewrite list_elem_of_bind. unfold in_grid. split.
    + intros (i & Hrc & Hi). apply elem_of_snake_row in Hrc.
      apply elem_of_range1 in Hi. lia.
    + intros [Hr Hc]. exists rc.1. rewrite elem_of_snake_row, elem_of_range1. lia.
Qed.
End Snake.

(** *** The zigzag order *)

Section Zigzag.
Variable n : Z.
Hypothesis Hn : 0 <= n.

Lemma zigzag_up_unfold (matrix : list (list Z)) (cols row col : Z) (order : list Z) :
  V51.zigzag_up matrix cols row col order =
    if decide (row >= 0 /\ col < cols) then
      v <- V51.cell matrix row col;
      V51.zigzag_up matrix cols (row - 1) (col + 1) (order ++ [v])
    else Ok order.
Proof.
  rewrite V51.zigzag_up_equation_1.
  destruct (decide (row >= 0 /\ col < cols)); simpl; [|done].
  by destruct (V51.cell matrix row col).
Qed.

Lemma zigzag_down_unfold (matrix : list (list Z)) (rows row col : Z) (order : list Z) :
  V51.zigzag_down matrix rows row col order =
    if decide (row < rows /\ col >= 0) then
      v <- V51.cell matrix row col;
      V51.zigzag_down matrix rows (row + 1) (col - 1) (order ++ [v])
    else Ok order.
Proof.
  rewrite V51.zigzag_down_equation_1.
  destruct (decide (row < rows /\ col >= 0)); simpl; [|done].
  by destruct (V51.cell matrix row col).
Qed.

(** Upwards from [(row, col)]: the cells of the diagonal above and to the
    right of it. *)
Lemma zigzag_up_grid (fuel : nat) :
  forall (row col : Z) (order : list Z),
    (Z.to_nat (row + 1) <= fuel)%nat -> row < n -> 0 <= col ->
    exists cells,
      V51.zigzag_up (grid n) n row col order = Ok (order ++ (enc n <$> cells)) /\
      NoDup cells /\
      forall rc, rc ∈ cells <->
                 rc.1 + rc.2 = row + col /\ 0 <= rc.1 <= row /\ col <= rc.2 < n.
Proof.
  induction fuel as [|fuel IH]; intros row col order Hfuel Hrow Hcol;
    rewrite zigzag_up_unfold; destruct (decide (row >= 0 /\ col < n)) as [[Hr Hc]|Hstop].
  - lia.
  - exists []. rewrite app_nil_r. split; [done|]. split; [constructor|].
    intros rc. rewrite elem_of_nil. lia.
  - pose proof (cell_grid n Hn (row, col)) as Hcell. simpl in Hcell.
    rewrite Hcell by (unfold in_grid; simpl; lia). cbn [bind].
    destruct (IH (row - 1) (col + 1) (order ++ [enc n (row, col)]))
      as (cells & -> & Hnd & Hcells); [lia..|].
    exists ((row, col) :: cells). split; [by rewrite <- app_assoc|]. split.
    + constructor; [|done]. rewrite Hcells. simpl. lia.
    + intros [x y]. rewrite elem_of_cons, Hcells. simpl. split.
      * intros [[= -> ->]|?]; lia.
      * intros ?. destruct (decide (x = row)) as [->|?]; [left; f_equal; lia | right; lia].
  - exists []. rewrite app_nil_r. split; [done|]. split; [constructor|].
    intros rc. rewrite elem_of_nil. lia.
Qed.

(** Downwards from [(row, col)]: the cells of the diagonal below and to the
    left of it. *)
Lemma zigzag_down_grid (fuel : nat) :
  forall (row col : Z) (order : list Z),
    (Z.to_nat (n - row) <= fuel)%nat -> 0 <= row -> col < n ->
    exists cells,
      V51.zigzag_down (grid n) n row col order = Ok (order ++ (enc n <$> cells)) /\
      NoDup cells /\
      forall rc, rc ∈ cells <->
                 rc.1 + rc.2 = row + col /\ row <= rc.1 < n /\ 0 <= rc.2 <= col.
Proof.
  induction fuel as [|fuel IH]; intros row col order Hfuel Hrow Hcol;
    rewrite zigzag_down_unfold; destruct (decide (row < n /\ col >= 0)) as [[Hr Hc]|Hstop].
  - lia.
  - exists []. rewrite app_nil_r. split; [done|]. split; [constructor|].
    intros rc. rewrite elem_of_nil. lia.
  - pose proof (cell_grid n Hn (row, col)) as Hcell. simpl in Hcell.
    rewrite Hcell by (unfold in_grid; simpl; lia). cbn [bind].
    destruct (IH (row + 1) (col - 1) (order ++ [enc n (row, col)]))
      as (cells & -> & Hnd & Hcells); [lia..|].
    exists ((row, col) :: cells). split; [by rewrite <- app_assoc|]. split.
    + constructor; [|done]. rewrite Hcells. simpl. lia.
    + intros [x y]. rewrite elem_of_cons, Hcells. simpl. split.
      * intros [[= -> ->]|?]; lia.
      * intros ?. destruct (decide (x = row)) as [->|?]; [left; f_equal; lia | right; lia].
  - exists []. rewrite app_nil_r. split; [done|]. split; [constructor|].
    intros rc. rewrite elem_of_nil. lia.
Qed.

(** One pass of the [for] loop over the diagonals, in either direction:
    the cells of diagonal [i]. *)
Lemma zigzag_diagonal (going_up : bool) (i : Z) (order : list Z) :
  0 <= i < 2 * n - 1 ->
  exists cells,
    (if going_up then
       let '(row, col) := if i <? n then (i, 0) else (n - 1, i - (n - 1)) in
       V51.zigzag_up (grid n) n row col order
     else
       let '(row, col) := if i <? n then (0, i) else (i - (n - 1), n - 1) in
       V51.zigzag_down (grid n) n row col order)
    = Ok (order ++ (enc n <$> cells)) /\
    NoDup cells /\
    forall rc, rc ∈ cells <-> in_grid n rc /\ rc.1 + rc.2 = i.
Proof.
  intros Hi. destruct going_up; destruct (Z.ltb_spec i n) as [Hlt|Hge].
  - destruct (zigzag_up_grid (Z.to_nat (i + 1)) i 0 order) as (cells & -> & Hnd & Hc);
      [lia..|].
    exists cells. split; [done|]. split; [done|].
    intros rc. rewrite Hc. unfold in_grid. lia.
  - destruct (zigzag_up_grid (Z.to_nat (n - 1 + 1)) (n - 1) (i - (n - 1)) order)
      as (cells & -> & Hnd & Hc); [lia..|].
    exists cells. split; [done|]. split; [done|].
    intros rc. rewrite Hc. unfold in_grid. lia.
  - destruct (zigzag_down_grid (Z.to_nat (n - 0)) 0 i order) as (cells & -> & Hnd & Hc);
      [lia..|].
    exists cells. split; [done|]. split; [done|].
    intros rc. rewrite Hc. unfold in_grid. lia.
  - destruct (zigzag_down_grid (Z.to_nat (n - (i - (n - 1)))) (i - (n - 1)) (n - 1) order)
      as (cells & -> & Hnd & Hc); [lia..|].
    exists cells. split; [done|]. split; [done|].
    intros rc. rewrite Hc. unfold in_grid. lia.
Qed.

Lemma zigzag_diagonals (diagonals : list Z) :
  forall (order : list Z) (going_up : bool),
    Forall (fun i => 0 <= i < 2 * n - 1) diagonals -> NoDup diagonals ->
    exists cells going_up',
      foldM
        (fun '(order, going_up) i =>
           order <-
             (if going_up : bool then
                let '(row, col) := if i <? n then (i, 0) else (n - 1, i - (n - 1)) in
                V51.zigzag_up (grid n) n row col order
              else
                let '(row, col) := if i <? n then (0, i) else (i - (n - 1), n - 1) in
                V51.zigzag_down (grid n) n row col order);
           Ok (order, negb going_up))
        (order, going_up) diagonals
      = Ok (order ++ (enc n <$> cells), going_up') /\
      NoDup cells /\
      forall rc, rc ∈ cells <-> in_grid n rc /\ rc.1 + rc.2 ∈ diagonals.
Proof.
  induction diagonals as [|i diagonals IH]; intros order going_up Hall Hnd.
  - exists [], going_up. simpl. rewrite app_nil_r. split; [done|]. split; [constructor|].
    intros rc. rewrite !elem_of_nil. tauto.
  - apply list.Forall_cons in Hall as [Hi Hall]. apply list.NoDup_cons in Hnd as [Hni Hnd].
    cbn [foldM].
    destruct (zigzag_diagonal going_up i order Hi) as (diag & -> & Hnd_diag & Hdiag).
    cbn [bind].
    destruct (IH (order ++ (enc n <$> diag)) (negb going_up) Hall Hnd)
      as (cells & g' & -> & Hnd_cells & Hcells).
    exists (diag ++ cells), g'. split; [by rewrite fmap_app, app_assoc|]. split.
    + apply list.NoDup_app. split; [done|]. split; [|done].
      intros rc Hin1 Hin2. apply Hdiag in Hin1 as [_ <-]. apply Hcells in Hin2 as [_ ?].
      done.
    + intros rc. rewrite elem_of_app, Hdiag, Hcells, elem_of_cons. split.
      * intros [[Hg Hd]|[Hg Hd]]; (split; [done|]); [by left | by right].
      * intros [Hg [Hd|Hd]]; [left | right]; done.
Qed.

Lemma get_zigzag_scan_order_perm :
  1 <= n ->
  exists order, V51.get_zigzag_scan_order n = Ok order /\ order ≡ₚ seqZ 0 (n * n).
Proof.
  intros Hpos. unfold V51.get_zigzag_scan_order.
  rewrite arange_matrix_grid by done. cbn [bind].
  destruct (index_in_range (grid n) 0) as (row0 & -> & Hrow0); [rewrite len_grid; lia|].
  rewrite (grid_row n Hn 0) in Hrow0 by lia. injection Hrow0 as <-. cbn [bind].
  rewrite len_grid by done. unfold len. rewrite length_seqZ.
  replace (Z.of_nat (Z.to_nat n)) with n by lia.
  destruct (zigzag_diagonals (range1 (n + n - 1)) [] true)
    as (cells & g' & -> & Hnd & Hcells).
  { apply list.Forall_forall. intros i. rewrite elem_of_range1. lia. }
  { apply NoDup_range1. }
  cbn [bind]. eexists. split; [done|]. simpl. apply (order_of_cells_perm n Hn); [done|].
  intros rc. rewrite Hcells, elem_of_range1. unfold in_grid. lia.
Qed.
End Zigzag.

(** *** Reordering and its inverse *)

Lemma gather_inverse {A} (xs : list A) (order : list Z) :
  order ≡ₚ seqZ 0 (len xs) ->
  exists ys, V51.gather xs order = Ok ys /\ V51.gather ys (inverse_order order) = Ok xs.
Proof.
  intros Hperm. unfold V51.gather.
  assert (Hlen : length order = length xs).
  { rewrite Hperm, length_seqZ. unfold len. lia. }
  assert (Hrange : forall i, i ∈ order <-> 0 <= i < len xs).
  { intros i. rewrite Hperm, elem_of_seqZ. lia. }
  destruct (mapM_result_exists (index xs) order) as [ys Hys].
  { intros i Hi. apply Hrange in Hi.
    destruct (index_in_range xs i Hi) as (a & Ha & _). by exists a. }
  exists ys. split; [done|].
  pose proof (mapM_result_length _ _ _ Hys) as Hlen_ys.
  apply mapM_result_intro.
  - unfold inverse_order, len. rewrite length_fmap, length_seqZ. lia.
  - intros k i b Hk Hb. unfold inverse_order in Hk.
    rewrite list_lookup_fmap in Hk.
    destruct (seqZ 0 (len order) !! k) as [k'|] eqn:Hk'; [|done].
    apply lookup_seqZ in Hk' as [-> _]. simpl in Hk. injection Hk as <-.
    assert (Hin : 0 + Z.of_nat k ∈ order).
    { apply Hrange. apply lookup_lt_Some in Hb. unfold len. lia. }
    destruct (list_find_elem_of (fun x => x = 0 + Z.of_nat k) order _ Hin eq_refl)
      as [[p x] Hfind].
    rewrite Hfind. apply list_find_Some in Hfind as (Hp & -> & _).
    destruct (mapM_result_lookup _ _ _ Hys p _ Hp) as (y & Hy & Hidx).
    rewrite (index_lookup _ _ _ Hy). f_equal.
    replace (0 + Z.of_nat k) with (Z.of_nat k) in Hidx by lia.
    apply index_Ok_lookup in Hidx. congruence.
Qed.

(** C2.  For a grid of side [n >= 1], the spiral, the snake and the zigzag
    order each hold every index of [0 .. n * n - 1] exactly once; reordering
    a sequence of [n * n] entries with one of them and then with its inverse
    gives the sequence back; and the spiral order of side 3 is
    [0, 1, 2, 5, 8, 7, 6, 3, 4]. *)
Theorem scan_orders_are_permutations (n : Z) :
  1 <= n ->
  exists spiral snake zigzag,
    V51.get_spiral_scan_order n = Ok spiral /\
    V51.get_snake_scan_order n = Ok snake /\
    V51.get_zigzag_scan_order n = Ok zigzag /\
    spiral ≡ₚ seqZ 0 (n * n) /\ snake ≡ₚ seqZ 0 (n * n) /\ zigzag ≡ₚ seqZ 0 (n * n) /\
    (forall (A : Type) (xs : list A) (order : list Z),
       order = spiral \/ order = snake \/ order = zigzag ->
       len xs = n * n ->
       exists ys,
         V51.gather xs order = Ok ys /\ V51.gather ys (inverse_order order) = Ok xs) /\
    V51.get_spiral_scan_order 3 = Ok [0; 1; 2; 5; 8; 7; 6; 3; 4].
Proof.
  intros Hn.
  destruct (get_spiral_scan_order_perm n) as (spiral & Hspiral & Hp1); [lia|].
  destruct (get_snake_scan_order_perm n) as (snake & Hsnake & Hp2); [lia|].
  destruct (get_zigzag_scan_order_perm n) as (zigzag & Hzigzag & Hp3); [lia | lia|].
  exists spiral, snake, zigzag. repeat (split; [done|]). split; [|reflexivity].
  intros A xs order Horder Hlen. apply gather_inverse. rewrite Hlen.
  by destruct Horder as [->|[->| ->]].
Qed.

Lemma scan_orders_are_permutations_witness :
  exists spiral snake zigzag,
    V51.get_spiral_scan_order 2 = Ok spiral /\
    V51.get_snake_scan_order 2 = Ok snake /\
    V51.get_zigzag_scan_order 2 = Ok zigzag /\
    spiral ≡ₚ seqZ 0 4 /\ snake ≡ₚ seqZ 0 4 /\ zigzag ≡ₚ seqZ 0 4.
Proof.
  destruct (scan_orders_are_permutations 2) as (s1 & s2 & s3 & H1 & H2 & H3 & P1 & P2 & P3 & _).
  - lia.
  - exists s1, s2, s3. repeat split; assumption.
Defined.

(** * The rest of the code *)

(** ** Slices and spans *)

Lemma norm_index_bounds (n i : Z) : 0 <= n -> 0 <= norm_index n i <= n.
Proof. unfold norm_index. intros Hn. destruct (Z.ltb_spec i 0); lia. Qed.

Lemma slice_length {A} (l : list A) (start stop : Z) :
  length (slice l (Some start) (Some stop))
  = Z.to_nat (norm_index (len l) stop - norm_index (len l) start).
Proof.
  unfold slice. rewrite length_take, length_drop.
  pose proof (norm_index_bounds (len l) start ltac:(unfold len; lia)) as H1.
  pose proof (norm_index_bounds (len l) stop ltac:(unfold len; lia)) as H2.
  unfold len in *. lia.
Qed.

Lemma slice_assign_fits {A} (t v : list A) (start stop : Z) :
  length v = length (slice t (Some start) (Some stop)) ->
  slice_assign t (Some start) (Some stop) v = Ok (with_span (fun _ => v) start stop t).
Proof.
  intros Hv. unfold slice_assign, with_span.
  rewrite bool_decide_eq_true_2 by (by rewrite Hv, slice_length).
  by rewrite slice_length.
Qed.

Section SpanFacts.
Context {A : Type}.
Implicit Types f g : list A -> list A.

Lemma with_span_length f (start stop : Z) (row : list A) :
  length (f (slice row (Some start) (Some stop)))
  = length (slice row (Some start) (Some stop)) ->
  length (with_span f start stop row) = length row.
Proof.
  intros Hf. unfold with_span.
  rewrite !length_app, Hf, length_take, length_drop, slice_length.
  pose proof (norm_index_bounds (len row) start ltac:(unfold len; lia)) as H1.
  pose proof (norm_index_bounds (len row) stop ltac:(unfold len; lia)) as H2.
  unfold len in *. lia.
Qed.

Lemma slice_with_span f (start stop : Z) (row : list A) :
  length (f (slice row (Some start) (Some stop)))
  = length (slice row (Some start) (Some stop)) ->
  slice (with_span f start stop row) (Some start) (Some stop)
  = f (slice row (Some start) (Some stop)).
Proof.
  intros Hf. unfold slice at 1.
  replace (len (with_span f start stop row)) with (len row)
    by (unfold len; by rewrite with_span_length).
  unfold with_span.
  pose proof (norm_index_bounds (len row) start ltac:(unfold len; lia)) as H1.
  pose proof (norm_index_bounds (len row) stop ltac:(unfold len; lia)) as H2.
  pose proof (slice_length row start stop) as Hs.
  rewrite drop_app_length'; [|rewrite length_take; unfold len in *; lia].
  rewrite take_app_length'; [done|].
  rewrite Hf, Hs. done.
Qed.

Lemma with_span_compose f g (start stop : Z) (row : list A) :
  length (g (slice row (Some start) (Some stop)))
  = length (slice row (Some start) (Some stop)) ->
  with_span f start stop (with_span g start stop row)
  = with_span (fun l => f (g l)) start stop row.
Proof.
  intros Hg. unfold with_span at 1.
  rewrite slice_with_span by done.
  replace (len (with_span g start stop row)) with (len row)
    by (unfold len; by rewrite with_span_length).
  unfold with_span.
  pose proof (norm_index_bounds (len row) start ltac:(unfold len; lia)) as H1.
  pose proof (slice_length row start stop) as Hs.
  rewrite take_app_length'; [|rewrite length_take; unfold len in *; lia].
  rewrite Hg. f_equal. f_equal.
  rewrite drop_app_ge; [|rewrite length_take; unfold len in *; lia].
  rewrite drop_app_ge; [|rewrite Hg, length_take; unfold len in *; lia].
  rewrite drop_drop. f_equal.
  rewrite Hg, length_take. unfold len in *. lia.
Qed.

Lemma with_span_id (start stop : Z) (row : list A) :
  with_span (fun l => l) start stop row = row.
Proof.
  unfold with_span, slice.
  rewrite <- drop_drop, length_take.
  set (l' := drop (Z.to_nat (norm_index (len row) start)) row).
  set (n := Z.to_nat (_ - _)).
  destruct (Nat.le_ge_cases n (length l')) as [Hle|Hge].
  - rewrite Nat.min_l by done. rewrite take_drop. apply take_drop.
  - rewrite Nat.min_r by done. rewrite (take_ge l' n) by done. rewrite drop_all, app_nil_r.
    apply take_drop.
Qed.

Lemma with_span_ext f g (start stop : Z) (row : list A) :
  f (slice row (Some start) (Some stop)) = g (slice row (Some start) (Some stop)) ->
  with_span f start stop row = with_span g start stop row.
Proof. intros H. unfold with_span. by rewrite H. Qed.

(** [x[:, start:stop, :] = v] for a [v] that gives every sample a span of
    the length it has. *)
Lemma time_slice_assign_spans (start stop : Z) (x v : list (list A)) :
  Forall2 (fun row vrow => length vrow = length (slice row (Some start) (Some stop))) x v ->
  V51.time_slice_assign x start stop v
  = Ok (zip_with (fun row vrow => with_span (fun _ => vrow) start stop row) x v).
Proof.
  intros Hv. unfold V51.time_slice_assign.
  rewrite bool_decide_eq_true_2 by (symmetry; by eapply Forall2_length).
  induction Hv as [|row vrow x v Hlen Hv IH]; [done|].
  cbn [zip zip_with]. rewrite mapM_result_cons. rewrite slice_assign_fits by done.
  cbn [bind]. rewrite IH. done.
Qed.

(** [x[:, start:stop, :] = f(x[:, start:stop, :])] for an [f] that works
    on every sample and keeps the length of its span. *)
Lemma time_slice_assign_with_span f (start stop : Z) (x : list (list A)) :
  Forall (fun row => length (f (slice row (Some start) (Some stop)))
                     = length (slice row (Some start) (Some stop))) x ->
  V51.time_slice_assign x start stop (f <$> V51.time_slice x start stop)
  = Ok (with_span f start stop <$> x).
Proof.
  intros Hf. unfold V51.time_slice.
  rewrite time_slice_assign_spans.
  - f_equal. clear Hf. induction x as [|row x IH]; [done|].
    cbn [fmap list_fmap zip_with]. f_equal. apply IH.
  - induction Hf as [|row x Hrow Hf IH]; [constructor|].
    cbn [fmap list_fmap]. constructor; [|done].
    rewrite <- list_fmap_compose in *. done.
Qed.
End SpanFacts.

(** ** The bidirectional pass *)

Lemma foldM_ok {A B} (f : A -> B -> result A) (g : A -> B -> A) (l : list B) :
  (forall a b, b ∈ l -> f a b = Ok (g a b)) ->
  forall a, foldM f a l = Ok (fold_left g l a).
Proof.
  induction l as [|b l IH]; intros Hf a; [done|].
  cbn [foldM fold_left]. rewrite Hf by left. apply IH.
  intros a' b' Hb'. apply Hf. by right.
Qed.

Lemma fold_left_fmap {A B C} (f : A -> C -> A) (g : B -> C) (l : list B) (a : A) :
  fold_left f (g <$> l) a = fold_left (fun a b => f a (g b)) l a.
Proof. revert a. induction l as [|b l IH]; intros a; [done|]. simpl. apply IH. Qed.

Lemma fold_left_ext_in {A B} (f g : A -> B -> A) (l : list B) :
  (forall a b, b ∈ l -> f a b = g a b) ->
  forall a, fold_left f l a = fold_left g l a.
Proof.
  induction l as [|b l IH]; intros Hfg a; [done|].
  simpl. rewrite Hfg by left. apply IH. intros a' b' Hb'. apply Hfg. by right.
Qed.

Lemma flip_span_ok {V} (img_start img_end : Z) (x : list (list V)) :
  V51.flip_span img_start img_end x = Ok (with_span reverse img_start img_end <$> x).
Proof.
  unfold V51.flip_span. apply time_slice_assign_with_span.
  apply list.Forall_forall. intros row _. apply length_reverse.
Qed.

Lemma with_span_reverse_involutive {V} (img_start img_end : Z) (row : list V) :
  with_span reverse img_start img_end (with_span reverse img_start img_end row) = row.
Proof.
  rewrite with_span_compose by apply length_reverse.
  rewrite (with_span_ext _ (fun l => l)) by apply reverse_involutive.
  apply with_span_id.
Qed.

Lemma fmap_with_span_reverse_involutive {V} (img_start img_end : Z) (y : list (list V)) :
  with_span reverse img_start img_end <$> (with_span reverse img_start img_end <$> y) = y.
Proof.
  induction y as [|row y IH]; [done|].
  cbn [fmap list_fmap]. rewrite with_span_reverse_involutive. f_equal. apply IH.
Qed.

(** X1.  [bidirectional_forward] never raises, whatever the bounds of the span:
    it is the unidirectional pass over the blocks in which every odd block
    is handed the hidden states with the image span reversed and has the
    span of its output reversed back.  Reversing the span twice gives the
    hidden states back, so when the odd blocks commute with the reversal
    the two passes agree. *)
Theorem bidirectional_forward_reverses_odd_layers {V L : Type}
    (blocks : list (list (list V) -> list (list V)))
    (drop0 ln_out : list (list V) -> list (list V)) (head : list (list V) -> L)
    (dropout : bool) (img_start img_end : Z) (x : list (list V)) :
  V51.bidirectional_forward blocks drop0 ln_out head dropout img_start img_end x
  = Ok (V51.unidirectional_forward (bidirectional_blocks img_start img_end blocks)
          drop0 ln_out head dropout x)
  /\ (forall row : list V,
        with_span reverse img_start img_end (with_span reverse img_start img_end row)
        = row)
  /\ ((forall block y, block ∈ blocks ->
         block (with_span reverse img_start img_end <$> y)
         = with_span reverse img_start img_end <$> block y) ->
      V51.bidirectional_forward blocks drop0 ln_out head dropout img_start img_end x
      = Ok (V51.unidirectional_forward blocks drop0 ln_out head dropout x)).
Proof.
  assert (Hrun : forall bs,
    V51.bidirectional_forward bs drop0 ln_out head dropout img_start img_end x
    = Ok (V51.unidirectional_forward (bidirectional_blocks img_start img_end bs)
            drop0 ln_out head dropout x)).
  { intros bs. unfold V51.bidirectional_forward, V51.unidirectional_forward,
      bidirectional_blocks.
    rewrite (foldM_ok _
      (fun (y : list (list V)) (ib : Z * (list (list V) -> list (list V))) =>
         if ib.1 `mod` 2 =? 1
         then with_span reverse img_start img_end
                <$> ib.2 (with_span reverse img_start img_end <$> y)
         else ib.2 y)).
    - cbn [bind]. rewrite fold_left_fmap. do 3 f_equal.
      apply fold_left_ext_in. intros a [i b] _. simpl. by destruct (_ =? _).
    - intros a [i b] _. simpl. destruct (_ =? _); [|done].
      rewrite flip_span_ok. cbn [bind]. apply flip_span_ok. }
  split; [apply Hrun|]. split; [apply with_span_reverse_involutive|].
  intros Hcomm. rewrite Hrun. f_equal.
  unfold V51.unidirectional_forward, bidirectional_blocks. do 2 f_equal.
  rewrite fold_left_fmap.
  assert (Hin : forall ib, ib ∈ zip (seqZ 0 (len blocks)) blocks -> ib.2 ∈ blocks).
  { intros [i b] Hib. apply elem_of_zip_r in Hib. done. }
  transitivity (fold_left (fun y (ib : Z * (list (list V) -> list (list V))) => ib.2 y)
                  (zip (seqZ 0 (len blocks)) blocks) (if dropout then drop0 x else x)).
  - apply fold_left_ext_in. intros a ib Hib. destruct (_ =? _); [|done].
    rewrite Hcomm by (by apply Hin).
    apply fmap_with_span_reverse_involutive.
  - rewrite <- (fold_left_fmap (fun y (b : list (list V) -> list (list V)) => b y) snd).
    rewrite snd_zip; [done|]. rewrite length_seqZ. unfold len. lia.
Qed.

(** ** The multidirectional pass *)

Lemma omap_total {A B} (f : A -> option B) (l : list A) :
  (forall a, a ∈ l -> is_Some (f a)) ->
  length (omap f l) = length l /\ forall i, omap f l !! i = l !! i ≫= f.
Proof.
  induction l as [|a l IH]; intros Hf; [by split; [|intros []]|].
  destruct (Hf a) as [b Hb]; [left|].
  destruct IH as [IH1 IH2]; [intros a' Ha'; apply Hf; by right|].
  cbn [omap list_omap]. rewrite Hb. split; [simpl; by rewrite <- IH1|].
  intros [|i]; simpl; [done | apply IH2].
Qed.

Section Transposed.
Context {A : Type}.
Variable h : Z.
Hypothesis Hh : 0 <= h.
Variable span : list A.
Hypothesis Hspan : len span = h * h.

Lemma transposed_column (c : Z) :
  0 <= c < h ->
  length (omap (fun r => span !! Z.to_nat (r * h + c)) (seqZ 0 h)) = Z.to_nat h /\
  forall r : nat, (r < Z.to_nat h)%nat ->
    omap (fun r => span !! Z.to_nat (r * h + c)) (seqZ 0 h) !! r
    = span !! (r * Z.to_nat h + Z.to_nat c)%nat.
Proof.
  intros Hc.
  destruct (omap_total (fun r => span !! Z.to_nat (r * h + c)) (seqZ 0 h)) as [H1 H2].
  { intros r Hr. apply elem_of_seqZ in Hr. apply lookup_lt_is_Some.
    unfold len in Hspan. nia. }
  split; [by rewrite H1, length_seqZ|].
  intros r Hr. rewrite H2, lookup_seqZ_lt by lia. simpl. f_equal. nia.
Qed.

Lemma transposed_columns :
  Forall (fun l : list A => length l = Z.to_nat h)
    ((fun c => omap (fun r => span !! Z.to_nat (r * h + c)) (seqZ 0 h)) <$> seqZ 0 h).
Proof.
  apply Forall_fmap, list.Forall_forall. intros c Hc. apply elem_of_seqZ in Hc.
  simpl. apply transposed_column. lia.
Qed.

Lemma transposed_length : length (transposed h span) = length span.
Proof.
  unfold transposed. rewrite length_join.
  rewrite (sum_list_fmap_same (Z.to_nat h)) by apply transposed_columns.
  rewrite length_fmap, length_seqZ. unfold len in Hspan. nia.
Qed.

Lemma transposed_lookup (r c : nat) :
  (r < Z.to_nat h)%nat -> (c < Z.to_nat h)%nat ->
  transposed h span !! (c * Z.to_nat h + r)%nat = span !! (r * Z.to_nat h + c)%nat.
Proof.
  intros Hr Hc.
  destruct (lookup_lt_is_Some_2 span (r * Z.to_nat h + c)) as [v Hv].
  { unfold len in Hspan. nia. }
  rewrite Hv. unfold transposed.
  apply (join_lookup_Some_same_length' (Z.to_nat h)); [apply transposed_columns | done |].
  eexists. split.
  - rewrite list_lookup_fmap, lookup_seqZ_lt by lia. simpl. reflexivity.
  - destruct (transposed_column (0 + Z.of_nat c)) as [_ Hcol]; [lia|].
    rewrite Hcol by done. rewrite <- Hv. f_equal. lia.
Qed.
End Transposed.

Lemma transposed_involutive {A} (h : Z) (span : list A) :
  0 <= h -> len span = h * h -> transposed h (transposed h span) = span.
Proof.
  intros Hh Hspan.
  assert (Hlen1 : length (transposed h span) = length span)
    by by apply transposed_length.
  assert (Hspan1 : len (transposed h span) = h * h) by (unfold len in *; lia).
  assert (Hlen2 : length (transposed h (transposed h span)) = length span).
  { rewrite (transposed_length h Hh _ Hspan1). done. }
  apply list_eq. intros i.
  destruct (decide (i < length span)%nat) as [Hi|Hi].
  - assert (Hpos : (0 < Z.to_nat h)%nat) by (unfold len in Hspan; nia).
    pose proof (Nat.div_mod_eq i (Z.to_nat h)) as Hdm.
    pose proof (Nat.mod_upper_bound i (Z.to_nat h) ltac:(lia)) as Hm.
    assert (Hd : (i / Z.to_nat h < Z.to_nat h)%nat).
    { apply Nat.Div0.div_lt_upper_bound. unfold len in Hspan. nia. }
    replace i with ((i / Z.to_nat h) * Z.to_nat h + i mod Z.to_nat h)%nat at 1 2 by lia.
    rewrite (transposed_lookup h Hh _ Hspan1) by done.
    rewrite (transposed_lookup h Hh _ Hspan) by done. done.
  - rewrite !lookup_ge_None_2 by lia. done.
Qed.

Lemma transpose_grid_square {A} (h : Z) (span : list A) :
  len span = h * h -> V51.transpose_grid h h span = Ok (transposed h span).
Proof.
  intros Hspan. unfold V51.transpose_grid. by rewrite bool_decide_eq_true_2.
Qed.

Lemma foldM_ok_inv {A B} (P : A -> Prop) (f : A -> B -> result A) (g : A -> B -> A)
    (l : list B) :
  (forall a b, b ∈ l -> P a -> f a b = Ok (g a b) /\ P (g a b)) ->
  forall a, P a -> foldM f a l = Ok (fold_left g l a) /\ P (fold_left g l a).
Proof.
  induction l as [|b l IH]; intros Hf a Ha; [done|].
  cbn [foldM fold_left]. destruct (Hf a b) as [-> Hg]; [left | done|].
  apply IH; [|done]. intros a' b' Hb'. apply Hf. by right.
Qed.

Lemma spans_inside_shape {V} (img_end : Z) (x y : list (list V)) :
  length <$> y = length <$> x -> spans_inside img_end x -> spans_inside img_end y.
Proof.
  unfold spans_inside. intros Hshape Hx.
  assert (Hn : Forall (fun n : nat => img_end <= Z.of_nat n) (length <$> y)).
  { rewrite Hshape. rewrite list.Forall_fmap. exact Hx. }
  rewrite list.Forall_fmap in Hn. exact Hn.
Qed.

Section SquareSpan.
Context {V : Type}.
Variables h img_start img_end : Z.
Hypothesis Hh : 0 <= h.
Hypothesis Hstart : 0 <= img_start.
Hypothesis Hend : img_end = img_start + h * h.

Lemma slice_inside_length (row : list V) :
  img_end <= len row -> len (slice row (Some img_start) (Some img_end)) = h * h.
Proof.
  intros Hrow. unfold len. rewrite slice_length. unfold norm_index.
  destruct (Z.ltb_spec img_start 0); [lia|].
  destruct (Z.ltb_spec img_end 0); [nia|].
  unfold len in *. nia.
Qed.

Lemma on_square_reverse : on_square h (@reverse V).
Proof. intros l Hl. unfold len in *. by rewrite length_reverse. Qed.

Lemma on_square_transposed : on_square h (@transposed V h).
Proof. intros l Hl. unfold len in *. by rewrite transposed_length. Qed.

Lemma on_square_id : on_square h (fun l : list V => l).
Proof. by intros l Hl. Qed.

Lemma on_square_compose (f g : list V -> list V) :
  on_square h f -> on_square h g -> on_square h (fun l => f (g l)).
Proof. intros Hf Hg l Hl. by apply Hf, Hg. Qed.

Lemma with_span_inside (f : list V -> list V) (x : list (list V)) :
  on_square h f -> spans_inside img_end x ->
  Forall (fun row => length (f (slice row (Some img_start) (Some img_end)))
                     = length (slice row (Some img_start) (Some img_end))) x.
Proof.
  intros Hf Hx. eapply List.Forall_impl; [|exact Hx].
  intros row Hrow. pose proof (slice_inside_length row Hrow) as Hs.
  pose proof (Hf _ Hs) as Hfs. unfold len in *. lia.
Qed.

Lemma spans_inside_with_span (f : list V -> list V) (x : list (list V)) :
  on_square h f -> spans_inside img_end x ->
  spans_inside img_end (with_span f img_start img_end <$> x).
Proof.
  intros Hf Hx. apply (spans_inside_shape img_end x); [|done].
  rewrite <- list_fmap_compose. apply Forall_fmap_ext.
  eapply List.Forall_impl; [|exact (with_span_inside f x Hf Hx)].
  intros row Hrow. simpl. by apply with_span_length.
Qed.

Lemma fmap_with_span_compose (f g : list V -> list V) (x : list (list V)) :
  on_square h g -> spans_inside img_end x ->
  with_span f img_start img_end <$> (with_span g img_start img_end <$> x)
  = with_span (fun l => f (g l)) img_start img_end <$> x.
Proof.
  intros Hg Hx. rewrite <- list_fmap_compose. apply Forall_fmap_ext.
  eapply List.Forall_impl; [|exact (with_span_inside g x Hg Hx)].
  intros row Hrow. simpl. by apply with_span_compose.
Qed.

Lemma fmap_with_span_id (x : list (list V)) :
  with_span (fun l => l) img_start img_end <$> x = x.
Proof.
  induction x as [|row x IH]; [done|].
  cbn [fmap list_fmap]. rewrite with_span_id. f_equal. apply IH.
Qed.

Lemma transpose_span_ok (x : list (list V)) :
  spans_inside img_end x ->
  V51.transpose_span h h img_start img_end x
  = Ok (with_span (transposed h) img_start img_end <$> x).
Proof.
  intros Hx. unfold V51.transpose_span.
  rewrite (mapM_result_ok _ (transposed h)).
  - cbn [bind]. apply time_slice_assign_with_span.
    apply with_span_inside; [apply on_square_transposed | done].
  - intros span Hspan. unfold V51.time_slice in Hspan.
    apply list_elem_of_fmap in Hspan as (row & -> & Hrow).
    apply transpose_grid_square, slice_inside_length.
    unfold spans_inside in Hx. rewrite list.Forall_forall in Hx. by apply Hx.
Qed.
End SquareSpan.

Section MultiStep.
Context {V : Type}.
Variables h img_start img_end : Z.
Hypothesis Hh : 0 <= h.
Hypothesis Hstart : 0 <= img_start.
Hypothesis Hend : img_end = img_start + h * h.

Lemma multidirectional_step (i : Z) (block : list (list V) -> list (list V))
    (x : list (list V)) :
  keeps_shape block -> spans_inside img_end x ->
  let t : list V -> list V := if 2 <=? i `mod` 4 then transposed h else (fun l => l) in
  let r : list V -> list V := if i `mod` 2 =? 1 then reverse else (fun l => l) in
  let y := with_span (fun l => t (r l)) img_start img_end
             <$> block (with_span (fun l => r (t l)) img_start img_end <$> x) in
  (x1 <- (if 2 <=? i `mod` 4 then V51.transpose_span h h img_start img_end x else Ok x);
   x2 <- (if i `mod` 2 =? 1 then V51.flip_span img_start img_end x1 else Ok x1);
   x3 <- (if i `mod` 2 =? 1 then V51.flip_span img_start img_end (block x2)
          else Ok (block x2));
   if 2 <=? i `mod` 4 then V51.transpose_span h h img_start img_end x3 else Ok x3)
  = Ok y /\ spans_inside img_end y.
Proof.
  intros Hblock Hx t r y.
  assert (Ht : on_square h t).
  { unfold t. destruct (2 <=? i `mod` 4);
      [by apply on_square_transposed | apply on_square_id]. }
  assert (Hr : on_square h r).
  { unfold r. destruct (i `mod` 2 =? 1); [apply on_square_reverse | apply on_square_id]. }
  assert (HT : forall z, spans_inside img_end z ->
    (if 2 <=? i `mod` 4 then V51.transpose_span h h img_start img_end z else Ok z)
    = Ok (with_span t img_start img_end <$> z)).
  { intros z Hz. unfold t. destruct (2 <=? i `mod` 4).
    - by apply transpose_span_ok.
    - by rewrite fmap_with_span_id. }
  assert (HR : forall z,
    (if i `mod` 2 =? 1 then V51.flip_span img_start img_end z else Ok z)
    = Ok (with_span r img_start img_end <$> z)).
  { intros z. unfold r. destruct (i `mod` 2 =? 1).
    - apply flip_span_ok.
    - by rewrite fmap_with_span_id. }
  assert (Hin : forall (f : list V -> list V) z, on_square h f -> spans_inside img_end z ->
                  spans_inside img_end (with_span f img_start img_end <$> z)).
  { intros f z Hf Hz. by apply (spans_inside_with_span h). }
  assert (Hb : forall z, spans_inside img_end z -> spans_inside img_end (block z)).
  { intros z Hz. by apply (spans_inside_shape img_end z). }
  rewrite HT by done. cbn [bind]. rewrite HR. cbn [bind]. rewrite HR. cbn [bind].
  rewrite HT by auto.
  rewrite (fmap_with_span_compose h img_start img_end Hh Hstart Hend r t x) by done.
  rewrite (fmap_with_span_compose h img_start img_end Hh Hstart Hend t r) by auto using on_square_compose.
  split; [done|]. unfold y. auto using on_square_compose.
Qed.

Lemma with_span_put_back (dt dr : bool) (row : list V) :
  img_end <= len row ->
  let t : list V -> list V := if dt then transposed h else (fun l => l) in
  let r : list V -> list V := if dr then reverse else (fun l => l) in
  with_span (fun l => t (r l)) img_start img_end
    (with_span (fun l => r (t l)) img_start img_end row) = row.
Proof.
  intros Hrow t r.
  pose proof (slice_inside_length h img_start img_end Hh Hstart Hend row Hrow) as Hs.
  assert (Ht : on_square h t).
  { unfold t. destruct dt; [by apply on_square_transposed | apply on_square_id]. }
  assert (Hr : on_square h r).
  { unfold r. destruct dr; [apply on_square_reverse | apply on_square_id]. }
  rewrite with_span_compose.
  - rewrite (with_span_ext _ (fun l => l)); [apply with_span_id|].
    assert (Hrr : forall l, r (r l) = l).
    { intros l. unfold r. destruct dr; [apply reverse_involutive | done]. }
    rewrite Hrr. unfold t. destruct dt; [by apply transposed_involutive | done].
  - pose proof (on_square_compose h r t Hr Ht _ Hs) as Hc. simpl in Hc.
    unfold len in *. lia.
Qed.
End MultiStep.

(** X2.  When the image span holds [h * h] positions and lies inside every
    sample, [multidirectional_forward] does not raise: it is the
    unidirectional pass over the blocks in which blocks 2 and 3 of every
    four are handed the span transposed, odd blocks are handed it reversed,
    and the output of a block is put back in the opposite order.  Putting
    back undoes the reordering. *)
Theorem multidirectional_forward_square {V L : Type}
    (blocks : list (list (list V) -> list (list V)))
    (drop0 ln_out : list (list V) -> list (list V)) (head : list (list V) -> L)
    (dropout : bool) (h img_start img_end : Z) (x : list (list V)) :
  0 <= h -> 0 <= img_start -> img_end = img_start + h * h ->
  spans_inside img_end x -> keeps_shape drop0 -> Forall keeps_shape blocks ->
  V51.multidirectional_forward blocks drop0 ln_out head dropout img_start img_end x
  = Ok (V51.unidirectional_forward (multidirectional_blocks h img_start img_end blocks)
          drop0 ln_out head dropout x)
  /\ (forall (dt dr : bool) (row : list V),
        img_end <= len row ->
        let t : list V -> list V := if dt then transposed h else (fun l => l) in
        let r : list V -> list V := if dr then reverse else (fun l => l) in
        with_span (fun l => t (r l)) img_start img_end
          (with_span (fun l => r (t l)) img_start img_end row) = row).
Proof.
  intros Hh Hstart Hend Hx Hdrop Hblocks.
  split; [|intros dt dr row Hrow; by apply with_span_put_back].
  unfold V51.multidirectional_forward, V51.unidirectional_forward,
    multidirectional_blocks.
  replace (img_end - img_start) with (h * h) by lia. rewrite Z.sqrt_square by done.
  cbv zeta.
  set (x0 := if dropout then drop0 x else x).
  assert (Hx0 : spans_inside img_end x0).
  { unfold x0. destruct dropout; [|done]. by apply (spans_inside_shape img_end x). }
  destruct (foldM_ok_inv (spans_inside img_end)
    (fun (x : list (list V)) '(i, block) =>
       x1 <- (if 2 <=? i `mod` 4 then V51.transpose_span h h img_start img_end x
              else Ok x);
       x2 <- (if i `mod` 2 =? 1 then V51.flip_span img_start img_end x1 else Ok x1);
       x3 <- (if i `mod` 2 =? 1 then V51.flip_span img_start img_end (block x2)
              else Ok (block x2));
       if 2 <=? i `mod` 4 then V51.transpose_span h h img_start img_end x3 else Ok x3)
    (fun (y : list (list V)) (ib : Z * (list (list V) -> list (list V))) =>
       with_span (fun l =>
           (if 2 <=? ib.1 `mod` 4 then transposed h else (fun l => l))
             ((if ib.1 `mod` 2 =? 1 then reverse else (fun l => l)) l))
         img_start img_end
         <$> ib.2 (with_span (fun l =>
                      (if ib.1 `mod` 2 =? 1 then reverse else (fun l => l))
                        ((if 2 <=? ib.1 `mod` 4 then transposed h else (fun l => l)) l))
                     img_start img_end <$> y))
    (zip (seqZ 0 (len blocks)) blocks)) with (a := x0) as [Hfold _].
  - intros a [i block] Hib Ha. simpl.
    apply (multidirectional_step h img_start img_end Hh Hstart Hend i block a); [|done].
    apply elem_of_zip_r in Hib. rewrite list.Forall_forall in Hblocks. by apply Hblocks.
  - done.
  - rewrite Hfold. cbn [bind]. rewrite fold_left_fmap. done.
Qed.

Lemma slice_within_length {A} (row : list A) (start stop : Z) :
  0 <= start <= stop -> stop <= len row ->
  len (slice row (Some start) (Some stop)) = stop - start.
Proof.
  intros Hs Hrow. unfold len. rewrite slice_length. unfold norm_index.
  destruct (Z.ltb_spec start 0); [lia|]. destruct (Z.ltb_spec stop 0); [lia|].
  unfold len in *. lia.
Qed.



(** ** The reordering passes *)

Lemma gather_in_range {A} (xs : list A) (order : list Z) :
  (forall i, i ∈ order -> 0 <= i < len xs) ->
  V51.gather xs order = Ok (omap (fun i => xs !! Z.to_nat i) order).
Proof.
  unfold V51.gather. induction order as [|i order IH]; intros Hin; [done|].
  rewrite mapM_result_cons.
  destruct (index_in_range xs i) as (a & -> & Ha); [apply Hin; left|].
  cbn [bind]. rewrite IH by (intros j Hj; apply Hin; by right).
  cbn [bind omap list_omap]. by rewrite Ha.
Qed.

Lemma omap_lookup_seqZ {A} (xs : list A) :
  omap (fun i => xs !! Z.to_nat i) (seqZ 0 (len xs)) = xs.
Proof.
  destruct (omap_total (fun i => xs !! Z.to_nat i) (seqZ 0 (len xs))) as [H1 H2].
  { intros i Hi. apply elem_of_seqZ in Hi. apply lookup_lt_is_Some. unfold len in Hi. lia. }
  apply list_eq. intros i. rewrite H2.
  destruct (decide (i < length xs)%nat) as [Hi|Hi].
  - rewrite lookup_seqZ_lt by (unfold len; lia). simpl. f_equal. lia.
  - rewrite lookup_seqZ_ge by (unfold len; lia). simpl.
    symmetry. apply lookup_ge_None_2. lia.
Qed.

(** Indexing with a permutation of the positions gives a permutation of
    the sequence. *)
Lemma gather_permutation {A} (xs : list A) (order : list Z) :
  order ≡ₚ seqZ 0 (len xs) ->
  exists ys, V51.gather xs order = Ok ys /\ ys ≡ₚ xs.
Proof.
  intros Hperm. eexists. split.
  - apply gather_in_range. intros i Hi. rewrite Hperm in Hi.
    apply elem_of_seqZ in Hi. lia.
  - rewrite Hperm. by rewrite omap_lookup_seqZ.
Qed.

Lemma slice_drop_last {A} (l : list A) :
  slice l None (Some (-1)) = take (length l - 1) l.
Proof.
  unfold slice, norm_index, len. change (-1 <? 0) with true. cbv iota.
  rewrite drop_0. f_equal. lia.
Qed.

Section Reordering.
Context {V L : Type}.
Variable blocks : list (list (list V) -> list (list V)).
Variables drop0 ln_out : list (list V) -> list (list V).
Variable head : list (list V) -> L.
Variable dropout : bool.

Lemma spiral_forward_reorders (n img_start img_end : Z) (order : list Z)
    (x x_emb : list (list V)) :
  0 <= n -> 0 <= img_start -> img_end = img_start + n * n ->
  spans_inside img_end x ->
  Forall2 (fun (row feats : list V) => len feats = n * n + 1) x x_emb ->
  order ≡ₚ seqZ 0 (n * n) ->
  reordered_pass blocks drop0 ln_out head dropout img_start img_end x x_emb
    (V51.spiral_forward blocks drop0 ln_out head dropout order img_start img_end
       x x_emb).
Proof.
  intros Hn Hstart Hend Hx Hemb Hperm. unfold reordered_pass, V51.spiral_forward.
  assert (Hys : exists ys,
    mapM (fun row => V51.gather (slice row None (Some (-1))) order) x_emb = Ok ys /\
    Forall2 (fun feats y => y ≡ₚ take (length feats - 1) feats) x_emb ys).
  { clear Hx. induction Hemb as [|row feats x x_emb Hfeats Hemb IH].
    - exists []. by split.
    - destruct IH as (ys & Hm & Hp).
      destruct (gather_permutation (slice feats None (Some (-1))) order) as (y & Hy & Hyp).
      { rewrite Hperm, slice_drop_last. unfold len in *. rewrite length_take.
        by replace (Z.of_nat ((length feats - 1) `min` length feats)) with (n * n)
          by lia. }
      exists (y :: ys). rewrite mapM_result_cons, Hy. cbn [bind]. rewrite Hm.
      split; [done|]. constructor; [|done].
      by rewrite <- slice_drop_last. }
  destruct Hys as (ys & Hm & Hp). rewrite Hm. cbn [bind].
  exists ys. split; [done|].
  assert (Hl' : Forall2 (fun row y => length y
                  = length (slice row (Some img_start) (Some img_end))) x ys).
  { clear Hm. induction Hemb in ys, Hp, Hx |- *.
    - apply Forall2_nil_inv_l in Hp as ->. constructor.
    - apply Forall2_cons_inv_l in Hp as (y' & ys' & Hy & Hp' & ->).
      apply list.Forall_cons in Hx as [Hrow Hx].
      constructor; [|by apply IHHemb].
      rewrite Hy, length_take.
      pose proof (slice_within_length x img_start img_end ltac:(nia) Hrow) as Hs.
      unfold len in *. nia. }
  rewrite (time_slice_assign_spans _ _ _ _ Hl'). done.
Qed.
End Reordering.

(** X4.  For a grid of side [n >= 1], image features of [n * n] patch rows and
    a last row, and a span of [n * n] positions inside every sample, the
    spiral, snake and zigzag passes do not raise: each writes into the span
    of every sample a permutation of the patch features of that sample,
    leaves the other positions alone, and runs the unidirectional pass. *)
Theorem reordering_forward_permutes_patches {V L : Type}
    (blocks : list (list (list V) -> list (list V)))
    (drop0 ln_out : list (list V) -> list (list V)) (head : list (list V) -> L)
    (dropout : bool) (n img_start img_end : Z) (x x_emb : list (list V)) :
  1 <= n -> 0 <= img_start -> img_end = img_start + n * n ->
  spans_inside img_end x ->
  Forall2 (fun (row feats : list V) => len feats = n * n + 1) x x_emb ->
  exists spiral_order snake_order zigzag_order,
    V51.get_spiral_scan_order n = Ok spiral_order /\
    V51.get_snake_scan_order n = Ok snake_order /\
    V51.get_zigzag_scan_order n = Ok zigzag_order /\
    reordered_pass blocks drop0 ln_out head dropout img_start img_end x x_emb
      (V51.spiral_forward blocks drop0 ln_out head dropout spiral_order
         img_start img_end x x_emb) /\
    reordered_pass blocks drop0 ln_out head dropout img_start img_end x x_emb
      (V51.snake_forward blocks drop0 ln_out head dropout snake_order
         img_start img_end x x_emb) /\
    reordered_pass blocks drop0 ln_out head dropout img_start img_end x x_emb
      (V51.zigzag_forward blocks drop0 ln_out head dropout zigzag_order
         img_start img_end x x_emb).
Proof.
  intros Hn Hstart Hend Hx Hemb.
  destruct (get_spiral_scan_order_perm n) as (spiral & Hspiral & Hp1); [lia|].
  destruct (get_snake_scan_order_perm n) as (snake & Hsnake & Hp2); [lia|].
  destruct (get_zigzag_scan_order_perm n) as (zigzag & Hzigzag & Hp3); [lia | lia|].
  exists spiral, snake, zigzag. repeat (split; [done|]).
  split; [|split].
  - apply (spiral_forward_reorders _ _ _ _ _ n); (done || lia).
  - change (V51.snake_forward blocks drop0 ln_out head dropout snake img_start img_end
              x x_emb)
      with (V51.spiral_forward blocks drop0 ln_out head dropout snake img_start img_end
              x x_emb).
    apply (spiral_forward_reorders _ _ _ _ _ n); (done || lia).
  - change (V51.zigzag_forward blocks drop0 ln_out head dropout zigzag img_start img_end
              x x_emb)
      with (V51.spiral_forward blocks drop0 ln_out head dropout zigzag img_start img_end
              x x_emb).
    apply (spiral_forward_reorders _ _ _ _ _ n); (done || lia).
Qed.

(** ** The layout of the assembled batch *)

Lemma slice_assign_length {A} (t v t' : list A) (start stop : option Z) :
  slice_assign t start stop v = Ok t' -> length t' = length t.
Proof.
  unfold slice_assign.
  set (lo := match start with None => 0 | Some s => norm_index (len t) s end).
  set (hi := match stop with None => len t | Some s => norm_index (len t) s end).
  assert (Hlo : 0 <= lo <= len t).
  { unfold lo. destruct start; [apply norm_index_bounds|]; unfold len; lia. }
  assert (Hhi : 0 <= hi <= len t).
  { unfold hi. destruct stop; [apply norm_index_bounds|]; unfold len; lia. }
  assert (Hlen : forall w : list A, length w = Z.to_nat (hi - lo) ->
            length (take (Z.to_nat lo) t ++ w ++ drop (Z.to_nat lo + Z.to_nat (hi - lo)) t)
            = length t).
  { intros w Hw. rewrite !length_app, length_take, length_drop, Hw.
    unfold len in *. lia. }
  case_bool_decide as Hv.
  - intros [= <-]. by apply Hlen.
  - destruct v as [|a [|??]]; try done. intros [= <-].
    apply Hlen. by rewrite length_replicate.
Qed.

Lemma slice_assign_prefix {A} (t v t' : list A) (n : Z) :
  0 <= n <= len t -> len v = n ->
  slice_assign t None (Some n) v = Ok t' -> t' = v ++ drop (Z.to_nat n) t.
Proof.
  intros Hn Hv. unfold slice_assign, norm_index.
  destruct (Z.ltb_spec n 0); [lia|]. rewrite Z.min_l by lia. rewrite Z.sub_0_r.
  rewrite bool_decide_eq_true_2 by (unfold len in *; lia).
  by intros [= <-].
Qed.

Lemma max_of_bound (l : list Z) (m : Z) :
  max_of l = Ok m -> forall x, x ∈ l -> x <= m.
Proof.
  destruct l as [|a l]; [done|]. simpl. intros [= <-].
  assert (Hgen : forall (l : list Z) a, a <= fold_left Z.max l a /\
                   forall x, x ∈ l -> x <= fold_left Z.max l a).
  { clear. induction l as [|b l IH]; intros a; simpl.
    - split; [lia|]. intros x Hx. by apply not_elem_of_nil in Hx.
    - destruct (IH (Z.max a b)) as [H1 H2]. split; [lia|].
      intros x Hx. apply elem_of_cons in Hx as [->|Hx]; [lia | by apply H2]. }
  destruct (Hgen l a) as [H1 H2].
  intros x Hx. apply elem_of_cons in Hx as [->|Hx]; [done | by apply H2].
Qed.

Lemma max_of_elem (l : list Z) (m : Z) : max_of l = Ok m -> m ∈ l.
Proof.
  destruct l as [|a l]; [done|]. simpl. intros [= <-].
  revert a. induction l as [|b l IH]; intros a; simpl; [left|].
  pose proof (IH (Z.max a b)) as Hin. apply elem_of_cons in Hin as [Heq|Hin].
  - rewrite Heq. destruct (Z.max_spec a b) as [[_ ->]|[_ ->]]; [right; left | left].
  - right. by right.
Qed.

Lemma max_of_nonneg {A} (l : list (list A)) (m : Z) :
  max_of (len <$> l) = Ok m -> 0 <= m.
Proof.
  intros Hm. destruct l as [|a l]; [done|].
  pose proof (max_of_bound _ _ Hm (len a)) as H.
  assert (len a <= m) by (apply H; left). unfold len in *. lia.
Qed.

Section PadRight.
Context {V : Type}.
Variable vzero : V.

Lemma pad_right_rows (max_len : Z) (E : list (list V)) (L : list (list Z))
    (E' : list (list V)) (L' : list (list Z)) :
  0 <= max_len -> length L = length E ->
  V51.pad_right vzero max_len E L = Ok (E', L') ->
  length E' = length E /\ length L' = length E /\
  Forall (fun row => length row = Z.to_nat max_len) E' /\
  Forall (fun row => length row = Z.to_nat max_len) L' /\
  (forall b e, E !! b = Some e -> len e <= max_len ->
     E' !! b = Some (e ++ replicate (Z.to_nat max_len - length e) vzero)) /\
  (forall b e l, E !! b = Some e -> L !! b = Some l ->
     exists l', L' !! b = Some l' /\
       slice_assign (replicate (Z.to_nat max_len) IGNORE_INDEX) None (Some (len e)) l
       = Ok l').
Proof.
  intros Hm Hlen. unfold V51.pad_right.
  destruct (mapM _ (zip E L)) as [rows|err] eqn:Hrows; [|done].
  cbn [bind]. intros [= <- <-].
  pose proof (mapM_result_length _ _ _ Hrows) as Hn.
  rewrite length_zip in Hn.
  assert (Hrow : forall b e l, E !! b = Some e -> L !! b = Some l ->
    exists e' l', rows !! b = Some (e', l') /\
      length e' = Z.to_nat max_len /\ length l' = Z.to_nat max_len /\
      (len e <= max_len -> e' = e ++ replicate (Z.to_nat max_len - length e) vzero) /\
      slice_assign (replicate (Z.to_nat max_len) IGNORE_INDEX) None (Some (len e)) l
      = Ok l').
  { intros b e l He Hl.
    destruct (mapM_result_lookup _ _ _ Hrows b (e, l)) as ([e' l'] & Hb & Hf).
    { rewrite lookup_zip_with, He. simpl. by rewrite Hl. }
    simpl in Hf.
    destruct (slice_assign (replicate _ vzero) _ _ _) as [e1|] eqn:He1; [|done].
    cbn [bind] in Hf.
    destruct (slice_assign (replicate _ IGNORE_INDEX) _ _ _) as [l1|] eqn:Hl1; [|done].
    cbn [bind] in Hf. injection Hf as <- <-.
    exists e1, l1. split; [done|].
    pose proof (slice_assign_length _ _ _ _ _ He1) as H1.
    pose proof (slice_assign_length _ _ _ _ _ Hl1) as H2.
    rewrite length_replicate in H1. rewrite length_replicate in H2.
    split; [done|]. split; [done|]. split; [|done].
    intros Hfit. apply slice_assign_prefix in He1; [|unfold len in *; rewrite length_replicate; lia | done].
    rewrite He1, drop_replicate. do 2 f_equal. unfold len. lia. }
  split; [rewrite length_fmap; lia|]. split; [rewrite length_fmap; lia|].
  split; [|split; [|split]].
  - apply list.Forall_forall. intros row Hin.
    apply list_elem_of_fmap in Hin as ([e' l'] & -> & Hin).
    apply list_elem_of_lookup in Hin as [b Hb].
    pose proof (lookup_lt_Some _ _ _ Hb) as Hlt.
    destruct (lookup_lt_is_Some_2 E b) as [e He]; [lia|].
    destruct (lookup_lt_is_Some_2 L b) as [l Hl]; [lia|].
    destruct (Hrow b e l He Hl) as (e1 & l1 & Hb' & H1 & _). by simplify_eq.
  - apply list.Forall_forall. intros row Hin.
    apply list_elem_of_fmap in Hin as ([e' l'] & -> & Hin).
    apply list_elem_of_lookup in Hin as [b Hb].
    pose proof (lookup_lt_Some _ _ _ Hb) as Hlt.
    destruct (lookup_lt_is_Some_2 E b) as [e He]; [lia|].
    destruct (lookup_lt_is_Some_2 L b) as [l Hl]; [lia|].
    destruct (Hrow b e l He Hl) as (e1 & l1 & Hb' & _ & H2 & _). by simplify_eq.
  - intros b e He Hfit.
    destruct (lookup_lt_is_Some_2 L b) as [l Hl];
      [apply lookup_lt_Some in He; lia|].
    destruct (Hrow b e l He Hl) as (e1 & l1 & Hb' & _ & _ & H3 & _).
    rewrite list_lookup_fmap, Hb'. simpl. by rewrite H3.
  - intros b e l He Hl.
    destruct (Hrow b e l He Hl) as (e1 & l1 & Hb' & _ & _ & _ & H4).
    exists l1. split; [|done]. by rewrite list_lookup_fmap, Hb'.
Qed.
End PadRight.

Section BatchShape.
Context {V : Type}.
Variable emb : Z -> V.
Variable vzero : V.

Lemma splice_sample_features_length (max_idx : Z) (labels : list (list Z))
    (image_features feats' : list (list V)) (idx : Z) (ids : list Z)
    (e : list V) (l : list Z) :
  V51.splice_sample emb vzero max_idx labels image_features idx ids = Ok (e, l, feats') ->
  length feats' = length image_features.
Proof.
  unfold V51.splice_sample. intros H.
  destruct (index labels _); [|done]. cbn [bind] in H.
  destruct (V51.num_images ids =? 0).
  - destruct (index image_features _); [|done]. cbn [bind] in H.
    destruct (index _ _); [|done]. cbn [bind] in H.
    injection H as _ _ <-. by rewrite length_insert.
  - destruct (V51.num_images ids =? 1); [|done].
    destruct (V51.image_token_indice ids); [|done]. cbn [bind] in H.
    destruct (slice_assign _ _ _ _); [|done]. cbn [bind] in H.
    destruct (slice_assign _ _ _ _); [|done]. cbn [bind] in H.
    destruct (index image_features _); [|done]. cbn [bind] in H.
    by injection H as _ _ <-.
Qed.

Lemma splice_samples_length (max_idx : Z) (input_ids labels : list (list Z))
    (image_features : list (list V)) E L F :
  V51.splice_samples emb vzero max_idx input_ids labels image_features = Ok (E, L, F) ->
  length E = length input_ids /\ length L = length input_ids /\
  length F = length image_features.
Proof.
  unfold V51.splice_samples.
  enough (Hgen : forall (rest : list (list Z)) (k : Z) E0 L0 cur,
    foldM
      (fun '(new_input_embeds, new_labels, image_features) '(idx, cur_input_ids) =>
         '(e, l, image_features) <-
           V51.splice_sample emb vzero max_idx labels image_features idx cur_input_ids;
         Ok (new_input_embeds ++ [e], new_labels ++ [l], image_features))
      (E0, L0, cur) (zip (seqZ k (len rest)) rest) = Ok (E, L, F) ->
    length E = (length E0 + length rest)%nat /\
    length L = (length L0 + length rest)%nat /\ length F = length cur).
  { intros H. by apply Hgen in H. }
  induction rest as [|a rest IH]; intros k E0 L0 cur Hfold.
  - simpl in Hfold. injection Hfold as <- <- <-. simpl. lia.
  - rewrite zip_seqZ_cons in Hfold. cbn [foldM] in Hfold.
    destruct (V51.splice_sample _ _ _ _ _ _ _) as [[[e l] cur1]|] eqn:Hs; [|done].
    cbn [bind] in Hfold. apply IH in Hfold as (H1 & H2 & H3).
    apply splice_sample_features_length in Hs.
    rewrite length_app in H1, H2. simpl in *. lia.
Qed.

Lemma splice_samples_old_length (input_ids labels : list (list Z))
    (image_features : list (list V)) E L :
  V51_old.splice_samples emb input_ids labels image_features = Ok (E, L) ->
  length E = length input_ids /\ length L = length input_ids.
Proof.
  unfold V51_old.splice_samples.
  enough (Hgen : forall (rest : list (list Z)) (k : Z) E0 L0,
    foldM
      (fun '(new_input_embeds, new_labels) '(idx, cur_input_ids) =>
         '(e, l) <- V51_old.splice_sample emb labels image_features idx cur_input_ids;
         Ok (new_input_embeds ++ [e], new_labels ++ [l]))
      (E0, L0) (zip (seqZ k (len rest)) rest) = Ok (E, L) ->
    length E = (length E0 + length rest)%nat /\
    length L = (length L0 + length rest)%nat).
  { intros H. by apply Hgen in H. }
  induction rest as [|a rest IH]; intros k E0 L0 Hfold.
  - simpl in Hfold. injection Hfold as <- <-. simpl. lia.
  - rewrite zip_seqZ_cons in Hfold. cbn [foldM] in Hfold.
    destruct (V51_old.splice_sample _ _ _ _ _) as [[e l]|] eqn:Hs; [|done].
    cbn [bind] in Hfold. apply IH in Hfold as (H1 & H2).
    rewrite length_app in H1, H2. simpl in *. lia.
Qed.

Lemma truncate_input_lengths (ctx_len : Z) (E : list (list V)) (L : list (list Z)) :
  0 < ctx_len -> length L = length E ->
  let out := V51.truncate_input ctx_len E L in
  length out.1 = length E /\ length out.2 = length E /\
  Forall (fun row => len row <= ctx_len) out.1.
Proof.
  intros Hc Hlen out. subst out. rewrite truncate_input_map. simpl.
  rewrite !length_fmap, length_zip.
  split; [lia|]. split; [lia|].
  apply list.Forall_forall. intros row Hrow.
  apply list_elem_of_fmap in Hrow as ([x y] & -> & Hrow).
  apply list_elem_of_fmap in Hrow as ([x0 y0] & Heq & _).
  unfold truncate_sample in Heq. simpl in Heq.
  rewrite (slice_leading x0), (slice_trailing x0) in Heq by lia.
  simpl. unfold len.
  case_bool_decide; injection Heq as -> _.
  - rewrite length_take. lia.
  - rewrite length_drop. lia.
Qed.
End BatchShape.

(** X5.  The batch that [preparing_embedding] returns is rectangular, in both
    versions: it has a row of embeddings and a row of labels for every
    sample, all of one length; with [truncate=True] and a positive context
    length that length is at most [ctx_len].  In v5.1 the image features
    returned keep their number of rows. *)
Theorem preparing_embedding_shape {V : Type} (emb : Z -> V) (vzero : V) (ctx_len : Z)
    (input_ids labels : list (list Z)) (image_features : list (list V))
    (truncate : bool) :
  (forall p,
     V51.preparing_embedding emb vzero ctx_len input_ids labels image_features truncate
     = Ok p ->
     exists max_len : nat,
       length (V51.new_input_embeds_padded p) = length input_ids /\
       length (V51.new_labels_padded p) = length input_ids /\
       Forall (fun row => length row = max_len) (V51.new_input_embeds_padded p) /\
       Forall (fun row => length row = max_len) (V51.new_labels_padded p) /\
       (truncate = true -> 0 < ctx_len -> Z.of_nat max_len <= ctx_len) /\
       length (V51.image_features_out p) = length image_features) /\
  (forall embeds labels',
     V51_old.preparing_embedding emb vzero ctx_len input_ids labels image_features
       truncate = Ok (embeds, labels') ->
     exists max_len : nat,
       length embeds = length input_ids /\ length labels' = length input_ids /\
       Forall (fun row => length row = max_len) embeds /\
       Forall (fun row => length row = max_len) labels' /\
       (truncate = true -> 0 < ctx_len -> Z.of_nat max_len <= ctx_len)).
Proof.
  split.
  - intros p Hp. unfold V51.preparing_embedding in Hp.
    destruct (V51.get_max_image_token_indice _) as [m|]; [|done]. cbn [bind] in Hp.
    destruct (V51.splice_samples _ _ _ _ _ _) as [[[E L] F]|] eqn:Hs; [|done].
    cbn [bind] in Hp. apply splice_samples_length in Hs as (HE & HL & HF).
    set (T := if truncate then V51.truncate_input ctx_len E L else (E, L)) in Hp.
    assert (HT : length T.1 = length E /\ length T.2 = length E /\
                 (truncate = true -> 0 < ctx_len ->
                  Forall (fun row => len row <= ctx_len) T.1)).
    { unfold T. destruct truncate; simpl.
      - rewrite truncate_input_map. simpl. rewrite !length_fmap, length_zip.
        repeat split; [lia | lia|]. intros _ Hc.
        pose proof (truncate_input_lengths ctx_len E L Hc ltac:(lia)) as (_ & _ & H).
        by rewrite truncate_input_map in H.
      - repeat split; [lia|]. done. }
    destruct T as [E1 L1]. simpl in HT. destruct HT as (HE1 & HL1 & Hbound).
    destruct (max_of _) as [max_len|] eqn:Hmax; [|done]. cbn [bind] in Hp.
    destruct (V51.pad_right _ _ _ _) as [[E' L']|] eqn:Hpad; [|done].
    cbn [bind] in Hp. injection Hp as <-. simpl.
    pose proof (max_of_nonneg _ _ Hmax) as Hm0.
    apply pad_right_rows in Hpad as (H1 & H2 & H3 & H4 & _ & _); [|done | lia].
    exists (Z.to_nat max_len). repeat split; try done; try lia.
    intros Ht Hc. specialize (Hbound Ht Hc).
    destruct E1 as [|e E1]; [done|].
    assert (Hin : max_len ∈ len <$> (e :: E1)).
    { by apply max_of_elem. }
    apply list_elem_of_fmap in Hin as (row & -> & Hrow).
    rewrite list.Forall_forall in Hbound. specialize (Hbound row Hrow). lia.
  - intros embeds labels' Hp. unfold V51_old.preparing_embedding in Hp.
    destruct (V51_old.splice_samples _ _ _ _) as [[E L]|] eqn:Hs; [|done].
    cbn [bind] in Hp. apply splice_samples_old_length in Hs as (HE & HL).
    destruct (max_of _) as [max_len|] eqn:Hmax; [|done]. cbn [bind] in Hp.
    pose proof (max_of_nonneg _ _ Hmax) as Hm0.
    apply pad_right_rows in Hp as (H1 & H2 & H3 & H4 & _ & _);
      [|done | destruct truncate; rewrite ?length_fmap; lia].
    exists (Z.to_nat max_len).
    assert (Hlen : length (if truncate
                           then (fun x : list V => slice x None (Some ctx_len)) <$> E
                           else E) = length E)
      by (destruct truncate; by rewrite ?length_fmap).
    repeat split; try done; try lia.
    intros -> Hc.
    assert (Hall : forall x, x ∈ len <$> ((fun x : list V => slice x None (Some ctx_len)) <$> E)
                             -> x <= ctx_len).
    { intros x Hx. apply list_elem_of_fmap in Hx as (row & -> & Hrow).
      apply list_elem_of_fmap in Hrow as (row0 & -> & _).
      rewrite slice_leading by lia. unfold len. rewrite length_take. lia. }
    destruct ((fun x : list V => slice x None (Some ctx_len)) <$> E) as [|e E1] eqn:HE1;
      [done|].
    assert (Hin : max_len ∈ len <$> (e :: E1)).
    { by apply max_of_elem. }
    specialize (Hall _ Hin). lia.
Qed.

(** ** The image span of the assembled batch (v5.1) *)

Lemma pad_labels_span (m c : Z) (l l' lpre lpost : list Z) (k : nat) :
  0 <= c <= m -> l = lpre ++ replicate k IGNORE_INDEX ++ lpost ->
  Z.of_nat (length lpre + k) <= c ->
  slice_assign (replicate (Z.to_nat m) IGNORE_INDEX) None (Some c) l = Ok l' ->
  take k (drop (length lpre) l') = replicate k IGNORE_INDEX.
Proof.
  intros Hc Hl Hfit. unfold slice_assign, norm_index, len.
  rewrite length_replicate.
  destruct (Z.ltb_spec c 0); [lia|]. rewrite Z.min_l by lia. rewrite Z.sub_0_r.
  change (Z.to_nat 0) with 0%nat. cbn [take]. rewrite !app_nil_l.
  case_bool_decide as Hlen.
  - intros [= <-]. rewrite Hl, <- !app_assoc.
    rewrite drop_app_length. rewrite take_app_length'; [done|].
    by rewrite length_replicate.
  - destruct l as [|a [|??]]; try done. intros [= <-].
    destruct k as [|k]; [done|].
    destruct lpre as [|? lpre]; [|destruct lpre; done].
    simpl in Hl. injection Hl as -> Hl'.
    destruct k; [|done].
    simpl. destruct (Z.to_nat c) as [|c'] eqn:Hc'; [lia|]. done.
Qed.

Section ImageSpan.
Context {V : Type}.
Variable emb : Z -> V.
Variable vzero : V.

(** What the body of the loop builds: [max_image_token_indice] positions,
    then the image features of the sample as they are after the body,
    then the rest. *)
Lemma splice_sample_layout (max_idx : Z) (labels : list (list Z))
    (image_features feats' : list (list V)) (idx : nat) (ids : list Z)
    (e : list V) (l : list Z) :
  V51.splice_sample emb vzero max_idx labels image_features (Z.of_nat idx) ids
  = Ok (e, l, feats') ->
  exists (pre row post : list V) (lpre lpost : list Z) (orig : list V),
    image_features !! idx = Some orig /\ feats' !! idx = Some row /\
    length pre = Z.to_nat max_idx /\ length lpre = Z.to_nat max_idx /\
    e = pre ++ row ++ post /\
    l = lpre ++ replicate (length row) IGNORE_INDEX ++ lpost /\
    (V51.num_images ids = 0 -> row = replicate (length orig) vzero) /\
    (V51.num_images ids <> 0 -> row = orig).
Proof.
  unfold V51.splice_sample. intros H.
  destruct (index labels _) as [cur_labels|]; [|done]. cbn [bind] in H.
  destruct (Z.eqb_spec (V51.num_images ids) 0) as [H0|H0].
  - destruct (index image_features _) as [orig|] eqn:Horig; [|done]. cbn [bind] in H.
    apply index_Ok_lookup in Horig. rewrite Nat2Z.id in H.
    rewrite (index_insert_same _ _ orig) in H by done. cbn [bind] in H.
    injection H as <- <- <-.
    exists (emb <$> replicate (Z.to_nat max_idx) 0), (replicate (length orig) vzero),
      (emb <$> ids), (replicate (Z.to_nat max_idx) IGNORE_INDEX), cur_labels, orig.
    rewrite length_fmap, !length_replicate.
    repeat split; try done.
    apply list_lookup_insert_eq. by eapply lookup_lt_Some.
  - destruct (V51.num_images ids =? 1); [|done].
    destruct (V51.image_token_indice ids) as [i|]; [|done]. cbn [bind] in H.
    destruct (slice_assign (replicate _ 0) _ _ _) as [ids'|] eqn:Hids; [|done].
    cbn [bind] in H.
    destruct (slice_assign (replicate _ IGNORE_INDEX) _ _ _) as [labels'|] eqn:Hlabels;
      [|done].
    cbn [bind] in H.
    destruct (index image_features _) as [orig|] eqn:Horig; [|done]. cbn [bind] in H.
    apply index_Ok_lookup in Horig. injection H as <- <- <-.
    apply slice_assign_length in Hids, Hlabels.
    rewrite length_replicate in Hids. rewrite length_replicate in Hlabels.
    eexists (emb <$> ids'), orig, _, labels', _, orig.
    rewrite length_fmap. repeat split; done.
Qed.
End ImageSpan.

(** X6.  Without truncation, every row of the batch that [preparing_embedding]
    of v5.1 returns holds the image features of its sample, as they are
    returned, from position [img_start] on, and the labels of those
    positions are [IGNORE_INDEX]: the image spans of all samples start at
    [img_start], the largest placeholder index.  The features returned are
    zero for a sample without a placeholder and the given ones otherwise. *)
Theorem preparing_embedding_aligns_image_span {V : Type} (emb : Z -> V) (vzero : V)
    (ctx_len : Z) (input_ids labels : list (list Z)) (image_features : list (list V))
    (p : V51.prepared V) :
  V51.preparing_embedding emb vzero ctx_len input_ids labels image_features false
  = Ok p ->
  V51.get_max_image_token_indice input_ids = Ok (V51.img_start p) /\
  0 <= V51.img_start p /\
  V51.img_end p = V51.img_start p + (V51.shape1 image_features - 1) /\
  forall (b : nat) (ids : list Z), input_ids !! b = Some ids ->
    exists (row feats orig : list V) (lrow : list Z),
      V51.new_input_embeds_padded p !! b = Some row /\
      V51.new_labels_padded p !! b = Some lrow /\
      V51.image_features_out p !! b = Some feats /\
      image_features !! b = Some orig /\
      take (length feats) (drop (Z.to_nat (V51.img_start p)) row) = feats /\
      take (length feats) (drop (Z.to_nat (V51.img_start p)) lrow)
      = replicate (length feats) IGNORE_INDEX /\
      (V51.num_images ids = 0 -> feats = replicate (length orig) vzero) /\
      (V51.num_images ids <> 0 -> feats = orig).
Proof.
  intros Hp. unfold V51.preparing_embedding in Hp.
  destruct (get_max_image_token_indice_bound input_ids) as (m & Hm & Hm0 & _).
  rewrite Hm in Hp. cbn [bind] in Hp.
  destruct (V51.splice_samples _ _ _ _ _ _) as [[[E L] F]|] eqn:Hs; [|done].
  cbn [bind] in Hp.
  destruct (max_of _) as [max_len|] eqn:Hmax; [|done]. cbn [bind] in Hp.
  destruct (V51.pad_right _ _ _ _) as [[E' L']|] eqn:Hpad; [|done].
  cbn [bind] in Hp. injection Hp as <-. simpl.
  split; [done|]. split; [done|]. split; [done|].
  intros b ids Hids.
  pose proof (splice_samples_length _ _ _ _ _ _ _ _ _ Hs) as (HE & HL & HF).
  pose proof (max_of_nonneg _ _ Hmax) as Hmax0.
  apply pad_right_rows in Hpad as (_ & _ & _ & _ & Hrows & Hlabels); [|done | lia].
  unfold V51.splice_samples in Hs.
  destruct (splice_samples_lookup emb vzero m labels input_ids 0 [] [] image_features
              E L F Hs eq_refl eq_refl) as [_ Hat].
  destruct (Hat b ids Hids) as (curj & e & l & curj' & Hc & Hrun & He & Hl & Hf).
  simpl in Hc, Hrun, He, Hl, Hf.
  apply splice_sample_layout in Hrun
    as (pre & row & post & lpre & lpost & orig & Horig & Hrow & Hpre & Hlpre & -> & -> & H0 & H1).
  assert (Hfit : len (pre ++ row ++ post) <= max_len).
  { apply (max_of_bound _ _ Hmax). apply list_elem_of_fmap. eexists. split; [done|].
    by eapply list_elem_of_lookup_2. }
  destruct (Hlabels b _ _ He Hl) as (lrow & Hlrow & Hassign).
  exists (pre ++ row ++ post
            ++ replicate (Z.to_nat max_len - length (pre ++ row ++ post)) vzero),
    row, orig, lrow.
  split; [rewrite (Hrows b _ He Hfit); by rewrite <- !app_assoc|].
  split; [done|]. split; [by rewrite Hf|]. split; [by rewrite <- Hc|].
  split; [|split; [|done]].
  - rewrite <- Hpre, drop_app_length. by rewrite take_app_length.
  - rewrite <- Hlpre.
    apply (pad_labels_span max_len (len (pre ++ row ++ post))
             (lpre ++ replicate (length row) IGNORE_INDEX ++ lpost) lrow lpre lpost);
      [unfold len in *; lia | done | unfold len; rewrite !length_app; lia | done].
Qed.

(** ** [rotate_tensor] *)

Lemma rotate_tensor_split {X} (tensor : list X) (distance : Z) :
  tensor <> [] ->
  V51.rotate_tensor tensor distance
  = Ok (drop (length tensor - Z.to_nat (distance `mod` len tensor)) tensor
          ++ take (length tensor - Z.to_nat (distance `mod` len tensor)) tensor).
Proof.
  intros Hne. unfold V51.rotate_tensor.
  assert (Hpos : 0 < len tensor) by (destruct tensor; [done | unfold len; simpl; lia]).
  pose proof (Z.mod_pos_bound distance (len tensor) Hpos) as Hk.
  destruct (Z.eqb_spec distance 0) as [->|Hd].
  - rewrite Z.mod_0_l by lia. rewrite Nat.sub_0_r, drop_all, firstn_all. done.
  - destruct (Z.eqb_spec (len tensor) 0) as [?|_]; [lia|].
    destruct (Z.ltb_spec (distance `mod` len tensor) 0) as [?|_]; [lia|].
    f_equal. set (k := distance `mod` len tensor) in *.
    destruct (decide (k = 0)) as [->|Hk0].
    + change (- 0) with 0. rewrite slice_from by lia.
      unfold slice, norm_index. change (0 <? 0) with false. cbv iota.
      rewrite Z.min_l by lia. change (Z.to_nat (0 - 0)) with 0%nat.
      change (Z.to_nat 0) with 0%nat.
      rewrite Nat.sub_0_r, drop_0, take_0, drop_all, firstn_all, app_nil_r. done.
    + rewrite slice_trailing by lia. f_equal.
      unfold slice, norm_index. destruct (Z.ltb_spec (- k) 0) as [_|?]; [|lia].
      rewrite drop_0, Z.sub_0_r. f_equal. unfold len in *. lia.
Qed.

(** X7.  [rotate_tensor] on an empty tensor raises [ZeroDivisionError] unless
    the distance is 0.  On a tensor of [n >= 1] slices it returns a
    tensor of the same length whose slice [p] is slice [(p - distance) mod
    n] of the input, so a permutation of the input, and rotating back by
    [-distance] restores the input. *)
Theorem rotate_tensor_rotates {X : Type} (tensor : list X) (distance : Z) :
  (tensor = [] -> distance <> 0 ->
   V51.rotate_tensor tensor distance = Raise ZeroDivisionError) /\
  (tensor <> [] ->
   exists out,
     V51.rotate_tensor tensor distance = Ok out /\
     length out = length tensor /\
     (forall p : nat, (p < length tensor)%nat ->
        out !! p = tensor !! Z.to_nat ((Z.of_nat p - distance) `mod` len tensor)) /\
     out ≡ₚ tensor /\
     V51.rotate_tensor out (- distance) = Ok tensor).
Proof.
  split.
  - intros -> Hd. unfold V51.rotate_tensor.
    destruct (Z.eqb_spec distance 0); [done|]. done.
  - intros Hne. rewrite (rotate_tensor_split tensor distance Hne).
    assert (Hpos : 0 < len tensor) by (destruct tensor; [done | unfold len; simpl; lia]).
    pose proof (Z.mod_pos_bound distance (len tensor) Hpos) as Hk.
    set (k := distance `mod` len tensor) in *.
    set (j := (length tensor - Z.to_nat k)%nat).
    assert (Hj : (j <= length tensor)%nat) by (unfold j; lia).
    eexists. split; [done|].
    assert (Hlen : length (drop j tensor ++ take j tensor) = length tensor).
    { rewrite length_app, length_drop, length_take. lia. }
    split; [done|]. split; [|split].
    + intros p Hp.
      assert (Hmod : (Z.of_nat p - distance) `mod` len tensor
                     = if decide (Z.of_nat p < k) then Z.of_nat p - k + len tensor
                       else Z.of_nat p - k).
      { rewrite Zminus_mod, (Z.mod_small (Z.of_nat p)) by (unfold len; lia).
        fold k. case_decide.
        - rewrite <- (Z_mod_plus_full _ 1). rewrite Z.mod_small; unfold len in *; lia.
        - rewrite Z.mod_small; unfold len in *; lia. }
      rewrite Hmod. case_decide.
      * rewrite lookup_app_l by (rewrite length_drop; unfold j, len in *; lia).
        rewrite lookup_drop. f_equal. unfold j, len in *. lia.
      * rewrite lookup_app_r by (rewrite length_drop; unfold j, len in *; lia).
        rewrite length_drop, lookup_take_lt by (unfold j, len in *; lia).
        f_equal. unfold j, len in *. lia.
    + rewrite Permutation_app_comm. by rewrite take_drop.
    + rewrite rotate_tensor_split by (intros Hnil; rewrite Hnil in Hlen; by destruct tensor).
      f_equal. unfold len. rewrite Hlen. fold (len tensor).
      assert (Hk' : Z.to_nat ((- distance) `mod` len tensor)
                    = if decide (k = 0) then 0%nat else j).
      { case_decide as Hk0.
        - rewrite Z.mod_opp_l_z by (fold k; lia). done.
        - rewrite Z.mod_opp_l_nz by (fold k; lia). fold k. unfold j, len in *. lia. }
      rewrite Hk'. case_decide as Hk0.
      * rewrite Nat.sub_0_r. rewrite <- Hlen at 1 2. rewrite drop_all, firstn_all.
        simpl. unfold j. rewrite Hk0. change (Z.to_nat 0) with 0%nat.
        rewrite Nat.sub_0_r, drop_all, firstn_all. done.
      * replace (length tensor - j)%nat with (length (drop j tensor))
          by (rewrite length_drop; lia).
        rewrite drop_app_length, take_app_length. apply take_drop.
Qed.

(** ** [get_max_image_token_indice] *)

(** X8.  [get_max_image_token_indice] never raises.  Its result is 0 when no
    sample holds exactly one placeholder, and otherwise the largest index
    of the placeholder over those samples; samples with several
    placeholders do not count. *)
Theorem get_max_image_token_indice_is_max (input_ids : list (list Z)) :
  exists m,
    V51.get_max_image_token_indice input_ids = Ok m /\ 0 <= m /\
    (forall s i, s ∈ input_ids -> V51.num_images s = 1 ->
                 V51.image_token_indice s = Ok i -> i <= m) /\
    (m = 0 \/
     exists s, s ∈ input_ids /\ V51.num_images s = 1 /\
               V51.image_token_indice s = Ok m /\ m < len s).
Proof.
  unfold V51.get_max_image_token_indice.
  enough (Hgen : forall a,
    0 <= a ->
    exists m,
      foldM
        (fun max_image_token_indice cur_input_ids =>
           if V51.num_images cur_input_ids =? 1 then
             i <- V51.image_token_indice cur_input_ids;
             Ok (Z.max max_image_token_indice i)
           else Ok max_image_token_indice) a input_ids = Ok m /\ a <= m /\
      (forall s i, s ∈ input_ids -> V51.num_images s = 1 ->
                   V51.image_token_indice s = Ok i -> i <= m) /\
      (m = a \/
       exists s, s ∈ input_ids /\ V51.num_images s = 1 /\
                 V51.image_token_indice s = Ok m /\ m < len s)).
  { destruct (Hgen 0) as (m & H1 & H2 & H3 & H4); [lia|]. exists m. auto. }
  induction input_ids as [|s l IH]; intros a Ha.
  - exists a. split; [done|]. split; [lia|]. split; [|by left].
    intros s i Hs. by apply not_elem_of_nil in Hs.
  - cbn [foldM]. destruct (Z.eqb_spec (V51.num_images s) 1) as [H1|H1].
    + destruct (image_token_indice_found s) as (i & Hi & Hlt); [lia|].
      rewrite Hi. cbn [bind].
      destruct (IH (Z.max a (Z.of_nat i))) as (m & Hm & Hle & Hall & Hatt); [lia|].
      exists m. split; [done|]. split; [lia|]. split.
      * intros s' i' Hs' Hn' Hi'. apply elem_of_cons in Hs' as [->|Hs'].
        -- rewrite Hi in Hi'. injection Hi' as <-. lia.
        -- by eapply Hall.
      * destruct Hatt as [->|(s' & Hs' & Hn' & Hi' & Hlt')].
        -- destruct (Z.max_spec a (Z.of_nat i)) as [[_ ->]|[_ ->]]; [|by left].
           right. exists s. split; [left|]. unfold len. repeat split; [done..|lia].
        -- right. exists s'. split; [by right | done].
    + destruct (IH a Ha) as (m & Hm & Hle & Hall & Hatt).
      exists m. split; [done|]. split; [done|]. split.
      * intros s' i' Hs' Hn' Hi'. apply elem_of_cons in Hs' as [->|Hs']; [done|].
        by eapply Hall.
      * destruct Hatt as [->|(s' & Hs' & Hn' & Hi' & Hlt')]; [by left|].
        right. exists s'. split; [by right | done].
Qed.

(** ** Truncation, again *)

Lemma truncate_sample_fixed {E} (ctx_len : Z) (x : list E) (y : list Z) :
  0 < ctx_len ->
  len (truncate_sample ctx_len (x, y)).1 <= ctx_len /\
  len (truncate_sample ctx_len (x, y)).2 <= ctx_len /\
  truncate_sample ctx_len (truncate_sample ctx_len (x, y)) = truncate_sample ctx_len (x, y).
Proof.
  intros Hc.
  destruct (truncate_sample ctx_len (x, y)) as [x' y'] eqn:Hxy.
  unfold truncate_sample in Hxy. cbn [fst snd] in Hxy.
  rewrite (slice_leading x), (slice_leading y), (slice_trailing x), (slice_trailing y)
    in Hxy by lia.
  cbn [fst snd]. unfold truncate_sample. cbn [fst snd].
  case_bool_decide as Hvalid; injection Hxy as <- <-.
  - unfold len. rewrite !length_take. split; [lia|]. split; [lia|].
    rewrite !slice_leading by lia. rewrite !take_take, !Nat.min_id.
    by rewrite bool_decide_eq_true_2.
  - unfold len. rewrite !length_drop. split; [lia|]. split; [lia|].
    destruct (slice_short (drop (length x - Z.to_nat ctx_len) x) ctx_len) as [-> ->].
    { unfold len. rewrite length_drop. lia. }
    destruct (slice_short (drop (length y - Z.to_nat ctx_len) y) ctx_len) as [-> ->].
    { unfold len. rewrite length_drop. lia. }
    by case_bool_decide.
Qed.

(** X9.  With a positive context length, no sample that [truncate_input]
    returns has more than [ctx_len] embeddings or labels, and truncating
    its result again changes nothing. *)
Theorem truncate_input_idempotent {E : Type} (ctx_len : Z)
    (new_input_embeds : list (list E)) (new_labels : list (list Z)) :
  0 < ctx_len ->
  let out := V51.truncate_input ctx_len new_input_embeds new_labels in
  Forall (fun x => len x <= ctx_len) out.1 /\
  Forall (fun y => len y <= ctx_len) out.2 /\
  V51.truncate_input ctx_len out.1 out.2 = out.
Proof.
  intros Hc out. subst out. rewrite !truncate_input_map. cbn [fst snd].
  set (rows := truncate_sample ctx_len <$> zip new_input_embeds new_labels).
  assert (Hrows : forall xy, xy ∈ rows ->
            len xy.1 <= ctx_len /\ len xy.2 <= ctx_len /\
            truncate_sample ctx_len xy = xy).
  { intros xy Hxy. apply list_elem_of_fmap in Hxy as ([x y] & -> & _).
    by apply truncate_sample_fixed. }
  split; [|split].
  - apply list.Forall_forall. intros x Hx.
    apply list_elem_of_fmap in Hx as (xy & -> & Hxy). by apply Hrows.
  - apply list.Forall_forall. intros y Hy.
    apply list_elem_of_fmap in Hy as (xy & -> & Hxy). by apply Hrows.
  - rewrite zip_fst_snd.
    assert (Hid : truncate_sample ctx_len <$> rows = rows).
    { clearbody rows. induction rows as [|xy rows IH]; [done|].
      cbn [fmap list_fmap]. rewrite (proj2 (proj2 (Hrows xy ltac:(left)))). f_equal.
      apply IH. intros xy' Hxy'. apply Hrows. by right. }
    by rewrite Hid.
Qed.

(** ** The alignment module, again *)





Lemma index_Ok_elem {A} (l : list A) (i : Z) (a : A) : index l i = Ok a -> a ∈ l.
Proof.
  unfold index. destruct (_ && _); [|done].
  destruct (l !! _) as [b|] eqn:Hb; [|done]. intros [= <-].
  by eapply list_elem_of_lookup_2.
Qed.

Lemma mapM_result_elem {A B} (f : A -> result B) (l : list A) (ys : list B) (y : B) :
  mapM f l = Ok ys -> y ∈ ys -> exists a, a ∈ l /\ f a = Ok y.
Proof.
  intros Hm Hy. apply list_elem_of_lookup in Hy as [p Hp].
  pose proof (mapM_result_length _ _ _ Hm) as Hlen.
  destruct (lookup_lt_is_Some_2 l p) as [a Ha].
  { apply lookup_lt_Some in Hp. lia. }
  destruct (mapM_result_lookup _ _ _ Hm p a Ha) as (b & Hb & Hf).
  exists a. split; [by eapply list_elem_of_lookup_2|]. congruence.
Qed.

Section LossSign.
Local Open Scope R_scope.

Lemma rsum_nonneg (l : list R) : Forall (fun x => 0 <= x) l -> 0 <= V51_old.rsum l.
Proof.
  induction 1 as [|x l Hx _ IH]; simpl; [lra|].
  unfold V51_old.rsum in *. simpl. lra.
Qed.

Lemma exp_le_rsum (l : list R) (x : R) :
  x ∈ l -> exp x <= V51_old.rsum (exp <$> l).
Proof.
  intros Hx. induction l as [|a l IH]; [by apply not_elem_of_nil in Hx|].
  assert (Hpos : 0 <= V51_old.rsum (exp <$> l)).
  { apply rsum_nonneg, list.Forall_fmap, list.Forall_forall.
    intros y _. simpl. left. apply exp_pos. }
  unfold V51_old.rsum in *. cbn [fmap list_fmap foldr].
  apply elem_of_cons in Hx as [->|Hx].
  - lra.
  - specialize (IH Hx). pose proof (exp_pos a). lra.
Qed.

Lemma log_softmax_nonpos (l : list R) (y : R) :
  y ∈ V51_old.log_softmax l -> y <= 0.
Proof.
  unfold V51_old.log_softmax. intros Hy.
  apply list_elem_of_fmap in Hy as (x & -> & Hx).
  pose proof (exp_le_rsum l x Hx) as Hle. pose proof (exp_pos x) as Hpos.
  destruct Hle as [Hlt|Heq].
  - pose proof (ln_increasing _ _ Hpos Hlt) as Hln. rewrite ln_exp in Hln. lra.
  - rewrite <- Heq, ln_exp. lra.
Qed.

Lemma smoothed_nll_nonneg (x : list R) (y : Z) (v : R) :
  V51_old.smoothed_nll x y = Ok v -> 0 <= v.
Proof.
  unfold V51_old.smoothed_nll. cbv zeta.
  destruct (index _ y) as [lpy|] eqn:Hidx; [|done]. cbn [bind]. intros [= <-].
  apply index_Ok_elem in Hidx.
  pose proof (log_softmax_nonpos x lpy Hidx) as Hlpy.
  assert (Hsum : 0 <= V51_old.rsum (Ropp <$> V51_old.log_softmax x)).
  { apply rsum_nonneg, list.Forall_fmap, list.Forall_forall.
    intros z Hz. simpl. apply log_softmax_nonpos in Hz. lra. }
  assert (Hn : 0 < INR (length x)).
  { apply lt_0_INR. unfold V51_old.log_softmax in Hidx.
    destruct x; [by apply not_elem_of_nil in Hidx | simpl; lia]. }
  assert (Hdiv : 0 <= V51_old.rsum (Ropp <$> V51_old.log_softmax x) / INR (length x)).
  { unfold Rdiv. apply Rmult_le_pos; [done|]. left. by apply Rinv_0_lt_compat. }
  lra.
Qed.

Lemma mean_nonneg (l : list R) (r : R) :
  Forall (fun x => 0 <= x) l -> V51_old.mean l = Some r -> 0 <= r.
Proof.
  intros Hl. unfold V51_old.mean. destruct l as [|a l]; [done|]. intros [= <-].
  unfold Rdiv. apply Rmult_le_pos; [by apply (rsum_nonneg (a :: l))|].
  left. apply Rinv_0_lt_compat. apply (lt_0_INR (length (a :: l))). simpl. lia.
Qed.

Lemma cross_entropy_nonneg (logits : list (list R)) (labels : list Z) (r : R) :
  V51_old.cross_entropy logits labels = Ok (Some r) -> 0 <= r.
Proof.
  unfold V51_old.cross_entropy.
  destruct (mapM _ _) as [losses|] eqn:Hm; [|done]. cbn [bind]. intros [= Hr].
  apply (mean_nonneg losses); [|done].
  apply list.Forall_forall. intros v Hv.
  destruct (mapM_result_elem _ _ _ _ Hm Hv) as ([x y] & _ & Hxy).
  by apply smoothed_nll_nonneg in Hxy.
Qed.

Variable cfg : V51_old.config.

Lemma compute_in_queue_nonneg te vf masks tq vq (r : R) :
  V51_old.compute_in_queue_constraive_loss cfg te vf masks tq vq = Ok (Some r) ->
  0 <= r.
Proof.
  unfold V51_old.compute_in_queue_constraive_loss.
  destruct (V51_old.pool_features cfg te vf masks) as [[[t v]|]|]; [| |done];
    cbn [bind];
    (destruct (V51_old.pool_features cfg tq vq None) as [[[t' v']|]|]; [| |done]);
    cbn [bind]; try done.
  apply cross_entropy_nonneg.
Qed.

Lemma compute_in_batch_nonneg te vf masks (r : R) :
  V51_old.compute_in_batch_constraive_loss cfg te vf masks = Ok (Some r) -> 0 <= r.
Proof.
  unfold V51_old.compute_in_batch_constraive_loss.
  destruct (V51_old.pool_features cfg te vf masks) as [[[t v]|]|]; [| |done];
    cbn [bind]; [|done].
  cbv zeta.
  destruct (V51_old.cross_entropy (_ <$> t) _) as [[a|]|] eqn:Ha; [| |done]; cbn [bind];
    (destruct (V51_old.cross_entropy (_ <$> v) _) as [[b|]|] eqn:Hb; [| |done]);
    cbn [bind]; try done.
  intros [= <-]. apply cross_entropy_nonneg in Ha, Hb. lra.
Qed.
End LossSign.

(** X12.  A finite loss that [forward] returns is never negative, and so are
    the in-batch and the in-queue loss it is made of: with label
    smoothing, the cross entropy is a mean of sums of negated
    log-probabilities. *)
Theorem forward_loss_nonneg (cfg : V51_old.config) (st st' : V51_old.buffers)
    (text_embeds vision_embeds : list (list (list R))) (text_masks : list (list bool))
    (r : R) :
  V51_old.forward cfg st text_embeds vision_embeds text_masks = Ok (Some r, st') ->
  (0 <= r)%R /\
  (forall te vf masks r',
     V51_old.compute_in_batch_constraive_loss cfg te vf masks = Ok (Some r') ->
     (0 <= r')%R) /\
  (forall te vf masks tq vq r',
     V51_old.compute_in_queue_constraive_loss cfg te vf masks tq vq = Ok (Some r') ->
     (0 <= r')%R).
Proof.
  intros Hfwd.
  split; [|split; [apply compute_in_batch_nonneg | apply compute_in_queue_nonneg]].
  rewrite forward_unfold in Hfwd.
  destruct (V51_old.proj cfg vision_embeds) as [vf|]; [|done]. cbn [bind] in Hfwd.
  destruct (V51_old.proj cfg (V51_old.vision_queue st)) as [vnf|]; [|done].
  cbn [bind] in Hfwd.
  destruct (V51_old.mask_text text_embeds text_masks) as [text|]; [|done].
  cbn [bind] in Hfwd.
  destruct (loss_of cfg _ text vf text_masks _ vnf) as [loss|] eqn:Hloss; [|done].
  cbn [bind] in Hfwd.
  destruct (V51_old.expand_as _ text); [|done]. cbn [bind] in Hfwd.
  destruct (slice_assign (V51_old.text_queue st) _ _ _); [|done]. cbn [bind] in Hfwd.
  destruct (V51_old.expand_as _ vision_embeds); [|done]. cbn [bind] in Hfwd.
  destruct (slice_assign (V51_old.vision_queue st) _ _ _); [|done]. cbn [bind] in Hfwd.
  destruct (V51_old.queue_size cfg =? 0); [done|]. cbn [bind] in Hfwd.
  injection Hfwd as -> _.
  unfold loss_of in Hloss. destruct (negb _).
  - destruct (V51_old.compute_in_batch_constraive_loss _ _ _ _) as [[x|]|] eqn:Ha;
      [| |done]; cbn [bind] in Hloss;
      (destruct (V51_old.compute_in_queue_constraive_loss _ _ _ _ _ _) as [[y|]|] eqn:Hb;
         [| |done]); cbn [bind] in Hloss; try done.
    injection Hloss as <-.
    apply compute_in_batch_nonneg in Ha. apply compute_in_queue_nonneg in Hb.
    apply Rplus_le_le_0_compat; done.
  - by apply compute_in_queue_nonneg in Hloss.
Qed.

(** ** Preprocessing of conversations *)

Lemma slice_fill_lookup {A} (t : list A) (start stop : Z) (v : A) (k : nat) :
  0 <= start <= stop ->
  Preprocess.slice_fill t start stop v !! k
  = if bool_decide (start <= Z.of_nat k < stop) then (fun _ => v) <$> (t !! k) else t !! k.
Proof.
  intros Hs. unfold Preprocess.slice_fill, norm_index.
  destruct (Z.ltb_spec start 0); [lia|]. destruct (Z.ltb_spec stop 0); [lia|].
  set (n := len t). assert (Hn : n = Z.of_nat (length t)) by done.
  destruct (decide (k < length t)%nat) as [Hk|Hk].
  - destruct (lookup_lt_is_Some_2 t k Hk) as [a Ha]. rewrite Ha.
    case_bool_decide as Hin.
    + rewrite lookup_app_r by (rewrite length_take; lia).
      rewrite length_take, lookup_app_l by (rewrite length_replicate; lia).
      simpl. apply lookup_replicate_2. lia.
    + destruct (decide (Z.of_nat k < start)).
      * rewrite lookup_app_l by (rewrite length_take; lia).
        rewrite lookup_take_lt by lia. done.
      * rewrite lookup_app_r by (rewrite length_take; lia).
        rewrite length_take.
        rewrite lookup_app_r by (rewrite length_replicate; lia).
        rewrite length_replicate, lookup_drop, <- Ha. f_equal. lia.
  - rewrite (lookup_ge_None_2 t k) by lia.
    assert (Hnone : forall l : list A, length l = length t -> l !! k = None)
      by (intros l Hl; apply lookup_ge_None_2; lia).
    rewrite Hnone; [by case_bool_decide|].
    rewrite !length_app, length_take, length_replicate, length_drop. lia.
Qed.

Lemma slice_fill_length {A} (t : list A) (start stop : Z) (v : A) :
  length (Preprocess.slice_fill t start stop v) = length t.
Proof.
  unfold Preprocess.slice_fill.
  pose proof (norm_index_bounds (len t) start ltac:(unfold len; lia)) as H1.
  pose proof (norm_index_bounds (len t) stop ltac:(unfold len; lia)) as H2.
  rewrite !length_app, length_take, length_replicate, length_drop.
  unfold len in *. lia.
Qed.

Lemma mask_targets_from_human_run (lens : list Z) :
  Forall (fun l => 0 <= l) lens ->
  forall (speakers : list string) (targets : list Z) (cur_idx : Z),
    0 <= cur_idx ->
    let out :=
      (fold_left
         (fun '(targets, cur_idx) '(tokenized_len, speaker) =>
            let targets :=
              if String.eqb speaker "human"
              then Preprocess.slice_fill targets cur_idx (cur_idx + tokenized_len)
                     IGNORE_INDEX
              else targets in
            (targets, cur_idx + tokenized_len))
         (zip lens speakers) (targets, cur_idx)).1 in
    length out = length targets /\
    forall k : nat,
      out !! k
      = if bool_decide (Z.of_nat k < cur_idx) then targets !! k
        else match segment_speaker lens speakers (Z.of_nat k - cur_idx) with
             | Some s => if String.eqb s "human" then (fun _ => IGNORE_INDEX) <$> (targets !! k)
                         else targets !! k
             | None => targets !! k
             end.
Proof.
  induction 1 as [|l lens Hl _ IH]; intros speakers targets cur_idx Hc.
  - simpl. split; [done|]. intros k. by case_bool_decide.
  - destruct speakers as [|s speakers].
    { simpl. split; [done|]. intros k. by case_bool_decide. }
    cbn [zip zip_with fold_left segment_speaker].
    set (targets' := if String.eqb s "human"
                     then Preprocess.slice_fill targets cur_idx (cur_idx + l) IGNORE_INDEX
                     else targets).
    destruct (IH speakers targets' (cur_idx + l) ltac:(lia)) as [Hlen Hat].
    assert (Hlen' : length targets' = length targets).
    { unfold targets'. destruct (String.eqb s "human"); [apply slice_fill_length | done]. }
    assert (Hat' : forall k : nat,
      targets' !! k
      = if bool_decide (cur_idx <= Z.of_nat k < cur_idx + l)
        then (if String.eqb s "human" then (fun _ => IGNORE_INDEX) <$> (targets !! k)
              else targets !! k)
        else targets !! k).
    { intros k. unfold targets'. destruct (String.eqb s "human").
      - apply slice_fill_lookup. lia.
      - by case_bool_decide. }
    split; [etrans; [exact Hlen | exact Hlen']|].
    intros k. etrans; [exact (Hat k)|]. rewrite Hat'.
    destruct (Z.ltb_spec (Z.of_nat k - cur_idx) l) as [Hlt|Hge].
    + repeat case_bool_decide; try lia; done.
    + replace (Z.of_nat k - (cur_idx + l)) with (Z.of_nat k - cur_idx - l) by lia.
      repeat case_bool_decide; try lia; done.
Qed.

(** X13.  [mask_targets_from_human] keeps the length of the targets; it sets to
    [IGNORE_INDEX] the positions of the turns whose speaker is exactly
    ["human"] and leaves every other position as it was, the positions
    after the last turn included. *)
Theorem mask_targets_from_human_masks (targets tokenized_lens : list Z)
    (speakers : list string) :
  Forall (fun l => 0 <= l) tokenized_lens ->
  let out := Preprocess.mask_targets_from_human targets tokenized_lens speakers in
  length out = length targets /\
  forall k : nat,
    out !! k
    = match segment_speaker tokenized_lens speakers (Z.of_nat k) with
      | Some s => if String.eqb s "human" then (fun _ => IGNORE_INDEX) <$> (targets !! k)
                  else targets !! k
      | None => targets !! k
      end.
Proof.
  intros Hlens out.
  destruct (mask_targets_from_human_run tokenized_lens Hlens speakers targets 0
              ltac:(lia)) as [Hlen Hat].
  split; [exact Hlen|]. intros k. unfold out, Preprocess.mask_targets_from_human.
  rewrite Hat. rewrite bool_decide_eq_false_2 by lia. by rewrite Z.sub_0_r.
Qed.

Lemma pad_to_max_len_positive (input_ids targets : list Z) (max_len pad_token_id : Z) :
  0 < max_len -> length targets = length input_ids ->
  let out := Preprocess.pad_to_max_len input_ids targets max_len pad_token_id in
  len out.1 = max_len /\ len out.2 = max_len /\
  out.1 = drop (length input_ids - Z.to_nat max_len) input_ids
            ++ replicate (Z.to_nat max_len - length input_ids) pad_token_id /\
  out.2 = drop (length targets - Z.to_nat max_len) targets
            ++ replicate (Z.to_nat max_len - length targets) IGNORE_INDEX.
Proof.
  intros Hm Hlen out. subst out. unfold Preprocess.pad_to_max_len.
  rewrite !slice_trailing by done.
  unfold len. rewrite length_drop.
  destruct (Z.leb_spec (max_len - Z.of_nat (length input_ids
                          - (length input_ids - Z.to_nat max_len))) 0) as [Hle|Hgt];
    cbn [fst snd].
  - rewrite !length_drop.
    replace (Z.to_nat max_len - length input_ids)%nat with 0%nat by lia.
    replace (Z.to_nat max_len - length targets)%nat with 0%nat by lia.
    simpl. rewrite !app_nil_r. repeat split; lia.
  - rewrite !length_app, !length_drop, !length_replicate.
    repeat split; try lia.
    + do 2 f_equal. lia.
    + do 2 f_equal. lia.
Qed.

(** X14.  For a positive [max_len] and targets as long as the token ids,
    [pad_to_max_len] returns two sequences of exactly [max_len] entries:
    the last [max_len] ids and targets, followed by [pad_token_id] and
    [IGNORE_INDEX] when there are fewer.  With [max_len = 0] it returns
    both sequences as they are, whatever their length. *)
Theorem pad_to_max_len_lengths (input_ids targets : list Z) (max_len pad_token_id : Z) :
  (0 < max_len -> length targets = length input_ids ->
   let out := Preprocess.pad_to_max_len input_ids targets max_len pad_token_id in
   len out.1 = max_len /\ len out.2 = max_len /\
   out.1 = drop (length input_ids - Z.to_nat max_len) input_ids
             ++ replicate (Z.to_nat max_len - length input_ids) pad_token_id /\
   out.2 = drop (length targets - Z.to_nat max_len) targets
             ++ replicate (Z.to_nat max_len - length targets) IGNORE_INDEX) /\
  Preprocess.pad_to_max_len input_ids targets 0 pad_token_id = (input_ids, targets).
Proof.
  split.
  - apply pad_to_max_len_positive.
  - unfold Preprocess.pad_to_max_len. change (- 0) with 0.
    rewrite !slice_from by lia. change (Z.to_nat 0) with 0%nat. rewrite !drop_0.
    destruct (Z.leb_spec (0 - len input_ids) 0) as [_|Hgt]; [done|].
    unfold len in Hgt. lia.
Qed.

(** ** Tokenizing a prompt with image markers *)

Lemma string_app_assoc (a b c : string) : ((a ++ b) ++ c = a ++ (b ++ c))%string.
Proof. induction a as [|x a IH]; simpl; [done | by rewrite IH]. Qed.

Lemma string_app_nil_r (a : string) : (a ++ "")%string = a.
Proof. induction a as [|x a IH]; simpl; [done | by rewrite IH]. Qed.

Lemma string_app_length (a b : string) :
  String.length (a ++ b) = (String.length a + String.length b)%nat.
Proof. induction a as [|x a IH]; simpl; [done | by rewrite IH]. Qed.

Lemma prefix_app (p s : string) :
  String.prefix p s = true <-> exists r, s = (p ++ r)%string.
Proof.
  revert s. induction p as [|a p IH]; intros s.
  - destruct s; simpl; split; eauto.
  - destruct s as [|b s]; simpl; [split; [done | by intros [r Hr]]|].
    destruct (Ascii.ascii_dec a b) as [->|Hne].
    + rewrite IH. split; intros [r Hr]; exists r; [by rewrite Hr | by injection Hr].
    + split; [done|]. intros [r Hr]. by injection Hr.
Qed.

Lemma concat_cons (sep x : string) (l : list string) :
  l <> [] -> String.concat sep (x :: l) = (x ++ sep ++ String.concat sep l)%string.
Proof. by destruct l. Qed.

Lemma string_app_cons (sep rest : string) (c : Ascii.ascii) (s' : string) :
  sep <> EmptyString -> String c s' = (sep ++ rest)%string ->
  exists sep', sep = String c sep' /\ s' = (sep' ++ rest)%string.
Proof.
  intros Hsep Hs. destruct sep as [|c0 sep']; [done|].
  simpl in Hs. injection Hs as -> ->. by exists sep'.
Qed.

Section SplitFacts.
Variable sep : string.

Lemma split_from_nonempty (s : string) :
  forall k chunk, Preprocess.split_from sep k chunk s <> [].
Proof.
  induction s as [|c s IH]; intros k chunk; cbn [Preprocess.split_from]; [done|].
  destruct k; [|apply IH].
  destruct (String.prefix sep (String c s)); [done | apply IH].
Qed.

Lemma split_from_skip (pre : string) :
  forall chunk rest,
    Preprocess.split_from sep (String.length pre) chunk (pre ++ rest)
    = Preprocess.split_from sep 0 chunk rest.
Proof.
  induction pre as [|c pre IH]; intros chunk rest; [done|].
  simpl String.length. simpl String.append. cbn [Preprocess.split_from]. apply IH.
Qed.

Lemma split_from_match (c : Ascii.ascii) (s' chunk : string) :
  String.prefix sep (String c s') = true -> sep <> EmptyString ->
  exists rest,
    String c s' = (sep ++ rest)%string /\
    Preprocess.split_from sep 0 chunk (String c s')
    = chunk :: Preprocess.split_from sep 0 EmptyString rest.
Proof.
  intros Hp Hsep. pose proof Hp as Hp'. apply prefix_app in Hp' as [rest Hrest].
  exists rest. split; [done|].
  cbn [Preprocess.split_from]. rewrite Hp. f_equal.
  destruct (string_app_cons sep rest c s' Hsep Hrest) as (sep' & Hs & ->).
  replace (String.length sep - 1)%nat with (String.length sep')
    by (rewrite Hs; simpl; lia).
  apply split_from_skip.
Qed.

Hypothesis Hsep : sep <> EmptyString.

Lemma split_from_join (n : nat) :
  forall s chunk, (String.length s <= n)%nat ->
    String.concat sep (Preprocess.split_from sep 0 chunk s) = (chunk ++ s)%string.
Proof.
  induction n as [|n IH]; intros s chunk Hn.
  - destruct s; [|simpl in Hn; lia]. simpl. by rewrite string_app_nil_r.
  - destruct s as [|c s']; [simpl; by rewrite string_app_nil_r|].
    destruct (String.prefix sep (String c s')) eqn:Hp.
    + destruct (split_from_match c s' chunk Hp Hsep) as (rest & Hrest & ->).
      rewrite concat_cons by apply split_from_nonempty.
      rewrite IH, Hrest; [done|].
      assert (Hlen : String.length (String c s')
                     = (String.length sep + String.length rest)%nat)
        by (by rewrite Hrest, string_app_length).
      destruct (string_app_cons sep rest c s' Hsep Hrest) as (sep' & Hs & _).
      rewrite Hs in Hlen. simpl in *. lia.
    + cbn [Preprocess.split_from]. rewrite Hp.
      rewrite IH by (simpl in Hn; lia).
      by rewrite string_app_assoc.
Qed.

Lemma split_from_no_occurrence (s : string) :
  forall chunk, ~ occurs sep s ->
    Preprocess.split_from sep 0 chunk s = [(chunk ++ s)%string].
Proof.
  induction s as [|c s IH]; intros chunk Hno; cbn [Preprocess.split_from].
  - by rewrite string_app_nil_r.
  - destruct (String.prefix sep (String c s)) eqn:Hp.
    + exfalso. apply Hno. apply prefix_app in Hp as [r Hr].
      exists EmptyString, r. by rewrite Hr.
    + rewrite IH; [by rewrite string_app_assoc|].
      intros (pre & post & ->). apply Hno. by exists (String c pre), post.
Qed.

Lemma split_from_occurrence (pre post : string) :
  forall chunk,
    (2 <= length (Preprocess.split_from sep 0 chunk (pre ++ sep ++ post)))%nat.
Proof.
  induction pre as [|c pre IH]; intros chunk.
  - simpl String.append at 1.
    destruct (sep ++ post)%string as [|c s'] eqn:Hs.
    { exfalso. apply Hsep. by destruct sep. }
    destruct (split_from_match c s' chunk) as (rest & _ & ->); [|done|].
    + apply prefix_app. exists post. by rewrite Hs.
    + pose proof (split_from_nonempty rest 0 EmptyString) as Hne.
      destruct (Preprocess.split_from sep 0 EmptyString rest); [done | simpl; lia].
  - simpl String.append. cbn [Preprocess.split_from].
    destruct (String.prefix sep (String c _)) eqn:Hp; [|apply IH].
    pose proof (split_from_nonempty (pre ++ sep ++ post) (String.length sep - 1)
                  EmptyString) as Hne.
    destruct (Preprocess.split_from sep _ EmptyString _); [done | simpl; lia].
Qed.
End SplitFacts.

Lemma tokenize_fold (img : Z) (chunks : list (list Z)) (acc : list Z) :
  fold_left (fun input_ids chunk => (input_ids ++ chunk) ++ [img]) chunks acc
  = acc ++ mjoin ((fun c => c ++ [img]) <$> chunks).
Proof.
  revert acc. induction chunks as [|c chunks IH]; intros acc; simpl.
  - by rewrite app_nil_r.
  - rewrite IH. by rewrite <- !app_assoc.
Qed.

Lemma num_images_app (a b : list Z) :
  V51.num_images (a ++ b) = V51.num_images a + V51.num_images b.
Proof.
  unfold V51.num_images, len. rewrite list.filter_app, length_app. lia.
Qed.

(** X15.  [tokenize_with_image_token] cuts the prompt at the markers ["<image>"]:
    the chunks, joined by the marker, are the prompt, and there is one
    chunk only exactly when the marker does not occur.  The result is the
    encodings of the chunks with one placeholder between two of them and
    none at the end; when the tokenizer never emits the placeholder id,
    the result holds one placeholder less than there are chunks. *)
Theorem tokenize_with_image_token_placeholders (encode : string -> list Z)
    (prompt : string) (image_token_index : Z) :
  let chunks := Preprocess.split prompt Preprocess.DEFAULT_IMAGE_TOKEN in
  String.concat Preprocess.DEFAULT_IMAGE_TOKEN chunks = prompt /\
  (length chunks = 1%nat <-> ~ occurs Preprocess.DEFAULT_IMAGE_TOKEN prompt) /\
  (~ occurs Preprocess.DEFAULT_IMAGE_TOKEN prompt ->
   Preprocess.tokenize_with_image_token encode prompt image_token_index
   = encode prompt) /\
  (exists init last,
     chunks = init ++ [last] /\
     Preprocess.tokenize_with_image_token encode prompt image_token_index
     = mjoin ((fun c => encode c ++ [image_token_index]) <$> init) ++ encode last) /\
  ((forall c, V51.num_images (encode c) = 0) ->
   V51.num_images
     (Preprocess.tokenize_with_image_token encode prompt IMAGE_TOKEN_INDEX)
   = len chunks - 1).
Proof.
  intros chunks.
  assert (Hsep : Preprocess.DEFAULT_IMAGE_TOKEN <> EmptyString) by done.
  assert (Hne : chunks <> []) by apply split_from_nonempty.
  assert (Hform : forall img, exists init last,
    chunks = init ++ [last] /\
    Preprocess.tokenize_with_image_token encode prompt img
    = mjoin ((fun c => encode c ++ [img]) <$> init) ++ encode last).
  { intros img. destruct (exists_last Hne) as (init & last & Hchunks).
    exists init, last. split; [done|].
    unfold Preprocess.tokenize_with_image_token. fold chunks. rewrite Hchunks.
    rewrite tokenize_fold, app_nil_l, fmap_app, fmap_app. cbn [fmap list_fmap].
    rewrite join_app. cbn [mjoin list_join]. rewrite app_nil_r.
    rewrite <- list_fmap_compose.
    rewrite slice_drop_last, !length_app. cbn [length].
    rewrite !app_assoc.
    replace (length (mjoin ((fun c => c ++ [img]) ∘ encode <$> init))
               + (length (encode last) + 1) - 1)%nat
      with (length (mjoin ((fun c => c ++ [img]) ∘ encode <$> init) ++ encode last))
      by (rewrite length_app; lia).
    by rewrite take_app_length. }
  split; [|split; [|split; [|split]]].
  - unfold chunks, Preprocess.split.
    by rewrite (split_from_join _ Hsep (String.length prompt)).
  - split.
    + intros Hlen (pre & post & Hocc).
      pose proof (split_from_occurrence Preprocess.DEFAULT_IMAGE_TOKEN Hsep pre post
                    EmptyString) as H2.
      unfold chunks, Preprocess.split in Hlen. rewrite Hocc in Hlen. lia.
    + intros Hno. unfold chunks, Preprocess.split.
      by rewrite split_from_no_occurrence.
  - intros Hno. destruct (Hform image_token_index) as (init & last & Hchunks & ->).
    unfold chunks, Preprocess.split in Hchunks.
    rewrite split_from_no_occurrence in Hchunks by done.
    destruct init as [|a [|b init]]; simpl in Hchunks.
    + by injection Hchunks as <-.
    + done.
    + done.
  - apply Hform.
  - intros Henc. destruct (Hform IMAGE_TOKEN_INDEX) as (init & last & Hchunks & ->).
    rewrite Hchunks. unfold len. rewrite length_app. cbn [length].
    rewrite num_images_app, Henc.
    assert (Hinit : V51.num_images
              (mjoin ((fun c => encode c ++ [IMAGE_TOKEN_INDEX]) <$> init))
            = Z.of_nat (length init)).
    { clear Hchunks. induction init as [|c init IH]; [done|].
      change (V51.num_images
                ((encode c ++ [IMAGE_TOKEN_INDEX])
                   ++ mjoin ((fun c => encode c ++ [IMAGE_TOKEN_INDEX]) <$> init))
              = Z.of_nat (Datatypes.S (length init))).
      rewrite !num_images_app, Henc, IH.
      change (V51.num_images [IMAGE_TOKEN_INDEX]) with 1. lia. }
    rewrite Hinit. lia.
Qed.

(** ** [preprocess] *)

Lemma add_speaker_returns (conversations : list Preprocess.sentence) :
  Forall known_speaker conversations ->
  exists conversations',
    Preprocess._add_speaker_and_signal conversations = Preprocess.Returns conversations' /\
    Preprocess.from <$> conversations' = Preprocess.from <$> conversations.
Proof.
  induction 1 as [|s rest Hs _ (rest' & IH & Hfrom)]; [by exists []|].
  cbn [Preprocess._add_speaker_and_signal]. rewrite IH. cbv zeta.
  destruct Hs as [Hs|Hs]; rewrite Hs.
  - eexists. split; [reflexivity|]. cbn [fmap list_fmap]. simpl. by rewrite <- Hfrom.
  - eexists. split; [reflexivity|]. cbn [fmap list_fmap]. simpl. by rewrite <- Hfrom.
Qed.

Lemma add_speaker_raises (pre post : list Preprocess.sentence) (s : Preprocess.sentence) :
  Forall known_speaker pre -> ~ known_speaker s ->
  Preprocess._add_speaker_and_signal (pre ++ s :: post)
  = Preprocess.ValueError_unknown_speaker (Preprocess.from s).
Proof.
  intros Hpre Hs. induction Hpre as [|a pre Ha _ IH].
  - cbn [app Preprocess._add_speaker_and_signal]. cbv zeta.
    destruct (String.eqb_spec (Preprocess.lower (Preprocess.from s)) "human") as [H1|_].
    { exfalso. apply Hs. by left. }
    destruct (String.eqb_spec (Preprocess.lower (Preprocess.from s)) "gpt") as [H2|_].
    { exfalso. apply Hs. by right. }
    done.
  - cbn [app Preprocess._add_speaker_and_signal]. rewrite IH. cbv zeta.
    destruct Ha as [Ha|Ha]; by rewrite Ha.
Qed.

Lemma slice_from_any {A} (l : list A) (s : Z) :
  slice l (Some s) None = drop (Z.to_nat (norm_index (len l) s)) l.
Proof.
  unfold slice. apply take_ge. rewrite length_drop.
  pose proof (norm_index_bounds (len l) s ltac:(unfold len; lia)). unfold len in *. lia.
Qed.

Lemma pad_to_max_len_related (input_ids targets : list Z) (max_len pad_token_id : Z) :
  Forall2 label_of input_ids targets ->
  Forall2 label_of
    (Preprocess.pad_to_max_len input_ids targets max_len pad_token_id).1
    (Preprocess.pad_to_max_len input_ids targets max_len pad_token_id).2.
Proof.
  intros Hrel. unfold Preprocess.pad_to_max_len.
  rewrite !slice_from_any.
  assert (Hlen : length input_ids = length targets) by (by eapply Forall2_length).
  replace (len targets) with (len input_ids) by (unfold len; by rewrite Hlen).
  destruct (_ <=? 0); cbn [fst snd].
  - by apply Forall2_drop.
  - apply Forall2_app; [by apply Forall2_drop|].
    apply Forall2_replicate. by left.
Qed.

Lemma mask_targets_from_human_related (targets lens : list Z) (speakers : list string) :
  Forall (fun l => 0 <= l) lens ->
  Forall2 label_of targets (Preprocess.mask_targets_from_human targets lens speakers).
Proof.
  intros Hlens.
  destruct (mask_targets_from_human_run lens Hlens speakers targets 0 ltac:(lia))
    as [Hlen Hat].
  apply Forall2_same_length_lookup. split; [by rewrite <- Hlen|].
  intros k id lab Hid Hlab.
  unfold Preprocess.mask_targets_from_human in Hlab.
  rewrite Hat, Hid in Hlab.
  case_bool_decide; [right; congruence|].
  destruct (segment_speaker _ _ _) as [s|]; [|right; congruence].
  destruct (String.eqb s "human"); [left | right]; simpl in Hlab; congruence.
Qed.

(** X16.  When every speaker is human or gpt, whatever the case of the letters,
    [preprocess] returns; every label it returns is the token id at its
    position or [IGNORE_INDEX]; and with padding and a positive [ctx_len]
    both sequences have exactly [ctx_len] entries.  Otherwise it raises
    the [ValueError] that names the first unknown speaker. *)
Theorem preprocess_labels (encode : string -> list Z)
    (conversations : list Preprocess.sentence) (has_image : bool)
    (ctx_len pad_token_id : Z) (do_pad_to_max_length : bool) :
  (Forall known_speaker conversations ->
   exists p,
     Preprocess.preprocess encode conversations has_image ctx_len pad_token_id
       do_pad_to_max_length = Preprocess.Returns p /\
     Forall2 label_of (Preprocess.input_ids p) (Preprocess.labels p) /\
     (do_pad_to_max_length = true -> 0 < ctx_len ->
      len (Preprocess.input_ids p) = ctx_len /\ len (Preprocess.labels p) = ctx_len)) /\
  (forall pre s post,
     conversations = pre ++ s :: post -> Forall known_speaker pre -> ~ known_speaker s ->
     Preprocess.preprocess encode conversations has_image ctx_len pad_token_id
       do_pad_to_max_length
     = Preprocess.ValueError_unknown_speaker (Preprocess.from s)).
Proof.
  split.
  - intros Hknown. unfold Preprocess.preprocess.
    destruct (add_speaker_returns conversations Hknown) as (conv' & -> & _).
    cbv zeta.
    set (ids := if has_image
                then Preprocess.tokenize_with_image_token encode
                       (String.concat EmptyString (Preprocess.value <$> conv'))
                       IMAGE_TOKEN_INDEX
                else encode (String.concat EmptyString (Preprocess.value <$> conv'))).
    set (targets := Preprocess.mask_targets_from_human ids _ _).
    assert (Hrel : Forall2 label_of ids targets).
    { apply mask_targets_from_human_related.
      apply list.Forall_fmap, list.Forall_forall. intros s _. simpl. unfold len. lia. }
    destruct do_pad_to_max_length.
    + destruct (Preprocess.pad_to_max_len ids targets ctx_len pad_token_id)
        as [ids' targets'] eqn:Hpad.
      eexists. split; [reflexivity|]. cbn [Preprocess.input_ids Preprocess.labels].
      pose proof (pad_to_max_len_related ids targets ctx_len pad_token_id Hrel) as Hrel'.
      rewrite Hpad in Hrel'. split; [done|]. intros _ Hc.
      assert (Hlen : length targets = length ids)
        by (symmetry; by eapply Forall2_length).
      pose proof (pad_to_max_len_positive ids targets ctx_len pad_token_id Hc
                    Hlen) as (H1 & H2 & _).
      rewrite Hpad in H1, H2. done.
    + eexists. split; [reflexivity|]. split; [done|]. done.
  - intros pre s post -> Hpre Hs. unfold Preprocess.preprocess.
    by rewrite add_speaker_raises.
Qed.

Lemma slice_fill_all {A} (t : list A) (v : A) :
  Preprocess.slice_fill t 0 (0 + len t) v = replicate (length t) v.
Proof.
  unfold Preprocess.slice_fill, norm_index. change (0 <? 0) with false. cbv iota.
  destruct (Z.ltb_spec (0 + len t) 0) as [?|_]; [unfold len in *; lia|].
  rewrite Z.min_l, Z.min_r by (unfold len; lia).
  change (Z.to_nat 0) with 0%nat. rewrite take_0, app_nil_l.
  replace (Z.to_nat (len t - 0)) with (length t) by (unfold len; lia).
  rewrite Nat.add_0_l. by rewrite drop_all, app_nil_r.
Qed.

(** X17.  The prompt builder lowers the case of the speaker, the mask does not:
    for a conversation of one turn whose speaker reads human in any case,
    with or without image markers and with or without padding, the prompt
    is the [User] turn; its labels, before [pad_to_max_len] is applied to
    them and the token ids, are all [IGNORE_INDEX] when the speaker is
    spelled ["human"] exactly, and the token ids themselves, nothing
    masked, in any other spelling. *)
Theorem preprocess_masks_exact_human (encode : string -> list Z) (speaker text : string)
    (has_image : bool) (ctx_len pad_token_id : Z) (do_pad_to_max_length : bool) :
  Preprocess.lower speaker = "human"%string -> text <> EmptyString ->
  let prompt := ("User" ++ ": " ++ text ++ Preprocess.DEFAULT_STOP_TOKEN)%string in
  let ids :=
    if has_image
    then Preprocess.tokenize_with_image_token encode prompt IMAGE_TOKEN_INDEX
    else encode prompt in
  let targets :=
    if String.eqb speaker "human" then replicate (length ids) IGNORE_INDEX else ids in
  let out :=
    if do_pad_to_max_length
    then Preprocess.pad_to_max_len ids targets ctx_len pad_token_id
    else (ids, targets) in
  Preprocess.preprocess encode [Preprocess.Sentence speaker text] has_image ctx_len
    pad_token_id do_pad_to_max_length
  = Preprocess.Returns (Preprocess.Preprocessed out.1 out.2 prompt).
Proof.
  intros Hlow Htext prompt ids targets out. unfold Preprocess.preprocess.
  cbn [Preprocess._add_speaker_and_signal Preprocess.from Preprocess.value].
  rewrite Hlow. cbv zeta.
  change (String.eqb "human" "human") with true. cbv iota.
  destruct (String.eqb_spec text EmptyString) as [?|_]; [done|].
  cbn [negb fmap list_fmap Preprocess.value Preprocess.from String.concat].
  fold prompt. fold ids.
  assert (Htargets :
    Preprocess.mask_targets_from_human ids [len ids] [speaker] = targets).
  { unfold Preprocess.mask_targets_from_human, targets.
    cbn [zip zip_with fold_left fst].
    destruct (String.eqb speaker "human"); [|done].
    apply slice_fill_all. }
  rewrite Htargets. subst out.
  destruct do_pad_to_max_length; [|done].
  by destruct (Preprocess.pad_to_max_len ids targets ctx_len pad_token_id).
Qed.

(** ** Grid pooling *)

Lemma avg_pool2d_length {V} (mean : list V -> V) (H k : Z) (x : list V) :
  len (Pooling.avg_pool2d mean H k x) = Z.max 0 (H `div` k) * Z.max 0 (H `div` k).
Proof.
  unfold Pooling.avg_pool2d, len. rewrite length_join.
  rewrite (sum_list_fmap_same (Z.to_nat (H `div` k))).
  - rewrite length_fmap, length_seqZ. nia.
  - apply list.Forall_fmap, list.Forall_forall. intros i _. simpl.
    by rewrite length_fmap, length_seqZ.
Qed.

Lemma slice_head_tail {A} (a : A) (l : list A) :
  slice (a :: l) (Some 0) (Some 1) = [a] /\ slice (a :: l) (Some 1) None = l.
Proof.
  split.
  - unfold slice, norm_index, len. simpl length.
    change (0 <? 0) with false. change (1 <? 0) with false. cbv iota.
    rewrite Z.min_l, Z.min_l by lia. done.
  - rewrite slice_from by lia. done.
Qed.

(** X18.  [grid_pooling] of v5.1 on a sample of a cls token and [H * H] patch
    features.  With [grid_size] -1 it moves the cls token behind the
    patches, with 0 it keeps the cls token alone, with 1 the mean of the
    patches and the cls token.  With [2 <= grid_size <= H] it returns
    [(H // (H // grid_size))] squared pooled features and the cls token
    last, which is [grid_size] squared features when [grid_size] divides
    [H]; with [grid_size > H] the pooling raises.  For another
    [grid_size], a patch sequence that is not a square raises at the
    [view]. *)
Theorem grid_pooling_tokens {V : Type} (mean : list V -> V) (grid_size H : Z)
    (cls : V) (patches : list V) :
  0 <= H -> len patches = H * H ->
  let out := Pooling.grid_pooling_sample mean grid_size (cls :: patches) in
  (grid_size = -1 -> out = Pooling.Pooled (patches ++ [cls])) /\
  (grid_size = 0 -> out = Pooling.Pooled [cls]) /\
  (grid_size = 1 -> out = Pooling.Pooled [mean patches; cls]) /\
  (2 <= grid_size <= H ->
   exists tokens,
     out = Pooling.Pooled (tokens ++ [cls]) /\
     len tokens = (H `div` (H `div` grid_size)) * (H `div` (H `div` grid_size)) /\
     ((grid_size | H) -> len tokens = grid_size * grid_size)) /\
  (2 <= grid_size -> H < grid_size ->
   out = Pooling.PoolingError Pooling.RuntimeError_kernel) /\
  (forall x : list V,
     grid_size <> -1 -> grid_size <> 0 -> grid_size <> 1 ->
     Z.sqrt (len (slice x (Some 1) None)) * Z.sqrt (len (slice x (Some 1) None))
     <> len (slice x (Some 1) None) ->
     Pooling.grid_pooling_sample mean grid_size x
     = Pooling.PoolingError Pooling.RuntimeError_view).
Proof.
  intros HH Hlen out. subst out. unfold Pooling.grid_pooling_sample.
  destruct (slice_head_tail cls patches) as [-> ->]. cbv zeta.
  assert (Hsqrt : Z.sqrt (len patches) = H) by (rewrite Hlen; by apply Z.sqrt_square).
  split; [by intros ->|]. split; [by intros ->|]. split; [by intros ->|].
  split; [|split].
  - intros Hg.
    destruct (Z.eqb_spec grid_size (-1)); [lia|].
    destruct (Z.eqb_spec grid_size 0); [lia|].
    destruct (Z.eqb_spec grid_size 1); [lia|].
    rewrite Hsqrt. rewrite <- Hlen, Z.eqb_refl. cbn [negb].
    assert (Hk : 1 <= H `div` grid_size).
    { apply Z.div_le_lower_bound; lia. }
    destruct (Z.leb_spec (H `div` grid_size) 0) as [?|_]; [lia|].
    eexists. split; [reflexivity|].
    rewrite avg_pool2d_length.
    assert (Ho : 0 <= H `div` (H `div` grid_size)) by (apply Z.div_pos; lia).
    rewrite Z.max_r by done. split; [done|].
    intros [m ->].
    rewrite Z.div_mul by lia.
    assert (Hm : 0 < m) by nia.
    replace (m * grid_size) with (grid_size * m) by lia.
    by rewrite Z.div_mul by lia.
  - intros Hg Hlt.
    destruct (Z.eqb_spec grid_size (-1)); [lia|].
    destruct (Z.eqb_spec grid_size 0); [lia|].
    destruct (Z.eqb_spec grid_size 1); [lia|].
    rewrite Hsqrt. rewrite <- Hlen, Z.eqb_refl. cbn [negb].
    rewrite Z.div_small by lia. done.
  - intros x H1 H2 H3 Hns.
    destruct (Z.eqb_spec grid_size (-1)); [done|].
    destruct (Z.eqb_spec grid_size 0); [done|].
    destruct (Z.eqb_spec grid_size 1); [done|].
    destruct (Z.eqb_spec (Z.sqrt (len (slice x (Some 1) None))
                          * Z.sqrt (len (slice x (Some 1) None)))
                (len (slice x (Some 1) None))); [done|]. done.
Qed.

(** X19.  [grid_pooling] of v5.1_old on the same sample.  With [grid_size] -1
    it returns the features as they are, with 0 the cls token alone, with
    1 the mean of all features, the cls token among them.  With
    [2 <= grid_size] it returns the cls token and [grid_size] squared
    pooled features when [grid_size] divides [H], and fails its
    assertion when [grid_size] does not divide a positive [H]. *)
Theorem grid_pooling_old_tokens {V : Type} (mean : list V -> V) (grid_size H : Z)
    (cls : V) (patches : list V) :
  0 <= H -> len patches = H * H ->
  let out := Pooling.grid_pooling_old_sample mean grid_size (cls :: patches) in
  (grid_size = -1 -> out = Pooling.Pooled (cls :: patches)) /\
  (grid_size = 0 -> out = Pooling.Pooled [cls]) /\
  (grid_size = 1 -> out = Pooling.Pooled [mean (cls :: patches)]) /\
  (2 <= grid_size -> 0 < H -> (grid_size | H) ->
   exists tokens,
     out = Pooling.Pooled (cls :: tokens) /\ len tokens = grid_size * grid_size) /\
  (2 <= grid_size -> 0 < H -> ~ (grid_size | H) ->
   out = Pooling.PoolingError Pooling.AssertionError).
Proof.
  intros HH Hlen out. subst out. unfold Pooling.grid_pooling_old_sample.
  destruct (slice_head_tail cls patches) as [-> ->]. cbv zeta.
  assert (Hsqrt : Z.sqrt (len patches) = H) by (rewrite Hlen; by apply Z.sqrt_square).
  split; [by intros ->|]. split; [by intros ->|]. split; [by intros ->|].
  split.
  - intros Hg Hpos [m ->].
    destruct (Z.eqb_spec grid_size (-1)); [lia|].
    destruct (Z.eqb_spec grid_size 0); [lia|].
    destruct (Z.eqb_spec grid_size 1); [lia|].
    rewrite Hsqrt. rewrite <- Hlen, Z.eqb_refl. cbn [negb].
    rewrite Z.div_mul by lia. rewrite Z.eqb_refl. cbn [negb].
    assert (Hm : 0 < m) by nia.
    destruct (Z.leb_spec m 0) as [?|_]; [lia|].
    eexists. split; [reflexivity|].
    rewrite avg_pool2d_length.
    replace (m * grid_size) with (grid_size * m) by lia.
    rewrite Z.div_mul by lia. lia.
  - intros Hg Hpos Hndiv.
    destruct (Z.eqb_spec grid_size (-1)); [lia|].
    destruct (Z.eqb_spec grid_size 0); [lia|].
    destruct (Z.eqb_spec grid_size 1); [lia|].
    rewrite Hsqrt. rewrite <- Hlen, Z.eqb_refl. cbn [negb].
    destruct (Z.eqb_spec (H `div` grid_size * grid_size) H) as [Heq|_]; [|done].
    exfalso. apply Hndiv. by exists (H `div` grid_size).
Qed.

(** ** The initial decay of the time mix *)

Section InitFacts.
Local Open Scope R_scope.

Lemma exp_le (x y : R) : x <= y -> exp x <= exp y.
Proof.
  intros [Hlt | ->]; [left; by apply exp_increasing | right; reflexivity].
Qed.

Lemma float_pow_unit (x y : R) :
  0 <= x <= 1 -> 0 <= y -> 0 <= V51.float_pow x y <= 1.
Proof.
  intros [Hx0 Hx1] Hy. unfold V51.float_pow.
  destruct (Req_dec_T x 0) as [-> | Hne].
  - destruct (Req_dec_T y 0); lra.
  - assert (Hpos : 0 < x) by lra.
    assert (Hln : ln x <= 0).
    { destruct Hx1 as [Hlt | ->]; [|rewrite ln_1; lra].
      pose proof (ln_increasing x 1 Hpos Hlt) as H. rewrite ln_1 in H. lra. }
    unfold Rpower. split; [left; apply exp_pos|].
    rewrite <- exp_0. apply exp_le.
    assert (0 <= y * - ln x) by (apply Rmult_le_pos; lra). lra.
Qed.

Lemma ratio_unit (a b : Z) : (0 <= a <= b)%Z -> (0 < b)%Z -> 0 <= IZR a / IZR b <= 1.
Proof.
  intros Ha Hb.
  assert (Hb' : 0 < IZR b) by (by apply IZR_lt).
  assert (Ha0 : 0 <= IZR a) by (apply IZR_le; lia).
  assert (Hab : IZR a <= IZR b) by (apply IZR_le; lia).
  split.
  - unfold Rdiv. apply Rmult_le_pos; [done|]. left. by apply Rinv_0_lt_compat.
  - apply (Rmult_le_reg_r (IZR b)); [done|].
    unfold Rdiv. rewrite Rmult_assoc, Rinv_l by lra. lra.
Qed.

Lemma eew_entry_bounds (w : R) :
  -6 <= w <= -1 -> exp (- exp (-1)) <= exp (- exp w) <= exp (- exp (-6)).
Proof.
  intros [H1 H2].
  pose proof (exp_le _ _ H1). pose proof (exp_le _ _ H2).
  split; apply exp_le; lra.
Qed.
End InitFacts.

Lemma reshape_vector_rows (P : R -> Prop) (l : list R) (rows cols : Z)
    (t : list (list R)) :
  V51.reshape_vector l rows cols = V51.Init_ok t -> Forall P l ->
  len t = rows /\ Forall (fun row => len row = cols /\ Forall P row) t.
Proof.
  unfold V51.reshape_vector.
  destruct (Z.leb_spec 0 rows) as [Hr|]; [|done].
  destruct (Z.leb_spec 0 cols) as [Hc|]; [|done].
  destruct (Z.eqb_spec (rows * cols) (len l)) as [Hl|]; [|done].
  cbn [andb]. intros [= <-] HP. split.
  - unfold len. rewrite length_fmap, length_seqZ. lia.
  - apply list.Forall_fmap, list.Forall_forall. intros r Hr'.
    apply elem_of_seqZ in Hr'. simpl. split.
    + unfold len in *. rewrite length_take, length_drop. nia.
    + by apply Forall_take, Forall_drop.
Qed.

(** X20.  With a head size that divides [dim_att], two layers at least and
    [dim_att >= 2], [__init__] returns: [time_decay] has [n_head] rows of
    [head_size] entries, each between -6 and -1, so the decay
    [exp(-exp(w))] of every entry [w], in exact arithmetic, lies between
    [exp(-exp(-1))] and [exp(-exp(-6))]; and the entries of [time_mix_k], [time_mix_r] and
    [time_mix_g] lie between 0 and 1. *)
Theorem time_mix_init_ranges (head_size n_head n_layer n_embd dim_att layer_id : Z) :
  0 < head_size -> 1 <= n_head -> dim_att = n_head * head_size -> 2 <= dim_att ->
  2 <= n_layer -> 0 <= layer_id < n_layer -> 0 <= n_embd ->
  exists p,
    V51.RWKV_TimeMix_RWKV5_init head_size head_size n_layer n_embd dim_att layer_id
    = V51.Init_ok p /\
    len (V51.time_decay p) = n_head /\
    Forall (fun row => len row = head_size /\ Forall (fun w => (-6 <= w <= -1)%R) row)
      (V51.time_decay p) /\
    Forall (Forall (fun w => (exp (- exp (-1)) <= exp (- exp w) <= exp (- exp (-6)))%R))
      (V51.time_decay p) /\
    Forall (fun m => (0 <= m <= 1)%R)
      (V51.time_mix_k p ++ V51.time_mix_r p ++ V51.time_mix_g p).
Proof.
  intros Hhs Hnh Hdim Hd2 Hnl Hlid Hemb. unfold V51.RWKV_TimeMix_RWKV5_init. cbv zeta.
  rewrite Z.eqb_refl. cbn [negb].
  destruct (Z.eqb_spec head_size 0) as [|_]; [lia|].
  assert (Hdiv : dim_att `div` head_size = n_head) by (rewrite Hdim; apply Z.div_mul; lia).
  rewrite Hdiv. destruct (Z.eqb_spec n_head 0) as [|_]; [lia|].
  assert (Hmod : dim_att `mod` n_head = 0).
  { rewrite Hdim, Z.mul_comm. apply Z.mod_mul. lia. }
  rewrite Hmod. cbn [negb Z.eqb].
  destruct (Z.eqb_spec (n_layer - 1) 0) as [|_]; [lia|].
  destruct (Z.eqb_spec n_layer 0) as [|_]; [lia|].
  destruct (Z.ltb_spec n_embd 0) as [|_]; [lia|].
  destruct (Z.ltb_spec dim_att 0) as [|_]; [lia|].
  destruct (Z.ltb_spec 0 dim_att) as [_|]; [|lia].
  destruct (Z.eqb_spec (dim_att - 1) 0) as [|_]; [lia|]. cbn [andb].
  pose proof (ratio_unit layer_id (n_layer - 1) ltac:(lia) ltac:(lia)) as Hr0.
  pose proof (ratio_unit layer_id n_layer ltac:(lia) ltac:(lia)) as Hr1.
  destruct (Rlt_dec _ 0) as [Hneg|_]; [lra|].
  set (decay_speed := (fun n : Z => _) <$> range1 dim_att).
  assert (Hdecay : Forall (fun w => (-6 <= w <= -1)%R) decay_speed).
  { unfold decay_speed. apply list.Forall_fmap, list.Forall_forall.
    intros k Hk. apply elem_of_range1 in Hk. simpl.
    pose proof (ratio_unit k (dim_att - 1) ltac:(lia) ltac:(lia)) as Hb.
    pose proof (float_pow_unit _ (7 / 10 + 13 / 10 * (IZR layer_id / IZR (n_layer - 1)))%R
                  Hb ltac:(lra)) as Hp.
    lra. }
  assert (Hlen : len decay_speed = dim_att).
  { unfold decay_speed, len. rewrite length_fmap, range1_length. lia. }
  destruct (V51.reshape_vector decay_speed n_head head_size) as [time_decay|e] eqn:Hre.
  2:{ unfold V51.reshape_vector in Hre.
      destruct (Z.leb_spec 0 n_head); [|lia]. destruct (Z.leb_spec 0 head_size); [|lia].
      destruct (Z.eqb_spec (n_head * head_size) (len decay_speed)); [done | lia]. }
  set (tmp := (fun n : Z => _) <$> range1 dim_att).
  destruct (V51.reshape_vector tmp n_head head_size) as [time_faaaa|e] eqn:Hre2.
  2:{ unfold V51.reshape_vector in Hre2.
      assert (len tmp = dim_att)
        by (unfold tmp, len; rewrite length_fmap, range1_length; lia).
      destruct (Z.leb_spec 0 n_head); [|lia]. destruct (Z.leb_spec 0 head_size); [|lia].
      destruct (Z.eqb_spec (n_head * head_size) (len tmp)); [done | lia]. }
  eexists. split; [reflexivity|]. cbn [V51.time_decay V51.time_mix_k V51.time_mix_r
    V51.time_mix_g].
  destruct (reshape_vector_rows _ _ _ _ _ Hre Hdecay) as [Hrows Hall].
  split; [done|]. split; [done|]. split.
  - eapply List.Forall_impl; [|exact Hall]. intros row [_ Hrow]. simpl.
    eapply List.Forall_impl; [|exact Hrow].
    intros w Hw. simpl. by apply eew_entry_bounds.
  - assert (Hexp : (0 <= 1 - IZR layer_id / IZR n_layer)%R) by lra.
    assert (Hddd : forall i, i ∈ range1 n_embd ->
              (0 <= IZR i / IZR n_embd <= 1)%R).
    { intros i Hi. apply elem_of_range1 in Hi. apply ratio_unit; lia. }
    rewrite !Forall_app. repeat split.
    + rewrite <- list_fmap_compose. apply list.Forall_fmap, list.Forall_forall.
      intros i Hi. simpl. apply float_pow_unit; [by apply Hddd | done].
    + rewrite <- list_fmap_compose. apply list.Forall_fmap, list.Forall_forall.
      intros i Hi. simpl. apply float_pow_unit; [by apply Hddd | lra].
    + rewrite <- list_fmap_compose. apply list.Forall_fmap, list.Forall_forall.
      intros i Hi. simpl. apply float_pow_unit; [by apply Hddd | lra].
Qed.

(** X21.  Edge cases of [__init__]: a model of one layer cannot be built, the
    ratio of the layer divides by zero; neither can one with [dim_att = 1];
    and a head size that does not divide [dim_att] passes the assertion
    whenever the number of heads divides [dim_att], and then fails at the
    [reshape] of the decay. *)
Theorem time_mix_init_errors (head_size n_layer n_embd dim_att layer_id : Z) :
  0 < head_size -> 0 <= n_embd -> 0 <= layer_id < n_layer ->
  1 <= dim_att `div` head_size -> dim_att `mod` (dim_att `div` head_size) = 0 ->
  (n_layer = 1 ->
   V51.RWKV_TimeMix_RWKV5_init head_size head_size n_layer n_embd dim_att layer_id
   = V51.Init_raise V51.Init_ZeroDivisionError) /\
  (2 <= n_layer -> dim_att = 1 ->
   V51.RWKV_TimeMix_RWKV5_init head_size head_size n_layer n_embd dim_att layer_id
   = V51.Init_raise V51.Init_ZeroDivisionError) /\
  (2 <= n_layer -> 2 <= dim_att -> dim_att `mod` head_size <> 0 ->
   V51.RWKV_TimeMix_RWKV5_init head_size head_size n_layer n_embd dim_att layer_id
   = V51.Init_raise V51.Init_RuntimeError_reshape).
Proof.
  intros Hhs Hemb Hlid Hnh Hmod. unfold V51.RWKV_TimeMix_RWKV5_init. cbv zeta.
  rewrite Z.eqb_refl. cbn [negb].
  destruct (Z.eqb_spec head_size 0) as [|_]; [lia|].
  destruct (Z.eqb_spec (dim_att `div` head_size) 0) as [|_]; [lia|].
  rewrite Hmod. cbn [negb Z.eqb].
  split; [|split].
  - intros ->. done.
  - intros Hnl ->.
    destruct (Z.eqb_spec (n_layer - 1) 0) as [|_]; [lia|].
    destruct (Z.eqb_spec n_layer 0) as [|_]; [lia|].
    destruct (Z.ltb_spec n_embd 0) as [|_]; [lia|]. done.
  - intros Hnl Hd Hndiv.
    destruct (Z.eqb_spec (n_layer - 1) 0) as [|_]; [lia|].
    destruct (Z.eqb_spec n_layer 0) as [|_]; [lia|].
    destruct (Z.ltb_spec n_embd 0) as [|_]; [lia|].
    destruct (Z.ltb_spec dim_att 0) as [|_]; [lia|].
    destruct (Z.ltb_spec 0 dim_att) as [_|]; [|lia].
    destruct (Z.eqb_spec (dim_att - 1) 0) as [|_]; [lia|]. cbn [andb].
    pose proof (ratio_unit layer_id (n_layer - 1) ltac:(lia) ltac:(lia)) as Hr0.
    destruct (Rlt_dec _ 0) as [Hneg|_]; [lra|].
    set (decay_speed := (fun k : Z => _) <$> range1 dim_att).
    assert (Hlen : len decay_speed = dim_att).
    { unfold decay_speed, len. rewrite length_fmap, range1_length. lia. }
    unfold V51.reshape_vector at 1.
    destruct (Z.eqb_spec (dim_att `div` head_size * head_size) (len decay_speed))
      as [Heq|_].
    + exfalso. rewrite Hlen in Heq.
      apply Hndiv. rewrite <- Heq. apply Z.mod_mul. lia.
    + by rewrite andb_false_r.
Qed.

(** ** The statements above on concrete inputs *)

Lemma first_to_end_keeps_shape : keeps_shape first_to_end.
Proof.
  intros y. unfold first_to_end. rewrite <- list_fmap_compose.
  apply list_fmap_ext. intros i row _. simpl.
  rewrite length_app, length_drop, length_take. lia.
Qed.

Lemma multidirectional_forward_square_witness :
  V51.multidirectional_forward [first_to_end; first_to_end; first_to_end]
    (fun x => x) (fun x => x) (fun x => x) false 1 5 [[0; 1; 2; 3; 4; 5]]
  = Ok (V51.unidirectional_forward
          (multidirectional_blocks 2 1 5 [first_to_end; first_to_end; first_to_end])
          (fun x => x) (fun x => x) (fun x => x) false [[0; 1; 2; 3; 4; 5]]).
Proof.
  refine (proj1 (multidirectional_forward_square
    [first_to_end; first_to_end; first_to_end] (fun x => x) (fun x => x) (fun x => x)
    false 2 1 5 [[0; 1; 2; 3; 4; 5]] _ _ _ _ _ _)).
  - lia.
  - lia.
  - reflexivity.
  - repeat constructor. vm_compute. discriminate.
  - intros y. reflexivity.
  - repeat constructor; apply first_to_end_keeps_shape.
Defined.


Lemma reordering_forward_permutes_patches_witness :
  exists spiral_order snake_order zigzag_order,
    V51.get_spiral_scan_order 2 = Ok spiral_order /\
    V51.get_snake_scan_order 2 = Ok snake_order /\
    V51.get_zigzag_scan_order 2 = Ok zigzag_order /\
    reordered_pass [first_to_end] (fun x => x) (fun x => x) (fun x => x) false 1 5
      [[0; 1; 2; 3; 4; 5]] [[10; 11; 12; 13; 99]]
      (V51.spiral_forward [first_to_end] (fun x => x) (fun x => x) (fun x => x) false
         spiral_order 1 5 [[0; 1; 2; 3; 4; 5]] [[10; 11; 12; 13; 99]]) /\
    reordered_pass [first_to_end] (fun x => x) (fun x => x) (fun x => x) false 1 5
      [[0; 1; 2; 3; 4; 5]] [[10; 11; 12; 13; 99]]
      (V51.snake_forward [first_to_end] (fun x => x) (fun x => x) (fun x => x) false
         snake_order 1 5 [[0; 1; 2; 3; 4; 5]] [[10; 11; 12; 13; 99]]) /\
    reordered_pass [first_to_end] (fun x => x) (fun x => x) (fun x => x) false 1 5
      [[0; 1; 2; 3; 4; 5]] [[10; 11; 12; 13; 99]]
      (V51.zigzag_forward [first_to_end] (fun x => x) (fun x => x) (fun x => x) false
         zigzag_order 1 5 [[0; 1; 2; 3; 4; 5]] [[10; 11; 12; 13; 99]]).
Proof.
  refine (reordering_forward_permutes_patches [first_to_end] (fun x => x) (fun x => x)
    (fun x => x) false 2 1 5 [[0; 1; 2; 3; 4; 5]] [[10; 11; 12; 13; 99]] _ _ _ _ _).
  - lia.
  - lia.
  - reflexivity.
  - repeat constructor. vm_compute. discriminate.
  - repeat constructor.
Defined.

Lemma preparing_embedding_aligns_image_span_witness :
  V51.get_max_image_token_indice [[5; -200; 6]; [8]] = Ok 1 /\
  exists row feats : list (list Z),
    [[[6]; [1]; [2]; [9]; [7]]; [[1]; [0]; [0]; [0]; [9]]] !! 1%nat = Some row /\
    [[[1]; [2]; [9]]; [[0]; [0]; [0]]] !! 1%nat = Some feats /\
    take (length feats) (drop (Z.to_nat 1) row) = feats /\
    feats = replicate 3 [0].
Proof.
  destruct (preparing_embedding_aligns_image_span (fun t => [t + 1]) [0] 16
              [[5; -200; 6]; [8]] [[5; -200; 6]; [8]]
              [[[1]; [2]; [9]]; [[3]; [4]; [9]]]
              (V51.Prepared [[[6]; [1]; [2]; [9]; [7]]; [[1]; [0]; [0]; [0]; [9]]]
                 [[5; -100; -100; -100; 6]; [-100; -100; -100; -100; 8]]
                 [[[1]; [2]; [9]]; [[0]; [0]; [0]]] 1 3) eq_refl)
    as (Hmax & _ & _ & Hrows).
  split; [exact Hmax|].
  destruct (Hrows 1%nat [8] eq_refl)
    as (row & feats & orig & lrow & Hrow & _ & Hfeats & Horig & Hspan & _ & Hzero & _).
  exists row, feats. split; [exact Hrow|]. split; [exact Hfeats|].
  split; [exact Hspan|].
  injection Horig as <-. exact (Hzero eq_refl).
Defined.

Lemma truncate_input_idempotent_witness :
  V51.truncate_input 2 (V51.truncate_input 2 [[1; 2; 3]; [4]] [[1; 2; 3]; [4]]).1
    (V51.truncate_input 2 [[1; 2; 3]; [4]] [[1; 2; 3]; [4]]).2
  = V51.truncate_input 2 [[1; 2; 3]; [4]] [[1; 2; 3]; [4]].
Proof.
  refine (proj2 (proj2 (truncate_input_idempotent 2 [[1; 2; 3]; [4]] [[1; 2; 3]; [4]] _))).
  lia.
Defined.



Lemma forward_cold_start_finite :
  exists r st',
    V51_old.forward cfg_three (V51_old.init cfg_three) [[[1%R]]] [[[1%R]]] [[true]]
    = Ok (Some r, st').
Proof.
  assert (Hsup : supported cfg_three) by (left; reflexivity).
  assert (Hproj : proj_shaped cfg_three) by (split; [reflexivity | repeat constructor]).
  destruct (forward_in_window cfg_three Hsup Hproj (V51_old.init cfg_three) 1
              [[[1%R]]] [[[1%R]]] [[true]])
    as (loss & st' & Hfwd & Hloss & _).
  - repeat split; repeat constructor.
  - repeat split; repeat constructor; simpl; lia.
  - simpl. lia.
  - destruct (compute_in_queue_finite cfg_three Hsup (masked_text [[[1%R]]] [[true]])
                (projected cfg_three [[[1%R]]]) [[true]]
                (V51_old.text_queue (V51_old.init cfg_three))
                (projected cfg_three (V51_old.vision_queue (V51_old.init cfg_three))))
      as [r Hr].
    + reflexivity.
    + repeat constructor.
    + reflexivity.
    + discriminate.
    + repeat split; [repeat constructor; discriminate ..|].
      intros _. repeat constructor.
    + repeat split; [repeat constructor; discriminate ..|].
      intros _. repeat constructor.
    + unfold forward_loss, loss_of in Hloss. simpl negb in Hloss.
      cbv iota zeta in Hloss.
      rewrite Hr in Hloss. injection Hloss as <-. by exists r, st'.
Qed.

Lemma forward_loss_nonneg_witness :
  exists r st',
    V51_old.forward cfg_three (V51_old.init cfg_three) [[[1%R]]] [[[1%R]]] [[true]]
    = Ok (Some r, st') /\ (0 <= r)%R.
Proof.
  destruct forward_cold_start_finite as (r & st' & Hfwd).
  exists r, st'. split; [exact Hfwd|].
  exact (proj1 (forward_loss_nonneg cfg_three (V51_old.init cfg_three) st'
                  [[[1%R]]] [[[1%R]]] [[true]] r Hfwd)).
Defined.

Lemma mask_targets_from_human_masks_witness :
  length (Preprocess.mask_targets_from_human [1; 2; 3; 4; 5; 6] [2; 3] ["human"; "gpt"]%string)
  = 6%nat /\
  Preprocess.mask_targets_from_human [1; 2; 3; 4; 5; 6] [2; 3] ["human"; "gpt"]%string
    !! 1%nat = Some IGNORE_INDEX.
Proof.
  destruct (mask_targets_from_human_masks [1; 2; 3; 4; 5; 6] [2; 3] ["human"; "gpt"]%string)
    as [Hlen Hat].
  - repeat constructor; lia.
  - split; [exact Hlen | exact (Hat 1%nat)].
Defined.

Lemma preprocess_masks_exact_human_witness :
  Preprocess.preprocess (fun s => [Z.of_nat (String.length s)])
    [Preprocess.Sentence "Human" "hi"] false 3 0 true
  = Preprocess.Returns
      (Preprocess.Preprocessed [10; 0; 0] [10; -100; -100]
         ("User: hi" ++ Preprocess.DEFAULT_STOP_TOKEN)%string).
Proof.
  refine (preprocess_masks_exact_human (fun s => [Z.of_nat (String.length s)])
            "Human" "hi" false 3 0 true _ _).
  - reflexivity.
  - discriminate.
Defined.

Lemma grid_pooling_tokens_witness :
  exists tokens,
    Pooling.grid_pooling_sample (fun l => foldr Z.add 0 l) 2 (0 :: seqZ 1 16)
    = Pooling.Pooled (tokens ++ [0]) /\
    len tokens = 2 * 2.
Proof.
  destruct (grid_pooling_tokens (fun l => foldr Z.add 0 l) 2 4 0 (seqZ 1 16))
    as (_ & _ & _ & Hgrid & _).
  - lia.
  - reflexivity.
  - destruct (Hgrid ltac:(lia)) as (tokens & Hout & _ & Hdiv).
    exists tokens. split; [exact Hout|]. apply Hdiv. exists 2. reflexivity.
Defined.

Lemma grid_pooling_old_tokens_witness :
  exists tokens,
    Pooling.grid_pooling_old_sample (fun l => foldr Z.add 0 l) 2 (0 :: seqZ 1 16)
    = Pooling.Pooled (0 :: tokens) /\
    len tokens = 2 * 2.
Proof.
  destruct (grid_pooling_old_tokens (fun l => foldr Z.add 0 l) 2 4 0 (seqZ 1 16))
    as (_ & _ & _ & Hgrid & _).
  - lia.
  - reflexivity.
  - apply Hgrid; [lia | lia |]. exists 2. reflexivity.
Defined.

Lemma time_mix_init_ranges_witness :
  exists p,
    V51.RWKV_TimeMix_RWKV5_init 2 2 2 2 4 0 = V51.Init_ok p /\
    len (V51.time_decay p) = 2 /\
    Forall (fun row => len row = 2 /\ Forall (fun w => (-6 <= w <= -1)%R) row)
      (V51.time_decay p).
Proof.
  destruct (time_mix_init_ranges 2 2 2 2 4 0) as (p & Hinit & Hrows & Hall & _);
    [lia | lia | reflexivity | lia | lia | lia | lia |].
  exists p. split; [exact Hinit|]. split; [exact Hrows | exact Hall].
Defined.

Lemma time_mix_init_errors_witness :
  V51.RWKV_TimeMix_RWKV5_init 4 4 2 2 10 0
  = V51.Init_raise V51.Init_RuntimeError_reshape.
Proof.
  destruct (time_mix_init_errors 4 2 2 10 0) as (_ & _ & Hreshape);
    [lia | lia | lia | vm_compute; discriminate | reflexivity |].
  apply Hreshape; [lia | lia | vm_compute; discriminate].
Defined.
